(** * win-top: sampling, power estimate, ranking, input and scheduling

    A shallow embedding of [server/win-top.js], the terminal monitor of the
    repository, and the properties of its sampling / estimation / ranking
    engine.

    Conventions of the embedding.
    - A JavaScript number is modelled by its value: NaN, one of the two
      infinities, or a rational ([num]).  Arithmetic on finite values is
      exact: the rounding of IEEE-754 doubles is not modelled, and the two
      zeros are one value.  The special cases of the operators (NaN
      propagation, [Infinity - Infinity], division by zero, the truthiness
      used by [||]) follow ECMAScript.
    - A JavaScript string is a [string] of the standard library; case
      mapping is the ASCII one.
    - The module-level variables of the script ([intervalMs], [prevCpuMap],
      [sortBy], ...) are the fields of explicit state records, threaded
      through the functions that read or assign them. *)

From Stdlib Require Import ZArith QArith Qcanon Qround List Bool Lia Lqa.
From Stdlib Require Import Sorted Permutation.
From Stdlib Require String.
From Stdlib Require Import Ascii.
From stdpp Require Import base decidable countable gmap strings list.

Local Open Scope Z_scope.

(** ** Numbers *)

Inductive num : Type :=
| NaN : num
| PInf : num
| NInf : num
| Fin (q : Qc).

Global Instance num_eq_dec : EqDecision num.
Proof. solve_decision. Defined.

Definition num_encode (a : num) : option (bool + Qc) :=
  match a with
  | NaN => None
  | PInf => Some (inl true)
  | NInf => Some (inl false)
  | Fin q => Some (inr q)
  end.

Definition num_decode (x : option (bool + Qc)) : num :=
  match x with
  | None => NaN
  | Some (inl true) => PInf
  | Some (inl false) => NInf
  | Some (inr q) => Fin q
  end.

Global Instance num_countable : Countable num.
Proof.
  apply (inj_countable' num_encode num_decode).
  intros []; reflexivity.
Defined.

(** Literals. *)
Definition ofZ (z : Z) : num := Fin (Q2Qc (inject_Z z)).
Definition ofQ (q : Q) : num := Fin (Q2Qc q).

(** [ToBoolean] on a number: [0] and [NaN] are falsy. *)
Definition truthy (a : num) : bool :=
  match a with
  | NaN => false
  | PInf | NInf => true
  | Fin q => negb (bool_decide (q = Q2Qc 0))
  end.

(** [a || b] on numbers. *)
Definition orElse (a b : num) : num := if truthy a then a else b.

(** [Number(x || 0)] for a JSON field that holds a number or is
    null / undefined / missing ([None]). *)
Definition NumberOr0 (x : option num) : num :=
  match x with
  | Some a => orElse a (ofZ 0)
  | None => ofZ 0
  end.

Definition neg (a : num) : num :=
  match a with
  | NaN => NaN
  | PInf => NInf
  | NInf => PInf
  | Fin q => Fin (- q)%Qc
  end.

Definition add (a b : num) : num :=
  match a, b with
  | NaN, _ | _, NaN => NaN
  | PInf, NInf | NInf, PInf => NaN
  | PInf, _ | _, PInf => PInf
  | NInf, _ | _, NInf => NInf
  | Fin x, Fin y => Fin (x + y)%Qc
  end.

Definition sub (a b : num) : num := add a (neg b).

(** An infinity times (or divided by) a finite value of sign [c]. *)
Definition scaleInf (inf : num) (c : comparison) : num :=
  match c with
  | Eq => NaN
  | Gt => inf
  | Lt => neg inf
  end.

Definition mul (a b : num) : num :=
  match a, b with
  | NaN, _ | _, NaN => NaN
  | Fin x, Fin y => Fin (x * y)%Qc
  | Fin x, inf => scaleInf inf (x ?= Q2Qc 0)%Qc
  | inf, Fin y => scaleInf inf (y ?= Q2Qc 0)%Qc
  | PInf, PInf | NInf, NInf => PInf
  | PInf, NInf | NInf, PInf => NInf
  end.

(** Division; the only zero of the model is the positive one. *)
Definition div (a b : num) : num :=
  match a, b with
  | NaN, _ | _, NaN => NaN
  | Fin x, Fin y =>
      if bool_decide (y = Q2Qc 0)
      then scaleInf PInf (x ?= Q2Qc 0)%Qc
      else Fin (x / y)%Qc
  | Fin _, _ => Fin (Q2Qc 0)
  | inf, Fin y => match (y ?= Q2Qc 0)%Qc with Lt => neg inf | _ => inf end
  | _, _ => NaN
  end.

(** [a < b] and [a > b]; false as soon as one side is NaN. *)
Definition ltb (a b : num) : bool :=
  match a, b with
  | NaN, _ | _, NaN => false
  | _, NInf => false
  | NInf, _ => true
  | PInf, _ => false
  | _, PInf => true
  | Fin x, Fin y => match (x ?= y)%Qc with Lt => true | _ => false end
  end.

Definition gtb (a b : num) : bool := ltb b a.

(** [Math.max(a, b)] and [Math.min(a, b)]. *)
Definition Math_max (a b : num) : num :=
  match a, b with
  | NaN, _ | _, NaN => NaN
  | _, _ => if ltb a b then b else a
  end.

Definition Math_min (a b : num) : num :=
  match a, b with
  | NaN, _ | _, NaN => NaN
  | _, _ => if ltb b a then b else a
  end.

Definition Number_isFinite (a : num) : bool :=
  match a with Fin _ => true | _ => false end.

Definition Math_floor (a : num) : num :=
  match a with Fin q => ofZ (Qfloor q) | _ => a end.

Definition Math_ceil (a : num) : num :=
  match a with Fin q => ofZ (Qceiling q) | _ => a end.

(** [Math.round]: the nearest integer, a tie going up. *)
Definition Math_round (a : num) : num :=
  match a with Fin q => ofZ (Qfloor (q + Q2Qc (1 # 2))%Qc) | _ => a end.

(** ** Strings *)

Definition toLowerChar (c : ascii) : ascii :=
  let n := Ascii.N_of_ascii c in
  if ((65 <=? n) && (n <=? 90))%N then Ascii.ascii_of_N (n + 32) else c.

Definition toUpperChar (c : ascii) : ascii :=
  let n := Ascii.N_of_ascii c in
  if ((97 <=? n) && (n <=? 122))%N then Ascii.ascii_of_N (n - 32) else c.

Fixpoint mapChars (f : ascii -> ascii) (s : string) : string :=
  match s with
  | EmptyString => EmptyString
  | String c s' => String (f c) (mapChars f s')
  end.

(** [toLowerCase] and [toUpperCase] on ASCII text: the letters A-Z and a-z
    are mapped, every other character is left as it is. *)
Definition toLowerCase : string -> string := mapChars toLowerChar.
Definition toUpperCase : string -> string := mapChars toUpperChar.

(** [s.startsWith(f)] *)
Fixpoint startsWith (s f : string) : bool :=
  match f, s with
  | EmptyString, _ => true
  | String _ _, EmptyString => false
  | String b f', String a s' => bool_decide (a = b) && startsWith s' f'
  end.

(** [s.includes(f)] *)
Fixpoint includes (s f : string) : bool :=
  startsWith s f ||
  match s with
  | EmptyString => false
  | String _ s' => includes s' f
  end.

(** The first [n] characters of [s]. *)
Fixpoint takeChars (n : nat) (s : string) : string :=
  match n, s with
  | S n', String c s' => String c (takeChars n' s')
  | _, _ => EmptyString
  end.

(** [s.slice(0, n)] for an integer [n]; a negative [n] counts from the end. *)
Definition sliceTo (s : string) (n : Z) : string :=
  if n <? 0
  then takeChars (Z.to_nat (Z.of_nat (String.length s) + n)) s
  else takeChars (Z.to_nat n) s.

(** [c.repeat(n)] for a one-character string. *)
Fixpoint repeatChar (c : ascii) (n : nat) : string :=
  match n with
  | O => EmptyString
  | S n' => String c (repeatChar c n')
  end.

Fixpoint trimStart (s : string) : string :=
  match s with
  | String c s' => if Ascii.is_space c then trimStart s' else s
  | EmptyString => EmptyString
  end.

Definition trim (s : string) : string :=
  String.rev (trimStart (String.rev (trimStart s))).

(** A string is truthy when it is not empty. *)
Definition nonEmpty (s : string) : bool :=
  match s with EmptyString => false | _ => true end.

(** [x || ''] for a field that holds a string or is null / undefined. *)
Definition strOrEmpty (x : option string) : string := default EmptyString x.

(** ** The PowerShell bridge *)

(** Outcome of [await execP(cmd)]: the promise rejects, or resolves with
    the standard output of the command. *)
Inductive execResult : Type :=
| ExecFail
| ExecOk (stdout : string).

(** What [ConvertTo-Json] prints for a query: an array of objects, or the
    object itself when there is only one. *)
Inductive json (A : Type) : Type :=
| JArray (l : list A)
| JObject (o : A).
Arguments JArray {A} l.
Arguments JObject {A} o.

Section PowerShell.
Context {A : Type}.

(** [JSON.parse]; [None] when it throws. *)
Variable JSON_parse : string -> option (json A).

(** [powershellJson]: [None] is the [null] it returns on every failure. *)
Definition powershellJson (r : execResult) : option (json A) :=
  match r with
  | ExecFail => None
  | ExecOk stdout =>
      let out := trim stdout in
      if negb (nonEmpty out) || bool_decide (out = "null")
      then None
      else JSON_parse out
  end.

(** [Array.isArray(data) ? data[0] : data]; [None] is [undefined]. *)
Definition firstOrSelf (data : json A) : option A :=
  match data with
  | JArray l => head l
  | JObject o => Some o
  end.

End PowerShell.

(** ** Process sampling *)

(** One object of the [Win32_Process] query.  A field is [None] when it is
    null or missing. *)
Record rawProcess : Type := {
  ProcessId : option num;
  Name : option string;
  CommandLine : option string;
  KernelModeTime : option num;
  UserModeTime : option num;
  WorkingSetSize : option num
}.

Record row : Type := {
  pid : num;
  name : string;
  cmd : string;
  cpuSec : num;
  cpuPct : num;
  memBytes : num;
  estW : num
}.

(** CPU sampling state: pid -> last CPU seconds, and the time of the last
    sample in milliseconds. *)
Record cpuState : Type := {
  prevCpuMap : gmap num num;
  prevSampleTime : num
}.

(** [sampleProcessesRaw], from the result of [powershellJson]. *)
Definition sampleProcessesRaw (data : option (json rawProcess)) : list rawProcess :=
  match data with
  | None => []
  | Some (JArray l) => l
  | Some (JObject p) => [p]
  end.

(** [prevCpuMap.get(pid) || 0] *)
Definition prevOr0 (m : gmap num num) (k : num) : num :=
  match m !! k with
  | Some v => orElse v (ofZ 0)
  | None => ofZ 0
  end.

(** [prevCpuMap.clear(); for (const r of rows) prevCpuMap.set(r.pid, r.cpuSec)] *)
Definition rebuildCpuMap (rows : list row) : gmap num num :=
  foldl (fun m r => <[pid r := cpuSec r]> m) ∅ rows.

Section Sampling.

(** Power model knobs and the detected number of logical cores. *)
Variables CPU_TDP_W MEM_W_PER_GB : num.
Variable logicalCores : num.

Definition GiB : num := ofZ (1024 * 1024 * 1024).

(** [Math.max((now - prevSampleTime) / 1000, 0.001)] *)
Definition dtSecOf (now prevTime : num) : num :=
  Math_max (div (sub now prevTime) (ofZ 1000)) (ofQ (1 # 1000)).

(** The body of the loop of [sampleProcesses]. *)
Definition sampleRow (prevMap : gmap num num) (dtSec : num) (p : rawProcess) : row :=
  let pid := NumberOr0 (ProcessId p) in
  let kTicks := NumberOr0 (KernelModeTime p) in
  let uTicks := NumberOr0 (UserModeTime p) in
  let totalTicks := add kTicks uTicks in
  let cpuSec := div totalTicks (ofZ 10000000) in
  let prev := prevOr0 prevMap pid in
  let delta := Math_max (ofZ 0) (sub cpuSec prev) in
  let cpuPct := mul (div (div delta dtSec) (Math_max (ofZ 1) logicalCores)) (ofZ 100) in
  let memBytes := NumberOr0 (WorkingSetSize p) in
  let memGB := div memBytes GiB in
  let estW :=
    add (mul (div (Math_max (ofZ 0) cpuPct) (ofZ 100)) CPU_TDP_W)
        (mul memGB MEM_W_PER_GB) in
  {| pid := pid;
     name := strOrEmpty (Name p);
     cmd := trim (strOrEmpty (CommandLine p));
     cpuSec := cpuSec;
     cpuPct := if Number_isFinite cpuPct then cpuPct else ofZ 0;
     memBytes := memBytes;
     estW := if Number_isFinite estW then estW else ofZ 0 |}.

(** [sampleProcesses]: [now] is [Date.now()], [data] what the process
    query returned; the result is the rows and the new sampling state. *)
Definition sampleProcesses (now : num) (data : option (json rawProcess))
    (st : cpuState) : list row * cpuState :=
  let dtSec := dtSecOf now (prevSampleTime st) in
  let raw := sampleProcessesRaw data in
  let rows := map (sampleRow (prevCpuMap st) dtSec) raw in
  (rows, {| prevCpuMap := rebuildCpuMap rows; prevSampleTime := now |}).

(** The seeding of the CPU map in [main]. *)
Definition seedCpuState (now : num) (data : option (json rawProcess)) : cpuState :=
  let initRaw := sampleProcessesRaw data in
  {| prevCpuMap :=
       foldl (fun m p =>
                let pid := NumberOr0 (ProcessId p) in
                let kTicks := NumberOr0 (KernelModeTime p) in
                let uTicks := NumberOr0 (UserModeTime p) in
                let totalTicks := add kTicks uTicks in
                let cpuSec := div totalTicks (ofZ 10000000) in
                <[pid := cpuSec]> m) ∅ initRaw;
     prevSampleTime := now |}.

(** ** System sampling *)

Record memCounters : Type := {
  TotalVisibleMemorySize : option num;
  FreePhysicalMemory : option num
}.

Record systemSnapshot : Type := {
  cpu : num;
  totalMem : num;
  usedMem : num;
  procCount : num;
  uptime : string;
  estPowerW : num;
  cpuW : num;
  memW : num
}.

(** What one round of the queries of [sampleSystem] returned.  A counter
    query is [None] when [execP] rejected, and otherwise holds the number
    that [parseFloat] / [parseInt] read from the output (possibly NaN). *)
Record systemQueries : Type := {
  cpuCounter : option num;
  os_totalmem : num;
  os_freemem : num;
  memJson : option (json memCounters);
  processCounter : option num;
  uptimeOut : execResult
}.

(** [a && b] used as a condition, on two optional numbers. *)
Definition bothTruthy (a b : option num) : bool :=
  match a, b with
  | Some x, Some y => truthy x && truthy y
  | _, _ => false
  end.

(** The memory block of [sampleSystem]: total and used bytes. *)
Definition sampleMemory (q : systemQueries) : num * num :=
  let totalMem := os_totalmem q in
  let usedMem := sub totalMem (os_freemem q) in
  match memJson q with
  | Some data =>
      match firstOrSelf data with
      | Some m =>
          let totalKB := TotalVisibleMemorySize m in
          let freeKB := FreePhysicalMemory m in
          if bothTruthy totalKB freeKB then
            let totalMem' := mul (NumberOr0 totalKB) (ofZ 1024) in
            let freeMem := mul (NumberOr0 freeKB) (ofZ 1024) in
            (totalMem', Math_max (ofZ 0) (sub totalMem' freeMem))
          else (totalMem, usedMem)
      | None => (totalMem, usedMem)
      end
  | None => (totalMem, usedMem)
  end.

Definition sampleSystem (q : systemQueries) : systemSnapshot :=
  let cpu := match cpuCounter q with Some v => orElse v (ofZ 0) | None => ofZ 0 end in
  let '(totalMem, usedMem) := sampleMemory q in
  let procCount :=
    match processCounter q with Some v => orElse v (ofZ 0) | None => ofZ 0 end in
  let uptime :=
    match uptimeOut q with
    | ExecOk stdout => let s := trim stdout in if nonEmpty s then s else "N/A"
    | ExecFail => "N/A"
    end in
  let cpuPct := Math_max (ofZ 0) (Math_min (ofZ 100) (orElse cpu (ofZ 0))) in
  let usedMemGB := div usedMem GiB in
  let cpuW := mul (div cpuPct (ofZ 100)) CPU_TDP_W in
  let memW := mul usedMemGB MEM_W_PER_GB in
  let estPowerW := add cpuW memW in
  {| cpu := cpu; totalMem := totalMem; usedMem := usedMem;
     procCount := procCount; uptime := uptime;
     estPowerW := estPowerW; cpuW := cpuW; memW := memW |}.

End Sampling.

(** ** Sorting and filtering *)

(** The view state: the variables that the keyboard handler assigns. *)
Record viewState : Type := {
  sortBy : string;
  sortDesc : bool;
  filterStr : string;
  topN : num;
  intervalMs : num
}.

(** [Array.prototype.sort(c)].  ECMAScript specifies a stable sort; it is
    modelled by a stable insertion sort: an element moves behind another
    one only when the comparator returns a value above zero (NaN counts as
    zero).  For a consistent comparator every stable sort returns this
    array. *)
Fixpoint insertSorted {A : Type} (c : A -> A -> num) (x : A) (l : list A) : list A :=
  match l with
  | [] => [x]
  | y :: l' => if gtb (c x y) (ofZ 0) then y :: insertSorted c x l' else x :: l
  end.

Definition Array_sort {A : Type} (c : A -> A -> num) (l : list A) : list A :=
  foldr (insertSorted c) [] l.

(** Truncation of a rational toward zero. *)
Definition truncQ (q : Qc) : Z := Z.quot (Qnum q) (Zpos (Qden q)).

(** [l.slice(0, n)]: [n] goes through [ToIntegerOrInfinity]; a negative
    end counts from the end of the array. *)
Definition Array_sliceTo {A : Type} (l : list A) (n : num) : list A :=
  match n with
  | NaN => []
  | NInf => []
  | PInf => l
  | Fin q =>
      let k := truncQ q in
      if k <? 0
      then take (Z.to_nat (Z.of_nat (length l) + k)) l
      else take (Z.to_nat k) l
  end.

Section Filter.

(** [String.prototype.toLowerCase]: the case mapping of the host, over
    the whole alphabet. *)
Variable lower : string -> string.

(** The predicate of [rows.filter]; [f] is the lower-cased filter. *)
Definition matchesFilterBy (f : string) (r : row) : bool :=
  (nonEmpty (name r) && includes (lower (name r)) f) ||
  (nonEmpty (cmd r) && includes (lower (cmd r)) f).

(** The filter stage: [filtered]. *)
Definition filterRowsBy (v : viewState) (rows : list row) : list row :=
  if nonEmpty (filterStr v)
  then let f := lower (filterStr v) in List.filter (matchesFilterBy f) rows
  else rows.

End Filter.

Section Ranking.

(** [a.localeCompare(b)]: the collation of the host locale. *)
Variable localeCompare : string -> string -> num.

(** The filter over ASCII text, where [String.prototype.toLowerCase] is
    [toLowerCase]: it maps the letters A-Z and leaves every other
    character as it is. *)
Definition matchesFilter (f : string) (r : row) : bool :=
  matchesFilterBy toLowerCase f r.

Definition cmp_cpu (a b : row) : num := sub (cpuPct a) (cpuPct b).
Definition cmp_mem (a b : row) : num := sub (memBytes a) (memBytes b).
Definition cmp_pid (a b : row) : num := sub (pid a) (pid b).
Definition cmp_name (a b : row) : num := localeCompare (name a) (name b).
Definition cmp_power (a b : row) : num := sub (estW a) (estW b).

(** [cmpMap[sortBy]]; [None] is [undefined]. *)
Definition cmpMap (key : string) : option (row -> row -> num) :=
  if bool_decide (key = "cpu") then Some cmp_cpu
  else if bool_decide (key = "mem") then Some cmp_mem
  else if bool_decide (key = "pid") then Some cmp_pid
  else if bool_decide (key = "name") then Some cmp_name
  else if bool_decide (key = "power") then Some cmp_power
  else None.

Definition filterRows (v : viewState) (rows : list row) : list row :=
  filterRowsBy toLowerCase v rows.

(** The comparator given to [sort]: [(sortDesc ? -1 : 1) * cmp(a, b)]. *)
Definition rankComparator (v : viewState) (a b : row) : num :=
  let cmp := default cmp_cpu (cmpMap (sortBy v)) in
  mul (if sortDesc v then ofZ (-1) else ofZ 1) (cmp a b).

Definition sortAndFilterProcesses (v : viewState) (rows : list row) : list row :=
  let filtered := filterRows v rows in
  let sorted := Array_sort (rankComparator v) filtered in
  Array_sliceTo sorted (topN v).

End Ranking.

(** ** Input handling *)

Definition setSort (key : string) (desc : bool) (v : viewState) : viewState :=
  {| sortBy := key; sortDesc := desc; filterStr := filterStr v;
     topN := topN v; intervalMs := intervalMs v |}.

Definition setInterval (ms : num) (v : viewState) : viewState :=
  {| sortBy := sortBy v; sortDesc := sortDesc v; filterStr := filterStr v;
     topN := topN v; intervalMs := ms |}.


(** One conditional assignment of the key handler. *)
Definition onlyIf (b : bool) (f : viewState -> viewState) (v : viewState) : viewState :=
  if b then f v else v.

Definition isKey (key k : string) : bool := bool_decide (key = k).

(** Ctrl+C, as the one-character string U+0003. *)
Definition ctrlC : string := String (Ascii.ascii_of_nat 3) EmptyString.

(** What the ['data'] handler does to the view state for one chunk of
    input; [None] when it calls [process.exit(0)].  The two prompts it may
    open (filter, kill) only act later, through their callbacks. *)
Definition onKey (key : string) (v : viewState) : option viewState :=
  if isKey key ctrlC || isKey key "q" then None
  else
    let v := onlyIf (isKey key "c") (setSort "cpu" true) v in
    let v := onlyIf (isKey key "m") (setSort "mem" true) v in
    let v := onlyIf (isKey key "p") (setSort "pid" false) v in
    let v := onlyIf (isKey key "n") (setSort "name" false) v in
    let v := onlyIf (isKey key "r") (fun v => setSort (sortBy v) (negb (sortDesc v)) v) v in
    let v := onlyIf (isKey key "w") (setSort "power" true) v in
    let v := onlyIf (isKey key "+")
               (fun v => setInterval
                           (Math_max (ofZ 200) (Math_floor (mul (intervalMs v) (ofQ (8 # 10))))) v) v in
    let v := onlyIf (isKey key "-")
               (fun v => setInterval
                           (Math_min (ofZ 60000) (Math_ceil (mul (intervalMs v) (ofQ (125 # 100))))) v) v in
    Some v.


(** A sequence of chunks, handled one after the other until the process
    exits. *)
Fixpoint onKeys (keys : list string) (v : viewState) : option viewState :=
  match keys with
  | [] => Some v
  | k :: ks =>
      match onKey k v with
      | Some v' => onKeys ks v'
      | None => None
      end
  end.

(** [parseInt(arg, 10) || fallback], from the integer that [parseInt]
    read ([None] when it returned NaN). *)
Definition parsedOr (parsed : option Z) (fallback : Z) : num :=
  match parsed with
  | Some z => orElse (ofZ z) (ofZ fallback)
  | None => ofZ fallback
  end.

(** The initial view state, from the values given to [--interval] and
    [--top]. *)
Definition initialView (interval top : option Z) : viewState :=
  {| sortBy := "cpu"; sortDesc := true; filterStr := "";
     topN := parsedOr top 20; intervalMs := parsedOr interval 1000 |}.

(** ** Vocabulary of the properties *)

(** Not below zero: a finite value that is at least zero, [Infinity], or
    NaN (which no comparison places below zero). *)
Definition notNegative (a : num) : Prop :=
  match a with
  | Fin q => (0 <= q)%Qc
  | NInf => False
  | _ => True
  end.

(** The same for "above zero". *)
Definition aboveZero (a : num) : Prop :=
  match a with
  | Fin q => (0 < q)%Qc
  | NInf => False
  | _ => True
  end.

(** The percentage that the loop body of [sampleProcesses] computes from
    the clamped difference [delta], before the [Number.isFinite] test. *)
Definition rawCpuPct (logicalCores delta dtSec : num) : num :=
  mul (div (div delta dtSec) (Math_max (ofZ 1) logicalCores)) (ofZ 100).

(** The quantities of the sampling algorithm as the specification words
    them, for a raw process [p], the history [st] and the clock reading
    [now]: cumulative CPU seconds from 100-nanosecond ticks, the elapsed
    time, the clamped difference to the previous value of the pid (zero
    for a pid that is not in the history), and the percentage. *)
Definition specCpuSeconds (p : rawProcess) : num :=
  div (add (NumberOr0 (KernelModeTime p)) (NumberOr0 (UserModeTime p))) (ofZ 10000000).

Definition specDt (now : num) (st : cpuState) : num :=
  Math_max (div (sub now (prevSampleTime st)) (ofZ 1000)) (ofQ (1 # 1000)).

Definition specDelta (st : cpuState) (p : rawProcess) : num :=
  Math_max (ofZ 0)
    (sub (specCpuSeconds p)
         (default (ofZ 0) (prevCpuMap st !! NumberOr0 (ProcessId p)))).

Definition specCpuPercent (logicalCores now : num) (st : cpuState) (p : rawProcess) : num :=
  mul (div (div (specDelta st p) (specDt now st)) (Math_max (ofZ 1) logicalCores))
      (ofZ 100).

(** A raw process with the given pid, kernel ticks and working set. *)
Definition mkRaw (id kticks wset : Z) : rawProcess :=
  {| ProcessId := Some (ofZ id); Name := Some "node.exe"; CommandLine := None;
     KernelModeTime := Some (ofZ kticks); UserModeTime := Some (ofZ 0);
     WorkingSetSize := Some (ofZ wset) |}.

(** The power model as the specification words it:
    [watts(cpuPercent, memGb) =
       clamp(cpuPercent, 0, 100) / 100 * cpuTdpWatts + max(0, memGb) * memWattsPerGb]. *)
Definition clamp (x lo hi : num) : num := Math_max lo (Math_min hi x).

Definition specWatts (cpuTdpWatts memWattsPerGb cpuPercent memGb : num) : num :=
  add (mul (div (clamp cpuPercent (ofZ 0) (ofZ 100)) (ofZ 100)) cpuTdpWatts)
      (mul (Math_max (ofZ 0) memGb) memWattsPerGb).

(** The estimate that the loop body of [sampleProcesses] computes: the
    percentage is bounded below only. *)
Definition processWatts (cpuTdpWatts memWattsPerGb cpuPercent memGb : num) : num :=
  add (mul (div (Math_max (ofZ 0) cpuPercent) (ofZ 100)) cpuTdpWatts)
      (mul memGb memWattsPerGb).

(** [Number.isFinite(x) ? x : 0] *)
Definition finiteOr0 (x : num) : num := if Number_isFinite x then x else ofZ 0.

(** System queries in which only the CPU counter and the memory counters
    (in KB) answer. *)
Definition mkQueries (cpuPercent totalKB freeKB : Z) : systemQueries :=
  {| cpuCounter := Some (ofZ cpuPercent);
     os_totalmem := ofZ 0; os_freemem := ofZ 0;
     memJson := Some (JObject {| TotalVisibleMemorySize := Some (ofZ totalKB);
                                 FreePhysicalMemory := Some (ofZ freeKB) |});
     processCounter := None; uptimeOut := ExecFail |}.

(** The bounds of the refresh interval, in milliseconds. *)
Definition inRange (a : num) : Prop :=
  match a with
  | Fin q => (Q2Qc (inject_Z 200) <= q /\ q <= Q2Qc (inject_Z 60000))%Qc
  | _ => False
  end.

(** The two interval keys. *)
Definition intervalKey (key : string) : Prop := key = "+" \/ key = "-".

(** ** Vocabulary of the ranking properties *)

(** The sign of a comparator result, NaN counting as zero. *)
Definition sgn (a : num) : comparison :=
  if gtb a (ofZ 0) then Gt else if ltb a (ofZ 0) then Lt else Eq.

(** A comparator is consistent on the elements that satisfy [ok] when
    swapping its arguments flips its sign and "not after" is transitive. *)
Definition consistentOn {A : Type} (ok : A -> Prop) (c : A -> A -> num) : Prop :=
  (forall a b, ok a -> ok b -> sgn (c b a) = CompOpp (sgn (c a b)))
  /\ (forall a b d, ok a -> ok b -> ok d ->
        sgn (c a b) <> Gt -> sgn (c b d) <> Gt -> sgn (c a d) <> Gt).

(** [a] may stand before [b]: the comparator does not put it after. *)
Definition notAfter {A : Type} (c : A -> A -> num) (a b : A) : Prop :=
  sgn (c a b) <> Gt.

(** The comparator ties [a] and [b]. *)
Definition tiedBy {A : Type} (c : A -> A -> num) (a b : A) : bool :=
  match sgn (c a b) with Eq => true | _ => false end.

(** A process sample that can be ranked: no sort key is NaN. *)
Definition rankable (r : row) : Prop :=
  cpuPct r <> NaN /\ memBytes r <> NaN /\ pid r <> NaN /\ estW r <> NaN.

(** Case-insensitive containment, as the specification words the filter:
    the lower-cased [f] occurs in the lower-cased [s]. *)
Definition containsNoCase (s f : string) : Prop :=
  exists pre post, toLowerCase s = pre +:+ toLowerCase f +:+ post.

(** The same under a case mapping [lower]: [lower f] occurs in [lower s]. *)
Definition containsBy (lower : string -> string) (s f : string) : Prop :=
  exists pre post, lower s = pre +:+ lower f +:+ post.

Section RankingVocabulary.

Variable localeCompare : string -> string -> num.

(** The order that the sort key selects, as a three-way comparison of two
    rows: cpu -> instantCpuPercent, mem -> memBytes, pid -> pid,
    name -> the collation, power -> estWatts. *)
Definition compareNum (x y : num) : comparison :=
  if ltb x y then Lt else if ltb y x then Gt else Eq.

Definition compareByKey (key : string) (a b : row) : comparison :=
  if bool_decide (key = "mem") then compareNum (memBytes a) (memBytes b)
  else if bool_decide (key = "pid") then compareNum (pid a) (pid b)
  else if bool_decide (key = "name") then sgn (localeCompare (name a) (name b))
  else if bool_decide (key = "power") then compareNum (estW a) (estW b)
  else compareNum (cpuPct a) (cpuPct b).

(** [a] ranks strictly before [b]: below it in the key order, or above it
    when the direction is descending. *)
Definition ranksBefore (v : viewState) (a b : row) : bool :=
  match compareByKey (sortBy v) a b with
  | Lt => negb (sortDesc v)
  | Gt => sortDesc v
  | Eq => false
  end.

(** [a] and [b] tie: neither ranks before the other. *)
Definition tied (v : viewState) (a b : row) : bool :=
  negb (ranksBefore v a b) && negb (ranksBefore v b a).

End RankingVocabulary.

(** A row with the given pid, name, command line and memory. *)
Definition mkRow (id : Z) (nm cm : string) (mem : Z) : row :=
  {| pid := ofZ id; name := nm; cmd := cm; cpuSec := ofZ 0; cpuPct := ofZ 0;
     memBytes := ofZ mem; estW := ofZ 0 |}.

Definition mkView (key : string) (desc : bool) (f : string) (n : Z) : viewState :=
  {| sortBy := key; sortDesc := desc; filterStr := f; topN := ofZ n;
     intervalMs := ofZ 1000 |}.

(** A collation to run examples with: the order of the character codes. *)
Definition codeUnitCompare (a b : string) : num :=
  match String.compare a b with
  | Lt => ofZ (-1)
  | Eq => ofZ 0
  | Gt => ofZ 1
  end.

(** The process list of the ranking example of the specification. *)
Definition exampleRows : list row :=
  [mkRow 1 "a" "" 100; mkRow 2 "b" "" 300; mkRow 3 "c" "" 100].

(** ** The process as a state machine

    The variables of the script and the part of its environment that the
    tick reads or writes. *)

Record machineInfo : Type := {
  cpuModel : string;
  logicalCores : num
}.

Record world : Type := {
  view : viewState;
  cpuHistory : cpuState;
  machine : machineInfo;
  (** [process.stdout.columns], undefined when the output is not a terminal *)
  columns : option Z;
  (** what [new Date().toLocaleTimeString()] returns at this moment *)
  clockText : string;
  (** the terminal since it was last cleared *)
  screen : string;
  (** the lines written by [console.error] *)
  errorLog : list string;
  (** the delay of every [setTimeout(tick, delay)] issued so far *)
  scheduled : list num
}.

Definition withScreen (s : string) (w : world) : world :=
  {| view := view w; cpuHistory := cpuHistory w; machine := machine w;
     columns := columns w; clockText := clockText w; screen := s;
     errorLog := errorLog w; scheduled := scheduled w |}.

Definition withErrorLog (l : list string) (w : world) : world :=
  {| view := view w; cpuHistory := cpuHistory w; machine := machine w;
     columns := columns w; clockText := clockText w; screen := screen w;
     errorLog := l; scheduled := scheduled w |}.

Definition withScheduled (l : list num) (w : world) : world :=
  {| view := view w; cpuHistory := cpuHistory w; machine := machine w;
     columns := columns w; clockText := clockText w; screen := screen w;
     errorLog := errorLog w; scheduled := l |}.

Definition withClock (t : string) (w : world) : world :=
  {| view := view w; cpuHistory := cpuHistory w; machine := machine w;
     columns := columns w; clockText := t; screen := screen w;
     errorLog := errorLog w; scheduled := scheduled w |}.

(** A thrown value: its [message] property when it has a truthy one, and
    the text that [console.error] prints for the value itself. *)
Record thrown : Type := {
  message : option string;
  shown : string
}.

(** How a statement completes. *)
Inductive completion (A : Type) : Type :=
| Normal (a : A)
| Throw (e : thrown).
Arguments Normal {A} a.
Arguments Throw {A} e.

(** A computation of the script: from a world to a completion and the
    world it leaves. *)
Definition M (A : Type) : Type := world -> completion A * world.

Definition ret {A : Type} (a : A) : M A := fun w => (Normal a, w).

Definition bind {A B : Type} (c : M A) (k : A -> M B) : M B :=
  fun w =>
    match c w with
    | (Normal a, w') => k a w'
    | (Throw e, w') => (Throw e, w')
    end.

Notation "x <- c ;; k" := (bind c (fun x => k))
  (at level 100, c at next level, right associativity).
Notation "c ;; k" := (bind c (fun _ => k))
  (at level 100, right associativity).

Definition getWorld : M world := fun w => (Normal w, w).

(** [try { body } catch (e) { handler }] *)
Definition tryCatch {A : Type} (body : M A) (handler : thrown -> M A) : M A :=
  fun w =>
    match body w with
    | (Normal a, w') => (Normal a, w')
    | (Throw e, w') => handler e w'
    end.

(** [try { body } finally { final }]: [final] runs after [body] however
    it completed, and only replaces the completion when it throws. *)
Definition tryFinally {A : Type} (body : M A) (final : M unit) : M A :=
  fun w =>
    match body w with
    | (r, w') =>
        match final w' with
        | (Normal _, w'') => (r, w'')
        | (Throw e, w'') => (Throw e, w'')
        end
    end.

(** [for (const x of l) body(x)] *)
Fixpoint forEach {A : Type} (l : list A) (body : A -> M unit) : M unit :=
  match l with
  | [] => ret tt
  | x :: l' => body x ;; forEach l' body
  end.

Definition console_clear : M unit := fun w => (Normal tt, withScreen "" w).

Definition stdout_write (s : string) : M unit :=
  fun w => (Normal tt, withScreen (screen w +:+ s) w).

(** [e && e.message ? e.message : e], as printed. *)
Definition describe (e : thrown) : string :=
  match message e with
  | Some m => if nonEmpty m then m else shown e
  | None => shown e
  end.

(** [console.error('Error:', x)] *)
Definition console_error (x : string) : M unit :=
  fun w => (Normal tt, withErrorLog (errorLog w ++ ["Error: " +:+ x]) w).

(** [setTimeout(tick, delay)] *)
Definition setTimeout_tick (delay : num) : M unit :=
  fun w => (Normal tt, withScheduled (scheduled w ++ [delay]) w).

(** [timestamp()] *)
Definition timestamp : M string := fun w => (Normal (clockText w), w).

(** ** Rendering *)

Definition ESC : string := String (ascii_of_nat 27) "".
Definition NL : string := String (ascii_of_nat 10) "".

Definition ansi_bold : string := ESC +:+ "[1m".
Definition ansi_reset : string := ESC +:+ "[0m".
Definition ansi_red : string := ESC +:+ "[31m".
Definition ansi_green : string := ESC +:+ "[32m".
Definition ansi_yellow : string := ESC +:+ "[33m".
Definition ansi_cyan : string := ESC +:+ "[36m".
Definition ansi_dim : string := ESC +:+ "[2m".
Definition ansi_underline : string := ESC +:+ "[4m".

(** The values that [pad] receives. *)
Inductive jsval : Type :=
| VUndefined
| VNull
| VStr (s : string)
| VNum (n : num).

Record batteryInfo : Type := {
  charge : option num;
  status : string
}.

(** [a <= b] *)
Definition leb (a b : num) : bool :=
  match a, b with
  | NaN, _ | _, NaN => false
  | _, _ => negb (ltb b a)
  end.

(** The count that [String.prototype.repeat] takes from a number: its
    integer part.  (A negative or infinite count makes [repeat] throw; the
    callers below never pass one.) *)
Definition repeatCount (n : num) : nat :=
  match n with
  | Fin q => Z.to_nat (truncQ q)
  | _ => O
  end.

Fixpoint repeatStr (s : string) (n : nat) : string :=
  match n with
  | O => ""
  | S n' => s +:+ repeatStr s n'
  end.

(** Conversions and functions of the JavaScript library whose result
    depends on the binary representation of the number: [String(n)],
    [n.toFixed(digits)], [Math.log] and [Math.pow]. *)
Class JsLibrary : Type := {
  numToString : num -> string;
  toFixed : num -> nat -> string;
  Math_log : num -> num;
  Math_pow : num -> num -> num
}.

Section Rendering.

Context {lib : JsLibrary}.

Variables CPU_TDP_W MEM_W_PER_GB : num.

(** [String(v)] *)
Definition toStr (v : jsval) : string :=
  match v with
  | VUndefined => "undefined"
  | VNull => "null"
  | VStr s => s
  | VNum n => numToString n
  end.

Definition pad (text : jsval) (width : Z) : string :=
  let s := toStr (match text with VUndefined | VNull => VStr "" | _ => text end) in
  let len := Z.of_nat (String.length s) in
  if width <? len then sliceTo s width
  else if len <? width then s +:+ repeatChar " " (Z.to_nat (width - len))
  else s.

Definition units : list string := ["B"; "KB"; "MB"; "GB"; "TB"].

(** [units[i]] inside a template string. *)
Definition unitAt (i : num) : string :=
  match i with
  | Fin q =>
      if bool_decide (q = Q2Qc (inject_Z (Qfloor q))) && (0 <=? Qfloor q)
      then default "undefined" (units !! Z.to_nat (Qfloor q))
      else "undefined"
  | _ => "undefined"
  end.

Definition humanBytes (bytes : num) : string :=
  if negb (Number_isFinite bytes) || leb bytes (ofZ 0) then "0 B"
  else
    let i := Math_floor (div (Math_log bytes) (Math_log (ofZ 1024))) in
    let v := div bytes (Math_pow (ofZ 1024) i) in
    toFixed v 1 +:+ " " +:+ unitAt i.

Definition progressBar (percentage : num) (width : Z) : string :=
  let pct := Math_max (ofZ 0) (Math_min (ofZ 100) (orElse percentage (ofZ 0))) in
  let filled := Math_round (mul (div pct (ofZ 100)) (ofZ width)) in
  let empty := sub (ofZ width) filled in
  repeatStr "█" (repeatCount filled) +:+ repeatStr " " (repeatCount empty).

(** The widths of the columns of the process table. *)
Record columnWidths : Type := {
  col_pid : Z; col_cpu : Z; col_pwr : Z; col_mem : Z; col_name : Z; col_cmd : Z
}.

Definition colsFor (width : Z) : columnWidths :=
  {| col_pid := 6; col_cpu := 7; col_pwr := 9; col_mem := 10; col_name := 18;
     col_cmd := Z.max 10 (width - (6 + 7 + 9 + 10 + 18 + 5)) |}.

Definition tableHeader (cols : columnWidths) : string :=
  pad (VStr "PID") (col_pid cols) +:+ " " +:+
  pad (VStr "CPU%") (col_cpu cols) +:+ " " +:+
  pad (VStr "PWR(W)") (col_pwr cols) +:+ " " +:+
  pad (VStr "MEM") (col_mem cols) +:+ " " +:+
  pad (VStr "NAME") (col_name cols) +:+ " " +:+
  pad (VStr "COMMAND") (col_cmd cols).

(** [line] in the loop over the processes. *)
Definition tableLine (cols : columnWidths) (p : row) : string :=
  let cpuStr := toFixed (cpuPct p) 1 in
  let memStr := humanBytes (memBytes p) in
  let pwrStrProc := toFixed (estW p) 2 in
  pad (VNum (pid p)) (col_pid cols) +:+ " " +:+
  pad (VStr cpuStr) (col_cpu cols) +:+ " " +:+
  pad (VStr pwrStrProc) (col_pwr cols) +:+ " " +:+
  pad (VStr memStr) (col_mem cols) +:+ " " +:+
  pad (VStr (name p)) (col_name cols) +:+ " " +:+
  pad (VStr (cmd p)) (col_cmd cols).

(** The highlight of a row: its colour and the matching reset. *)
Definition rowColor (p : row) : string * string :=
  if gtb (cpuPct p) (ofZ 50) || gtb (estW p) (mul CPU_TDP_W (ofQ (5 # 10)))
  then (ansi_red, ansi_reset)
  else if gtb (cpuPct p) (ofZ 20) || gtb (estW p) (mul CPU_TDP_W (ofQ (2 # 10)))
  then (ansi_yellow, ansi_reset)
  else ("", "").

(** [Math.max(0, x || 0)] *)
Definition wattsShown (x : num) : num := Math_max (ofZ 0) (orElse x (ofZ 0)).

Definition render (system : systemSnapshot) (processes : list row)
    (battery : option batteryInfo) (powerScheme : string) : M unit :=
  console_clear ;;
  w <- getWorld ;;
  let width := match columns w with
               | Some c => if c =? 0 then 120 else c
               | None => 120
               end in
  now <- timestamp ;;
  stdout_write
    (ansi_bold +:+ ansi_cyan +:+ "win-top+ — Windows performance monitor" +:+ ansi_reset
     +:+ "   " +:+ ansi_dim +:+ "[" +:+ now +:+ "]" +:+ ansi_reset +:+ NL) ;;
  let model := cpuModel (machine w) in
  let trimmedModel :=
    if width - 20 <? Z.of_nat (String.length model)
    then sliceTo model (width - 23) +:+ "..."
    else model in
  stdout_write
    (ansi_dim +:+ "CPU:" +:+ ansi_reset +:+ " " +:+ trimmedModel +:+ "   "
     +:+ ansi_dim +:+ "Logical cores:" +:+ ansi_reset +:+ " "
     +:+ numToString (logicalCores (machine w)) +:+ "   "
     +:+ ansi_dim +:+ "TDP model:" +:+ ansi_reset +:+ " "
     +:+ numToString CPU_TDP_W +:+ "W CPU, " +:+ numToString MEM_W_PER_GB
     +:+ "W/GB RAM" +:+ NL) ;;
  let cpuPct := Math_max (ofZ 0) (Math_min (ofZ 100) (orElse (cpu system) (ofZ 0))) in
  let memPct :=
    if truthy (totalMem system)
    then mul (div (usedMem system) (totalMem system)) (ofZ 100)
    else ofZ 0 in
  let barWidth := Z.min 40 (Z.max 10 (Qfloor (inject_Z width * (4 # 10)))) in
  stdout_write NL ;;
  stdout_write (ansi_bold +:+ "SYSTEM" +:+ ansi_reset +:+ NL) ;;
  let cpuBar := progressBar cpuPct barWidth in
  let cpuColor :=
    if gtb cpuPct (ofZ 70) then ansi_red
    else if gtb cpuPct (ofZ 40) then ansi_yellow
    else ansi_green in
  stdout_write
    (" CPU  " +:+ cpuColor +:+ pad (VStr (toFixed cpuPct 1 +:+ "%")) 7 +:+ ansi_reset
     +:+ " [" +:+ cpuBar +:+ "]" +:+ "   " +:+ ansi_dim +:+ "Processes:" +:+ ansi_reset
     +:+ " " +:+ numToString (procCount system) +:+ "   "
     +:+ ansi_dim +:+ "Uptime:" +:+ ansi_reset +:+ " " +:+ uptime system +:+ NL) ;;
  let memBar := progressBar memPct barWidth in
  let memColor :=
    if gtb memPct (ofZ 80) then ansi_red
    else if gtb memPct (ofZ 60) then ansi_yellow
    else ansi_green in
  stdout_write
    (" MEM  " +:+ memColor +:+ pad (VStr (toFixed memPct 1 +:+ "%")) 7 +:+ ansi_reset
     +:+ " [" +:+ memBar +:+ "]" +:+ "   " +:+ ansi_dim +:+ "Used:" +:+ ansi_reset
     +:+ " " +:+ humanBytes (usedMem system) +:+ "  "
     +:+ ansi_dim +:+ "Total:" +:+ ansi_reset +:+ " " +:+ humanBytes (totalMem system)
     +:+ NL) ;;
  let totalW := wattsShown (estPowerW system) in
  let cpuW := wattsShown (cpuW system) in
  let memW := wattsShown (memW system) in
  let pwrStr := "~" +:+ toFixed totalW 1 +:+ " W" in
  let cpuWStr := "CPU: " +:+ toFixed cpuW 1 +:+ "W" in
  let memWStr := "RAM: " +:+ toFixed memW 1 +:+ "W" in
  let battStr :=
    match battery with
    | Some b =>
        match charge b with
        | Some c => numToString c +:+ "%"
        | None => "?%"
        end +:+ " (" +:+ status b +:+ ")"
    | None => "N/A"
    end in
  let schemeStr := if nonEmpty powerScheme then powerScheme else "Unknown" in
  stdout_write
    (" PWR  " +:+ ansi_yellow +:+ pad (VStr pwrStr) 9 +:+ ansi_reset
     +:+ "   " +:+ ansi_dim +:+ cpuWStr +:+ ", " +:+ memWStr +:+ ansi_reset
     +:+ "   " +:+ ansi_dim +:+ "Scheme:" +:+ ansi_reset +:+ " " +:+ schemeStr +:+ "   "
     +:+ ansi_dim +:+ "Battery:" +:+ ansi_reset +:+ " " +:+ battStr +:+ NL) ;;
  stdout_write NL ;;
  stdout_write
    (ansi_bold +:+ "PROCESSES" +:+ ansi_reset +:+ "  "
     +:+ ansi_dim +:+ "(sorted by " +:+ toUpperCase (sortBy (view w)) +:+ " "
     +:+ (if sortDesc (view w) then "desc" else "asc")
     +:+ ", top " +:+ numToString (topN (view w)) +:+ ", filter: "
     +:+ (if nonEmpty (filterStr (view w)) then filterStr (view w) else "none")
     +:+ ")" +:+ ansi_reset +:+ NL +:+ NL +:+ NL) ;;
  let cols := colsFor width in
  let header := tableHeader cols in
  stdout_write (ansi_underline +:+ header +:+ ansi_reset +:+ NL) ;;
  forEach processes (fun p =>
    let '(color, endColor) := rowColor p in
    let line := tableLine cols p in
    stdout_write (color +:+ line +:+ endColor +:+ NL)) ;;
  stdout_write NL ;;
  stdout_write
    (ansi_dim
     +:+ "Keys: c=CPU  m=MEM  p=PID  n=NAME  r=reverse  /=filter  +=faster  -=slower  k=kill  q=quit"
     +:+ ansi_reset +:+ NL).

End Rendering.

(** ** The main loop *)

Section Scheduler.

(** Everything that one tick awaits or calls, as computations that may
    throw: the four samplers, the ranking and the renderer. *)
Variable sampleSystemC : M systemSnapshot.
Variable sampleProcessesC : M (list row).
Variable sampleBatteryC : M (option batteryInfo).
Variable samplePowerSchemeC : M string.
Variable sortAndFilterC : list row -> M (list row).
Variable renderC :
  systemSnapshot -> list row -> option batteryInfo -> string -> M unit.

(** [await Promise.all([a, b])]: both computations run; the result is
    the pair of their values, or the first rejection. *)
Definition Promise_both {A B : Type} (a : M A) (b : M B) : M (A * B) :=
  fun w =>
    match a w with
    | (ra, w1) =>
        match b w1 with
        | (rb, w2) =>
            (match ra, rb with
             | Normal x, Normal y => Normal (x, y)
             | Throw e, _ => Throw e
             | _, Throw e => Throw e
             end, w2)
        end
    end.

(** The [try] block of [tick]. *)
Definition tickBody : M unit :=
  r <- Promise_both (Promise_both sampleSystemC sampleProcessesC)
                    (Promise_both sampleBatteryC samplePowerSchemeC) ;;
  let '((system, procsRaw), (battery, scheme)) := r in
  procs <- sortAndFilterC procsRaw ;;
  renderC system procs battery scheme.

Definition tick : M unit :=
  tryFinally
    (tryCatch tickBody (fun e => console_error (describe e)))
    (w <- getWorld ;; setTimeout_tick (intervalMs (view w))).

(** [n] ticks, each started by the timer that the one before set. *)
Fixpoint ticks (n : nat) : M unit :=
  match n with
  | O => ret tt
  | S n' => tick ;; ticks n'
  end.

End Scheduler.

(** The text that [pad] lays out: the empty string for [undefined] and
    [null], and [String(text)] otherwise. *)
Definition padText {lib : JsLibrary} (text : jsval) : string :=
  toStr (match text with VUndefined | VNull => VStr "" | _ => text end).

Definition withCpuHistory (st : cpuState) (w : world) : world :=
  {| view := view w; cpuHistory := st; machine := machine w;
     columns := columns w; clockText := clockText w; screen := screen w;
     errorLog := errorLog w; scheduled := scheduled w |}.

(** ** The tick of the script *)

(** What the environment answers during one tick. *)
Record tickInputs : Type := {
  in_now : num;
  in_system : systemQueries;
  in_processes : option (json rawProcess);
  in_battery : option batteryInfo;
  in_scheme : string
}.

Section MainLoop.

Context {lib : JsLibrary}.
Variables CPU_TDP_W MEM_W_PER_GB : num.
Variable localeCompare : string -> string -> num.

(** [sampleProcesses()] as a computation on the variables of the script. *)
Definition sampleProcessesM (now : num) (data : option (json rawProcess)) : M (list row) :=
  fun w =>
    let '(rows, st') :=
      sampleProcesses CPU_TDP_W MEM_W_PER_GB (logicalCores (machine w)) now data
                      (cpuHistory w) in
    (Normal rows, withCpuHistory st' w).

(** [sortAndFilterProcesses(procsRaw)], reading the view state. *)
Definition sortAndFilterM (rows : list row) : M (list row) :=
  fun w => (Normal (sortAndFilterProcesses localeCompare (view w) rows), w).

(** [tick] with the functions of the script. *)
Definition mainTick (i : tickInputs) : M unit :=
  tick (ret (sampleSystem CPU_TDP_W MEM_W_PER_GB (in_system i)))
       (sampleProcessesM (in_now i) (in_processes i))
       (ret (in_battery i))
       (ret (in_scheme i))
       sortAndFilterM
       (render CPU_TDP_W MEM_W_PER_GB).

End MainLoop.

(** Two worlds give the renderer the same inputs: view state, machine
    description, terminal width and clock reading. *)
Definition sameRenderInputs (w1 w2 : world) : Prop :=
  view w1 = view w2 /\ machine w1 = machine w2 /\ columns w1 = columns w2
  /\ clockText w1 = clockText w2.

(** The concatenation of a list of strings. *)
Definition concatStr (l : list string) : string := foldr String.append "" l.

(** The title line up to the clock reading. *)
Definition titlePrefix : string :=
  ansi_bold +:+ ansi_cyan +:+ "win-top+ — Windows performance monitor" +:+ ansi_reset
  +:+ "   " +:+ ansi_dim +:+ "[".

(** A library instance to state closed examples with; no property depends
    on what it returns. *)
Definition plainLibrary : JsLibrary :=
  {| numToString := fun _ => "0";
     toFixed := fun _ _ => "0.0";
     Math_log := fun x => x;
     Math_pow := fun x _ => x |}.

(** A world at the given clock reading: 120 columns, the initial view. *)
Definition worldAt (clock : string) : world :=
  {| view := initialView None None;
     cpuHistory := {| prevCpuMap := ∅; prevSampleTime := ofZ 0 |};
     machine := {| cpuModel := "Unknown CPU"; logicalCores := ofZ 4 |};
     columns := Some 120;
     clockText := clock;
     screen := "";
     errorLog := [];
     scheduled := [] |}.

(** The world that the [try ... catch] of [tick] leaves, from the
    completion of the [try] block and the world at its end. *)
Definition afterCatch (r : completion unit) (wb : world) : world :=
  match r with
  | Normal _ => wb
  | Throw e => withErrorLog (errorLog wb ++ ["Error: " +:+ describe e]) wb
  end.

(** The process query gave no data: the command failed, printed nothing
    or [null], or printed what [JSON.parse] rejects. *)
Definition noData (JSON_parse : string -> option (json rawProcess)) (r : execResult) : Prop :=
  match r with
  | ExecFail => True
  | ExecOk stdout =>
      trim stdout = "" \/ trim stdout = "null" \/ JSON_parse (trim stdout) = None
  end.

(** ** Vocabulary of the further properties *)

(** The memory counters that [sampleSystem] accepts: the query returned an
    object (or a non-empty array, whose first object counts) with both
    counters present, non-zero and not NaN. *)
Definition usableCounters (q : systemQueries) (totalKB freeKB : num) : Prop :=
  exists data m,
    memJson q = Some data /\ firstOrSelf data = Some m
    /\ TotalVisibleMemorySize m = Some totalKB /\ FreePhysicalMemory m = Some freeKB
    /\ truthy totalKB = true /\ truthy freeKB = true.

Definition noUsableCounters (q : systemQueries) : Prop :=
  forall totalKB freeKB, ~ usableCounters q totalKB freeKB.

(** The sort keys for which [cmpMap] has a comparator. *)
Definition knownSortKey (k : string) : Prop :=
  In k ["cpu"; "mem"; "pid"; "name"; "power"].



(** The two counts of [progressBar]: [filled] and [empty]. *)
Definition barFilled (percentage : num) (width : Z) : num :=
  let pct := Math_max (ofZ 0) (Math_min (ofZ 100) (orElse percentage (ofZ 0))) in
  Math_round (mul (div pct (ofZ 100)) (ofZ width)).

Definition barEmpty (percentage : num) (width : Z) : num :=
  sub (ofZ width) (barFilled percentage width).

(** ** Command-line arguments *)

(** [argv.indexOf(x)]: the first position of [x]; [None] is [-1]. *)
Fixpoint indexOf (argv : list string) (x : string) : option nat :=
  match argv with
  | [] => None
  | y :: argv' => if bool_decide (y = x) then Some O else option_map S (indexOf argv' x)
  end.

(** [getArg(names, fallback)] over the arguments [argv]; the element read
    at [idx + 1] is inside the array. *)
Fixpoint getArg (argv names : list string) (fallback : string) : string :=
  match names with
  | [] => fallback
  | n :: names' =>
      match indexOf argv n with
      | Some idx =>
          if bool_decide (idx + 1 < length argv)%nat
          then nth (idx + 1) argv ""
          else getArg argv names' fallback
      | None => getArg argv names' fallback
      end
  end.

Definition isDigit (c : ascii) : bool :=
  let n := Ascii.N_of_ascii c in ((48 <=? n) && (n <=? 57))%N.

Definition digitValue (c : ascii) : Z := Z.of_N (Ascii.N_of_ascii c) - 48.

(** The value of the longest prefix of decimal digits of [s], after the
    digits of value [acc]. *)
Fixpoint readDigits (s : string) (acc : Z) : Z :=
  match s with
  | String c s' => if isDigit c then readDigits s' (10 * acc + digitValue c) else acc
  | EmptyString => acc
  end.

Definition startsWithDigit (s : string) : bool :=
  match s with
  | String c _ => isDigit c
  | EmptyString => false
  end.

(** [parseInt(s, 10)]: leading white space is skipped, one sign is read,
    then the longest run of digits; [None] is NaN (no digit there). *)
Definition parseInt10 (s : string) : option Z :=
  let s1 := trimStart s in
  let '(sign, s2) :=
    match s1 with
    | String "-" r => (-1, r)
    | String "+" r => (1, r)
    | _ => (1, s1)
    end in
  if startsWithDigit s2 then Some (sign * readDigits s2 0) else None.

(** The view state that the script starts with: lines 52-53 and 321-323. *)
Definition startupView (argv : list string) : viewState :=
  initialView (parseInt10 (getArg argv ["--interval"; "-i"] "1000"))
              (parseInt10 (getArg argv ["--top"; "-t"] "20")).

Section Knobs.

(** [parseFloat] *)
Variable parseFloat : string -> num.

(** [process.env.X || text] *)
Definition envOr (env : option string) (text : string) : string :=
  match env with
  | Some e => if nonEmpty e then e else text
  | None => text
  end.

(** A power model knob:
    [parseFloat(getArg([name], process.env.X || text)) || value]. *)
Definition powerKnob (argv : list string) (name : string) (env : option string)
    (text : string) (value : Q) : num :=
  orElse (parseFloat (getArg argv [name] (envOr env text))) (ofQ value).

Definition startup_CPU_TDP_W (argv : list string) (env : option string) : num :=
  powerKnob argv "--cpu-tdp" env "15" 15.

Definition startup_MEM_W_PER_GB (argv : list string) (env : option string) : num :=
  powerKnob argv "--mem-watt-gb" env "1.5" (15 # 10).

End Knobs.

(** The value that follows the first occurrence of [n] in [argv]. *)
Definition valueAfter (argv : list string) (n : string) : option string :=
  match indexOf argv n with
  | Some idx => argv !! (idx + 1)%nat
  | None => None
  end.

(** ** Detecting the machine *)

(** [s.replace(/\s+/g, ' ')]: every maximal run of white space becomes one
    space; [inRun] tells that the character before was white space. *)
Fixpoint collapseFrom (inRun : bool) (s : string) : string :=
  match s with
  | EmptyString => EmptyString
  | String c s' =>
      if Ascii.is_space c
      then if inRun then collapseFrom true s' else String " " (collapseFrom true s')
      else String c (collapseFrom false s')
  end.

Definition collapseSpaces (s : string) : string := collapseFrom false s.

(** [detectLogicalCores], from the outcome of its command. *)
Definition detectLogicalCores (r : execResult) (m : machineInfo) : machineInfo :=
  match r with
  | ExecFail => m
  | ExecOk stdout =>
      match parseInt10 (trim stdout) with
      | Some val =>
          if (0 <? val)%Z
          then {| cpuModel := cpuModel m; logicalCores := ofZ val |}
          else m
      | None => m
      end
  end.

(** [detectCpuModel], from the outcome of its command. *)
Definition detectCpuModel (r : execResult) (m : machineInfo) : machineInfo :=
  match r with
  | ExecFail => {| cpuModel := "Unknown CPU"; logicalCores := logicalCores m |}
  | ExecOk stdout =>
      let s := trim stdout in
      if nonEmpty s
      then {| cpuModel := collapseSpaces s; logicalCores := logicalCores m |}
      else m
  end.

(** The machine description before detection: lines 117-118. *)
Definition initialMachine (osCpus : nat) : machineInfo :=
  {| cpuModel := "Unknown CPU"; logicalCores := ofZ (Z.of_nat osCpus) |}.

(** *** Vocabulary *)

Definition headIsSpace (s : string) : bool :=
  match s with
  | String c _ => Ascii.is_space c
  | EmptyString => false
  end.

Fixpoint lastIsSpace (s : string) : bool :=
  match s with
  | EmptyString => false
  | String c s' =>
      match s' with
      | EmptyString => Ascii.is_space c
      | String _ _ => lastIsSpace s'
      end
  end.

Fixpoint allSpace (s : string) : bool :=
  match s with
  | EmptyString => true
  | String c s' => Ascii.is_space c && allSpace s'
  end.

(** Every white space character of [s] is a space that follows a
    character which is not white space, and [s] does not end in one;
    [afterSpace] tells that the character before [s] was white space. *)
Fixpoint singleSpacedFrom (afterSpace : bool) (s : string) : bool :=
  match s with
  | EmptyString => negb afterSpace
  | String c s' =>
      if Ascii.is_space c
      then bool_decide (c = " "%char) && negb afterSpace && singleSpacedFrom true s'
      else singleSpacedFrom false s'
  end.

(** A text that fits on one line: not empty, no white space at either
    end, and words separated by single spaces. *)
Definition singleSpaced (s : string) : bool := singleSpacedFrom true s.

Definition CR : string := String (ascii_of_nat 13) "".

(** ** Battery and power scheme *)

(** One object of the [Win32_Battery] query. *)
Record batteryRaw : Type := {
  EstimatedChargeRemaining : jsval;
  BatteryStatus : jsval
}.

(** [statusCode === z] *)
Definition isCode (statusCode : jsval) (z : Z) : bool :=
  match statusCode with
  | VNum n => bool_decide (n = ofZ z)
  | _ => false
  end.

(** The [switch] of [sampleBattery]. *)
Definition batteryStatusLabel (statusCode : jsval) : string :=
  if isCode statusCode 1 then "Discharging"
  else if isCode statusCode 2 then "AC/Online"
  else if isCode statusCode 3 then "Fully charged"
  else if isCode statusCode 4 then "Low"
  else if isCode statusCode 5 then "Critical"
  else if isCode statusCode 6 then "Charging"
  else if isCode statusCode 7 then "Charging (High)"
  else if isCode statusCode 8 then "Charging (Low)"
  else if isCode statusCode 9 then "Charging (Critical)"
  else if isCode statusCode 10 then "Undefined"
  else if isCode statusCode 11 then "Partially charged"
  else "Unknown".

(** [Number.isFinite(charge) ? charge : null] *)
Definition finiteOrNull (v : jsval) : option num :=
  match v with
  | VNum n => if Number_isFinite n then Some n else None
  | _ => None
  end.

(** [sampleBattery], from what [powershellJson] returned. *)
Definition sampleBattery (data : option (json batteryRaw)) : option batteryInfo :=
  match data with
  | None => None
  | Some d =>
      match firstOrSelf d with
      | None => None
      | Some b =>
          Some {| charge := finiteOrNull (EstimatedChargeRemaining b);
                  status := batteryStatusLabel (BatteryStatus b) |}
      end
  end.

(** The labels that [sampleBattery] can give. *)
Definition batteryLabels : list string :=
  ["Discharging"; "AC/Online"; "Fully charged"; "Low"; "Critical"; "Charging";
   "Charging (High)"; "Charging (Low)"; "Charging (Critical)"; "Undefined";
   "Partially charged"; "Unknown"].

(** The longest prefix of [s] without a closing parenthesis, and the rest. *)
Fixpoint spanNotClose (s : string) : string * string :=
  match s with
  | EmptyString => (EmptyString, EmptyString)
  | String c s' =>
      if bool_decide (c = ")"%char) then (EmptyString, s)
      else let '(run, rest) := spanNotClose s' in (String c run, rest)
  end.

(** [s.match(/\(([^)]+)\)/)]: the group of the leftmost match.  At an
    opening parenthesis the class takes every character up to the next
    closing one; the match succeeds there when that run is not empty and
    the closing parenthesis exists, and no shorter run can succeed. *)
Fixpoint matchParenthesised (s : string) : option string :=
  match s with
  | EmptyString => None
  | String c s' =>
      if bool_decide (c = "("%char)
      then let '(run, rest) := spanNotClose s' in
           if nonEmpty run && startsWith rest ")" then Some run
           else matchParenthesised s'
      else matchParenthesised s'
  end.

(** [samplePowerScheme], from the outcome of [powercfg]. *)
Definition samplePowerScheme (r : execResult) : string :=
  match r with
  | ExecFail => "Unknown"
  | ExecOk stdout =>
      let s := trim stdout in
      let orUnknown := if nonEmpty s then s else "Unknown" in
      match matchParenthesised s with
      | Some m1 => if nonEmpty m1 then m1 else orUnknown
      | None => orUnknown
      end
  end.

(** [c] occurs in [s]. *)
Fixpoint hasChar (c : ascii) (s : string) : bool :=
  match s with
  | EmptyString => false
  | String d s' => bool_decide (d = c) || hasChar c s'
  end.

(** ** The prompts of the input handler *)

(** What the handler does to the terminal and the system, in order. *)
Inductive event : Type :=
| SetRawMode (on : bool)
| Question (prompt : string)
| Exec (command : string)
| ConsoleLog (line : string).

(** [if (process.stdin.isTTY) process.stdin.setRawMode(on)] *)
Definition rawMode (isTTY on : bool) : list event :=
  if isTTY then [SetRawMode on] else [].


Section KillDialogue.

Context {lib : JsLibrary}.

(** [conf && conf.toLowerCase().startsWith('y')] *)
Definition confirmed (conf : string) : bool :=
  nonEmpty conf && startsWith (toLowerCase conf) "y".

Definition taskkill (pid : Z) : string :=
  "taskkill /PID " +:+ numToString (ofZ pid) +:+ " /F".

(** The callback of the confirmation prompt; [outcome] is how
    [await execP(...)] completes. *)
Definition onConfirmation (isTTY : bool) (pid : Z) (conf : string)
    (outcome : completion unit) : list event :=
  (if confirmed conf
   then [Exec (taskkill pid);
         ConsoleLog
           match outcome with
           | Normal _ => "Killed PID " +:+ numToString (ofZ pid)
           | Throw e =>
               "Failed to kill PID " +:+ numToString (ofZ pid) +:+ ": " +:+ describe e
           end]
   else [])
  ++ rawMode isTTY true.

(** The [k] key: the two prompts with the answers given to them. *)
Definition killDialogue (isTTY : bool) (answer conf : string)
    (outcome : completion unit) : list event :=
  rawMode isTTY false ++ [Question "Kill PID> "] ++
  match parseInt10 (trim answer) with
  | Some pid =>
      Question ("Confirm kill PID " +:+ numToString (ofZ pid) +:+ "? (y/N) ")
      :: onConfirmation isTTY pid conf outcome
  | None => rawMode isTTY true
  end.

End KillDialogue.

(** The commands of a trace. *)
Definition commands (t : list event) : list string :=
  omap (fun e => match e with Exec c => Some c | _ => None end) t.

(** The raw-mode switches of a trace. *)
Definition rawModeSwitches (t : list event) : list bool :=
  omap (fun e => match e with SetRawMode b => Some b | _ => None end) t.

(** ** Several ticks of the script *)

Section MainTicks.

Context {lib : JsLibrary}.
Variables CPU_TDP_W MEM_W_PER_GB : num.
Variable localeCompare : string -> string -> num.

(** The ticks of the script, one for each answer of the environment, each
    started by the timer that the one before set. *)
Fixpoint mainTicks (inputs : list tickInputs) : M unit :=
  match inputs with
  | [] => ret tt
  | i :: inputs' => mainTick CPU_TDP_W MEM_W_PER_GB localeCompare i ;; mainTicks inputs'
  end.

End MainTicks.

(** The pids of a process sample. *)
Definition pidsOf (data : option (json rawProcess)) : list num :=
  map (fun p => NumberOr0 (ProcessId p)) (sampleProcessesRaw data).

(** ** The input handler with its prompts *)



Section InputHandler.

Context {lib : JsLibrary}.

(** [process.stdin.isTTY] *)
Variable isTTY : bool.







End InputHandler.




(** * Properties *)

(** ** Arithmetic of [num] *)

Local Open Scope Qc_scope.

Lemma Qccompare_Lt (x y : Qc) : (x ?= y) = Lt <-> x < y.
Proof. reflexivity. Qed.

Lemma Qccompare_Gt (x y : Qc) : (x ?= y) = Gt <-> y < x.
Proof.
  unfold Qccompare, Qclt. rewrite Qgt_alt. reflexivity.
Qed.

Lemma Qccompare_Eq (x y : Qc) : (x ?= y) = Eq <-> x = y.
Proof. symmetry. apply Qceq_alt. Qed.

Lemma Qccompare_not_Lt (x y : Qc) : (x ?= y) <> Lt <-> y <= x.
Proof.
  rewrite Qccompare_Lt. split; [apply Qcnot_lt_le | apply Qcle_not_lt].
Qed.

Lemma ofZ_0 : ofZ 0 = Fin 0.
Proof. reflexivity. Qed.

Lemma ltb_Fin (x y : Qc) : ltb (Fin x) (Fin y) = true <-> x < y.
Proof.
  simpl. rewrite <- Qccompare_Lt. destruct (x ?= y); split; congruence.
Qed.

Lemma ltb_Fin_false (x y : Qc) : ltb (Fin x) (Fin y) = false <-> y <= x.
Proof.
  rewrite <- Qccompare_not_Lt. simpl. destruct (x ?= y); split; congruence.
Qed.

Lemma Math_max_0_notNegative (a : num) : notNegative (Math_max (ofZ 0) a).
Proof.
  destruct a as [| | |q]; simpl; try exact I.
  - apply Qcle_refl.
  - destruct (Q2Qc (inject_Z 0) ?= q) eqn:E; simpl.
    + apply Qcle_refl.
    + apply Qclt_le_weak, Qccompare_Lt, E.
    + apply Qcle_refl.
Qed.

Lemma Math_max_aboveZero (a b : num) : aboveZero b -> aboveZero (Math_max a b).
Proof.
  intros Hb. destruct a as [| | |x], b as [| | |y]; simpl in *;
    try exact I; try contradiction; try assumption.
  destruct (x ?= y) eqn:E; simpl; [| exact Hb |].
  - apply Qccompare_Eq in E. subst. exact Hb.
  - apply Qccompare_Gt in E. eapply Qclt_trans; eassumption.
Qed.

Lemma Math_max_aboveZero_l (a b : num) : aboveZero a -> aboveZero (Math_max a b).
Proof.
  intros Ha. destruct a as [| | |x], b as [| | |y]; simpl in *;
    try exact I; try contradiction; try assumption.
  destruct (x ?= y) eqn:E; simpl; try exact Ha.
  apply Qccompare_Lt in E. eapply Qclt_trans; eassumption.
Qed.

Lemma div_notNegative (a b : num) :
  notNegative a -> aboveZero b -> notNegative (div a b).
Proof.
  destruct a as [| | |x], b as [| | |y]; simpl; intros Ha Hb;
    try exact I; try contradiction; try apply Qcle_refl.
  - apply Qccompare_Gt in Hb. rewrite Hb. exact I.
  - case_bool_decide as Hy.
    + subst y. exfalso. exact (Qclt_not_eq _ _ Hb eq_refl).
    + simpl. unfold Qcdiv. apply Qcmult_nonneg_nonneg; [exact Ha |].
      apply Qclt_le_weak, Qcinv_pos, Hb.
Qed.

Lemma mul_notNegative (a b : num) :
  notNegative a -> aboveZero b -> b <> NaN -> a <> PInf \/ b <> PInf ->
  notNegative (mul a b).
Proof.
  destruct a as [| | |x], b as [| | |y]; simpl; intros Ha Hb Hn Hi;
    try exact I; try contradiction; try (destruct Hi; congruence).
  - apply Qccompare_Gt in Hb. rewrite Hb. exact I.
  - destruct (x ?= Q2Qc 0) eqn:E; try exact I.
    apply Qccompare_Lt in E. exact (Qcle_not_lt _ _ Ha E).
  - apply Qcmult_nonneg_nonneg; [exact Ha | apply Qclt_le_weak, Hb].
Qed.

Lemma finite_or_0_notNegative (a : num) :
  notNegative a ->
  exists q, (if Number_isFinite a then a else ofZ 0) = Fin q /\ 0 <= q.
Proof.
  destruct a as [| | |x]; simpl; intros Ha; try contradiction.
  - exists 0. split; [reflexivity | apply Qcle_refl].
  - exists 0. split; [reflexivity | apply Qcle_refl].
  - exists x. split; [reflexivity | exact Ha].
Qed.

(** ** Process sampling *)

Section SamplingFacts.

Variables CPU_TDP_W MEM_W_PER_GB : num.
Variable logicalCores : num.

Lemma dtSecOf_aboveZero (now prevTime : num) : aboveZero (dtSecOf now prevTime).
Proof. apply Math_max_aboveZero. reflexivity. Qed.

Lemma cores_aboveZero : aboveZero (Math_max (ofZ 1) logicalCores).
Proof. apply Math_max_aboveZero_l. reflexivity. Qed.

Lemma rawCpuPct_notNegative (delta dtSec : num) :
  notNegative delta -> aboveZero dtSec -> notNegative (rawCpuPct logicalCores delta dtSec).
Proof.
  intros Hd Ht. unfold rawCpuPct. apply mul_notNegative.
  - apply div_notNegative; [| apply cores_aboveZero].
    apply div_notNegative; assumption.
  - reflexivity.
  - discriminate.
  - right. discriminate.
Qed.

Lemma sampleRow_cpuPct (prevMap : gmap num num) (dtSec : num) (p : rawProcess) :
  let r := sampleRow CPU_TDP_W MEM_W_PER_GB logicalCores prevMap dtSec p in
  let pct := rawCpuPct logicalCores (Math_max (ofZ 0) (sub (cpuSec r) (prevOr0 prevMap (pid r)))) dtSec in
  cpuPct r = if Number_isFinite pct then pct else ofZ 0.
Proof. reflexivity. Qed.

Lemma sampleRow_cpuPct_nonneg (prevMap : gmap num num) (dtSec : num) (p : rawProcess) :
  aboveZero dtSec ->
  exists q, cpuPct (sampleRow CPU_TDP_W MEM_W_PER_GB logicalCores prevMap dtSec p) = Fin q /\ 0 <= q.
Proof.
  intros Ht. rewrite sampleRow_cpuPct. apply finite_or_0_notNegative.
  apply rawCpuPct_notNegative; [apply Math_max_0_notNegative | exact Ht].
Qed.

(** When the first operand is below the second, the clamped difference
    is zero. *)
Lemma delta_clamps (a b : num) : ltb a b = true -> Math_max (ofZ 0) (sub a b) = ofZ 0.
Proof.
  destruct a as [| | |x], b as [| | |y]; simpl; try discriminate; try reflexivity.
  intros H. apply (ltb_Fin x y) in H.
  assert (Hneg : x + - y < 0).
  { apply Qclt_minus_iff in H. apply Qclt_minus_iff.
    replace (0 + - (x + - y)) with (y + - x) by ring. exact H. }
  destruct (Q2Qc (inject_Z 0) ?= x + - y) eqn:E; try reflexivity.
  apply Qccompare_Lt in E. exfalso. exact (Qclt_not_le _ _ Hneg (Qclt_le_weak _ _ E)).
Qed.

Lemma rawCpuPct_0 (dtSec : num) :
  aboveZero dtSec ->
  (if Number_isFinite (rawCpuPct logicalCores (ofZ 0) dtSec) then rawCpuPct logicalCores (ofZ 0) dtSec else ofZ 0)
  = ofZ 0.
Proof.
  intros Ht. unfold rawCpuPct.
  assert (H0 : div (ofZ 0) dtSec = ofZ 0 \/ div (ofZ 0) dtSec = NaN).
  { destruct dtSec as [| | |d]; simpl in *; auto; try contradiction.
    case_bool_decide as Hd; [right; reflexivity | left].
    unfold ofZ. f_equal. unfold Qcdiv. apply Qcmult_0_l. }
  destruct H0 as [-> | ->]; [| reflexivity].
  pose proof cores_aboveZero as Hc.
  destruct (Math_max (ofZ 1) logicalCores) as [| | |c]; simpl in *;
    try reflexivity; try contradiction.
  case_bool_decide as Hd; [reflexivity |].
  simpl. unfold ofZ. f_equal.
Qed.

End SamplingFacts.

(** ** The CPU history *)

Lemma foldl_set_lookup (rows : list row) (m : gmap num num) (k : num) :
  foldl (fun m r => <[pid r := cpuSec r]> m) m rows !! k =
  match last (List.filter (fun r => bool_decide (pid r = k)) rows) with
  | Some r => Some (cpuSec r)
  | None => m !! k
  end.
Proof.
  revert m. induction rows as [|r rows IH]; intros m; [reflexivity |].
  cbn [foldl List.filter]. rewrite IH. case_bool_decide as Hk.
  - rewrite last_cons. destruct (last _); [reflexivity |].
    subst k. apply lookup_insert_eq.
  - destruct (last _); [reflexivity |]. apply lookup_insert_ne, Hk.
Qed.

Lemma rebuildCpuMap_lookup (rows : list row) (k : num) :
  rebuildCpuMap rows !! k =
  cpuSec <$> last (List.filter (fun r => bool_decide (pid r = k)) rows).
Proof.
  unfold rebuildCpuMap. rewrite foldl_set_lookup.
  destruct (last _); [reflexivity | apply lookup_empty].
Qed.

Lemma last_filter_is_Some {A : Type} (f : A -> bool) (l : list A) :
  is_Some (last (List.filter f l)) <-> exists x, In x l /\ f x = true.
Proof.
  split.
  - intros [x Hx]. exists x. apply filter_In.
    apply last_Some in Hx as [l' Hl']. rewrite Hl'.
    apply in_or_app. right. left. reflexivity.
  - intros [x Hx]. apply filter_In in Hx.
    destruct (last (List.filter f l)) eqn:E; [eauto |].
    apply last_None in E. rewrite E in Hx. destruct Hx.
Qed.

Lemma rebuildCpuMap_is_Some (rows : list row) (k : num) :
  is_Some (rebuildCpuMap rows !! k) <-> In k (map pid rows).
Proof.
  rewrite rebuildCpuMap_lookup, fmap_is_Some, last_filter_is_Some, in_map_iff.
  split; intros [r Hr]; exists r.
  - destruct Hr as [Hin Hb]. apply bool_decide_eq_true in Hb. auto.
  - destruct Hr as [Hb Hin]. split; [exact Hin | apply bool_decide_eq_true, Hb].
Qed.

Lemma rebuildCpuMap_dom (rows : list row) :
  dom (rebuildCpuMap rows) = list_to_set (map pid rows).
Proof.
  apply set_eq. intros k.
  rewrite elem_of_dom, rebuildCpuMap_is_Some, elem_of_list_to_set.
  symmetry. apply list_elem_of_In.
Qed.

(** C3. After a tick of the process sampler the CPU history holds exactly
    the pids of the raw sample of that tick: a pid has an entry if and
    only if a sampled process has it, whatever the history held before;
    the entry is the cumulative CPU seconds computed in this tick for that
    pid (of the last process with that pid, should the sample repeat one). *)
Theorem cpuHistory_exactly_current_pids
    (CPU_TDP_W MEM_W_PER_GB logicalCores now : num)
    (data : option (json rawProcess)) (st : cpuState) :
  let raw := sampleProcessesRaw data in
  let rows := fst (sampleProcesses CPU_TDP_W MEM_W_PER_GB logicalCores now data st) in
  let st' := snd (sampleProcesses CPU_TDP_W MEM_W_PER_GB logicalCores now data st) in
  dom (prevCpuMap st') = list_to_set (map (fun p => NumberOr0 (ProcessId p)) raw)
  /\ (forall k, is_Some (prevCpuMap st' !! k) <->
                exists p, In p raw /\ NumberOr0 (ProcessId p) = k)
  /\ (forall k, prevCpuMap st' !! k =
                cpuSec <$> last (List.filter (fun r => bool_decide (pid r = k)) rows))
  /\ (forall k, ~ In k (map (fun p => NumberOr0 (ProcessId p)) raw) ->
                prevCpuMap st' !! k = None)
  /\ (forall r, In r rows ->
                exists p, In p raw /\ pid r = NumberOr0 (ProcessId p) /\
                  cpuSec r = div (add (NumberOr0 (KernelModeTime p))
                                      (NumberOr0 (UserModeTime p))) (ofZ 10000000)).
Proof.
  intros raw rows st'.
  assert (Hpids : map pid rows = map (fun p => NumberOr0 (ProcessId p)) raw).
  { unfold rows. simpl. rewrite map_map. reflexivity. }
  assert (Hsome : forall k, is_Some (prevCpuMap st' !! k) <->
                            In k (map (fun p => NumberOr0 (ProcessId p)) raw)).
  { intros k. rewrite <- Hpids. apply rebuildCpuMap_is_Some. }
  split; [| split; [| split; [| split]]].
  - rewrite <- Hpids. apply rebuildCpuMap_dom.
  - intros k. rewrite Hsome, in_map_iff.
    split; intros [p Hp]; exists p; tauto.
  - intros k. apply rebuildCpuMap_lookup.
  - intros k Hk. apply eq_None_not_Some. rewrite Hsome. exact Hk.
  - intros r Hr. unfold rows in Hr. simpl in Hr. apply in_map_iff in Hr as [p [<- Hp]].
    exists p. split; [exact Hp |]. split; reflexivity.
Qed.

(** ** Instantaneous CPU percentage *)

(** C7. Every row that a tick produces carries a finite
    [instantCpuPercent] that is at least zero, whatever the raw sample,
    the clock and the history are; when the cumulative CPU seconds of a
    process are below the value remembered for its pid, the difference
    clamps to zero and the percentage is exactly zero; and a percentage
    that does not come out finite is replaced by zero. *)
Theorem instantCpuPercent_never_negative
    (CPU_TDP_W MEM_W_PER_GB logicalCores now : num)
    (data : option (json rawProcess)) (st : cpuState) :
  let rows := fst (sampleProcesses CPU_TDP_W MEM_W_PER_GB logicalCores now data st) in
  (forall r, In r rows -> exists q, cpuPct r = Fin q /\ 0 <= q)
  /\ (forall r, In r rows ->
        ltb (cpuSec r) (prevOr0 (prevCpuMap st) (pid r)) = true ->
        cpuPct r = ofZ 0)
  /\ (forall r, In r rows ->
        let delta := Math_max (ofZ 0) (sub (cpuSec r) (prevOr0 (prevCpuMap st) (pid r))) in
        let pct := rawCpuPct logicalCores delta (dtSecOf now (prevSampleTime st)) in
        Number_isFinite pct = false -> cpuPct r = ofZ 0).
Proof.
  intros rows. subst rows. unfold sampleProcesses. cbn [fst].
  split; [| split]; intros r Hr; apply in_map_iff in Hr as [p [<- Hp]].
  - apply sampleRow_cpuPct_nonneg, dtSecOf_aboveZero.
  - intros Hlt. rewrite sampleRow_cpuPct. cbv zeta.
    rewrite (delta_clamps _ _ Hlt).
    apply rawCpuPct_0, dtSecOf_aboveZero.
  - cbv zeta. intros Hnf. rewrite sampleRow_cpuPct. cbv zeta.
    rewrite Hnf. reflexivity.
Qed.

Lemma orElse_0_default (v : num) : v <> NaN -> orElse v (ofZ 0) = v.
Proof.
  destruct v as [| | |q]; try reflexivity; [congruence |].
  intros _. unfold orElse, truthy. case_bool_decide as Hq; [| reflexivity].
  subst q. reflexivity.
Qed.

Lemma sub_NaN_r (a : num) : sub a NaN = NaN.
Proof. destruct a; reflexivity. Qed.

Lemma mul_NaN_l (a : num) : mul NaN a = NaN.
Proof. reflexivity. Qed.

Lemma div_NaN_l (a : num) : div NaN a = NaN.
Proof. reflexivity. Qed.

Lemma Math_max_NaN_r (a : num) : Math_max a NaN = NaN.
Proof. destruct a; reflexivity. Qed.

(** A history value that is NaN makes the percentage of the claim NaN. *)
Lemma rawCpuPct_NaN_history (logicalCores c dt : num) :
  rawCpuPct logicalCores (Math_max (ofZ 0) (sub c NaN)) dt = NaN.
Proof.
  unfold rawCpuPct. rewrite sub_NaN_r, Math_max_NaN_r. reflexivity.
Qed.

Lemma prevOr0_default (m : gmap num num) (k : num) :
  default (ofZ 0) (m !! k) <> NaN -> prevOr0 m k = default (ofZ 0) (m !! k).
Proof.
  unfold prevOr0. destruct (m !! k) as [v|]; simpl; [| reflexivity].
  apply orElse_0_default.
Qed.

Lemma Fin_div_finite (x y : Qc) : 0 < y -> exists z, div (Fin x) (Fin y) = Fin z.
Proof.
  intros Hy. simpl. case_bool_decide as E.
  - subst y. exfalso. exact (Qclt_not_eq _ _ Hy eq_refl).
  - eauto.
Qed.

Lemma Math_max_Fin (x y : Qc) :
  exists z, Math_max (Fin x) (Fin y) = Fin z /\ x <= z /\ y <= z.
Proof.
  simpl. destruct (x ?= y) eqn:E.
  - exists x. apply Qccompare_Eq in E. subst. auto using Qcle_refl.
  - exists y. apply Qccompare_Lt in E. auto using Qcle_refl, Qclt_le_weak.
  - exists x. apply Qccompare_Gt in E. auto using Qcle_refl, Qclt_le_weak.
Qed.

Lemma NumberOr0_finite (x : option num) :
  (forall a, x = Some a -> Number_isFinite a = true) ->
  exists q, NumberOr0 x = Fin q.
Proof.
  intros H. destruct x as [a|]; [| eexists; reflexivity].
  specialize (H a eq_refl). destruct a as [| | |q]; try discriminate.
  unfold NumberOr0, orElse. destruct (truthy (Fin q)); eexists; reflexivity.
Qed.

Lemma prevOr0_finite (m : gmap num num) (k : num) :
  (forall v, m !! k = Some v -> Number_isFinite v = true) ->
  exists q, prevOr0 m k = Fin q.
Proof.
  intros H. unfold prevOr0. destruct (m !! k) as [v|]; [| eexists; reflexivity].
  specialize (H v eq_refl). destruct v as [| | |q]; try discriminate.
  unfold orElse. destruct (truthy (Fin q)); eexists; reflexivity.
Qed.

(** With finite ticks, clock readings, core count and history value, the
    percentage of the loop body is finite. *)
Lemma rawCpuPct_finite (cores c prev now t0 : Qc) :
  Number_isFinite
    (rawCpuPct (Fin cores) (Math_max (ofZ 0) (sub (Fin c) (Fin prev)))
               (dtSecOf (Fin now) (Fin t0))) = true.
Proof.
  unfold rawCpuPct, dtSecOf, sub, ofZ, ofQ.
  cbn [neg add].
  destruct (Math_max_Fin (Q2Qc (inject_Z 0)) (c + - prev)) as [d [-> _]].
  destruct (Fin_div_finite (now + - t0) (Q2Qc (inject_Z 1000)) eq_refl) as [e ->].
  destruct (Math_max_Fin e (Q2Qc (1 # 1000))) as [dt [-> [_ Hdt]]].
  destruct (Math_max_Fin (Q2Qc (inject_Z 1)) cores) as [n [-> [Hn _]]].
  destruct (Fin_div_finite d dt) as [u ->].
  { eapply Qclt_le_trans; [| exact Hdt]. reflexivity. }
  destruct (Fin_div_finite u n) as [w ->].
  { eapply Qclt_le_trans; [| exact Hn]. reflexivity. }
  reflexivity.
Qed.

Ltac by_computation :=
  apply (bool_decide_eq_true_1 _); vm_compute; reflexivity.

Lemma specCpuPercent_finite_history (logicalCores now : num) (st : cpuState) (p : rawProcess) :
  Number_isFinite (specCpuPercent logicalCores now st p) = true ->
  prevOr0 (prevCpuMap st) (NumberOr0 (ProcessId p))
  = default (ofZ 0) (prevCpuMap st !! NumberOr0 (ProcessId p)).
Proof.
  intros Hfin. apply prevOr0_default. intros Hnan.
  unfold specCpuPercent, specDelta in Hfin. rewrite Hnan in Hfin.
  rewrite sub_NaN_r, Math_max_NaN_r in Hfin. discriminate.
Qed.

Lemma sampleProcesses_lookup (CPU_TDP_W MEM_W_PER_GB logicalCores now : num)
    (data : option (json rawProcess)) (st : cpuState) (i : nat) (p : rawProcess) :
  sampleProcessesRaw data !! i = Some p ->
  fst (sampleProcesses CPU_TDP_W MEM_W_PER_GB logicalCores now data st) !! i
  = Some (sampleRow CPU_TDP_W MEM_W_PER_GB logicalCores (prevCpuMap st)
                    (dtSecOf now (prevSampleTime st)) p).
Proof.
  intros Hi. unfold sampleProcesses. cbn [fst].
  rewrite list_lookup_fmap, Hi. reflexivity.
Qed.

Lemma sampleRow_cpuPct_explicit (CPU_TDP_W MEM_W_PER_GB logicalCores : num)
    (prevMap : gmap num num) (dtSec : num) (p : rawProcess) :
  cpuPct (sampleRow CPU_TDP_W MEM_W_PER_GB logicalCores prevMap dtSec p)
  = finiteOr0
      (rawCpuPct logicalCores
         (Math_max (ofZ 0)
            (sub (specCpuSeconds p) (prevOr0 prevMap (NumberOr0 (ProcessId p)))))
         dtSec).
Proof.
  unfold sampleRow, finiteOr0, rawCpuPct, specCpuSeconds. cbn [cpuPct]. reflexivity.
Qed.

Lemma sampleRow_estW_explicit (CPU_TDP_W MEM_W_PER_GB logicalCores : num)
    (prevMap : gmap num num) (dtSec : num) (p : rawProcess) :
  estW (sampleRow CPU_TDP_W MEM_W_PER_GB logicalCores prevMap dtSec p)
  = finiteOr0
      (processWatts CPU_TDP_W MEM_W_PER_GB
         (rawCpuPct logicalCores
            (Math_max (ofZ 0)
               (sub (specCpuSeconds p) (prevOr0 prevMap (NumberOr0 (ProcessId p)))))
            dtSec)
         (div (NumberOr0 (WorkingSetSize p)) GiB)).
Proof.
  unfold sampleRow, finiteOr0, processWatts, rawCpuPct, specCpuSeconds.
  cbn [estW]. reflexivity.
Qed.

Lemma sampleRow_when_finite (CPU_TDP_W MEM_W_PER_GB logicalCores now : num)
    (st : cpuState) (p : rawProcess) :
  let r := sampleRow CPU_TDP_W MEM_W_PER_GB logicalCores (prevCpuMap st)
                     (dtSecOf now (prevSampleTime st)) p in
  Number_isFinite (specCpuPercent logicalCores now st p) = true ->
  cpuPct r = specCpuPercent logicalCores now st p
  /\ estW r = finiteOr0 (processWatts CPU_TDP_W MEM_W_PER_GB
                           (specCpuPercent logicalCores now st p)
                           (div (NumberOr0 (WorkingSetSize p)) GiB)).
Proof.
  intros r Hfin.
  pose proof (specCpuPercent_finite_history _ _ _ _ Hfin) as Hprev.
  assert (Hraw : rawCpuPct logicalCores
                   (Math_max (ofZ 0)
                      (sub (specCpuSeconds p)
                           (prevOr0 (prevCpuMap st) (NumberOr0 (ProcessId p)))))
                   (dtSecOf now (prevSampleTime st))
                 = specCpuPercent logicalCores now st p).
  { rewrite Hprev. reflexivity. }
  subst r. split.
  - rewrite sampleRow_cpuPct_explicit, Hraw. unfold finiteOr0. rewrite Hfin. reflexivity.
  - rewrite sampleRow_estW_explicit, Hraw. reflexivity.
Qed.

(** C1. The row computed for the process at position [i] of the raw
    sample has [cpuSec = (kernelTicks + userTicks) / 1e7] and, the
    percentage being finite, [cpuPct = delta / dt / max(1, cores) * 100]
    with [delta = max(0, cpuSec - previous)] ([previous] is the history
    value of the pid, or 0) and [dt = max((now - last) / 1000, 0.001)];
    the percentage is finite as soon as the ticks, the clock readings, the
    core count and the history value are.  A pid at 1.0 CPU-seconds in
    the previous tick and 1.5 now, one second later on one logical core,
    gets 50. *)
Theorem instantCpuPercent_formula
    (CPU_TDP_W MEM_W_PER_GB logicalCores now : num)
    (data : option (json rawProcess)) (st : cpuState) :
  let raw := sampleProcessesRaw data in
  let rows := fst (sampleProcesses CPU_TDP_W MEM_W_PER_GB logicalCores now data st) in
  (forall (i : nat) (p : rawProcess), raw !! i = Some p ->
     exists r, rows !! i = Some r
       /\ pid r = NumberOr0 (ProcessId p)
       /\ cpuSec r = specCpuSeconds p
       /\ (Number_isFinite (specCpuPercent logicalCores now st p) = true ->
           cpuPct r = specCpuPercent logicalCores now st p))
  /\ (forall (p : rawProcess),
        Number_isFinite logicalCores = true ->
        Number_isFinite now = true ->
        Number_isFinite (prevSampleTime st) = true ->
        (forall a, KernelModeTime p = Some a -> Number_isFinite a = true) ->
        (forall a, UserModeTime p = Some a -> Number_isFinite a = true) ->
        (forall v, prevCpuMap st !! NumberOr0 (ProcessId p) = Some v ->
                   Number_isFinite v = true) ->
        Number_isFinite (specCpuPercent logicalCores now st p) = true)
  /\ (let seeded := seedCpuState (ofZ 0) (Some (JObject (mkRaw 42 10000000 0))) in
      map cpuPct
        (fst (sampleProcesses CPU_TDP_W MEM_W_PER_GB (ofZ 1) (ofZ 1000)
                (Some (JArray [mkRaw 42 15000000 0])) seeded))
      = [ofZ 50]).
Proof.
  intros raw rows. split; [| split].
  - intros i p Hi. exists (sampleRow CPU_TDP_W MEM_W_PER_GB logicalCores (prevCpuMap st)
                                    (dtSecOf now (prevSampleTime st)) p).
    split; [apply sampleProcesses_lookup, Hi |].
    split; [reflexivity |]. split; [reflexivity |].
    intros Hfin. apply sampleRow_when_finite, Hfin.
  - intros p Hc Hn Ht Hk Hu Hv.
    destruct logicalCores as [| | |c]; try discriminate.
    destruct now as [| | |n]; try discriminate.
    destruct st as [m t0]. simpl in Ht, Hv. destruct t0 as [| | |t]; try discriminate.
    unfold specCpuPercent, specDelta, specCpuSeconds, specDt. cbn [prevCpuMap prevSampleTime].
    destruct (NumberOr0_finite _ Hk) as [k ->].
    destruct (NumberOr0_finite _ Hu) as [u ->].
    assert (Hprev : exists q, default (ofZ 0) (m !! NumberOr0 (ProcessId p)) = Fin q).
    { destruct (m !! NumberOr0 (ProcessId p)) as [v|]; [| eexists; reflexivity].
      specialize (Hv v eq_refl). destruct v; try discriminate. eexists; reflexivity. }
    destruct Hprev as [q ->].
    destruct (Fin_div_finite (k + u) (Q2Qc (inject_Z 10000000)) eq_refl) as [s Hs].
    cbn [add]. change (ofZ 10000000) with (Fin (Q2Qc (inject_Z 10000000))).
    rewrite Hs. apply (rawCpuPct_finite c s q n t).
  - cbv zeta. by_computation.
Qed.

(** ** The power estimate *)

Lemma Math_max_0_id (a : num) : notNegative a -> Math_max (ofZ 0) a = a.
Proof.
  destruct a as [| | |q]; simpl; try reflexivity; [contradiction |].
  intros Hq. destruct (Q2Qc (inject_Z 0) ?= q) eqn:E; try reflexivity.
  - apply Qccompare_Eq in E. subst q. reflexivity.
  - apply Qccompare_Gt in E. exfalso. exact (Qcle_not_lt _ _ Hq E).
Qed.

Lemma Math_min_100_id (q : Qc) : q <= Q2Qc (inject_Z 100) -> Math_min (ofZ 100) (Fin q) = Fin q.
Proof.
  intros Hq. simpl. destruct (q ?= Q2Qc (inject_Z 100)) eqn:E; try reflexivity.
  - apply Qccompare_Eq in E. subst q. reflexivity.
  - apply Qccompare_Gt in E. exfalso. exact (Qcle_not_lt _ _ Hq E).
Qed.

Lemma orElse_idem (a : num) : orElse (orElse a (ofZ 0)) (ofZ 0) = orElse a (ofZ 0).
Proof.
  unfold orElse. destruct (truthy a) eqn:E; [rewrite E |]; reflexivity.
Qed.

Lemma sampleSystem_cpu_orElse (CPU_TDP_W MEM_W_PER_GB : num) (q : systemQueries) :
  orElse (cpu (sampleSystem CPU_TDP_W MEM_W_PER_GB q)) (ofZ 0)
  = cpu (sampleSystem CPU_TDP_W MEM_W_PER_GB q).
Proof.
  unfold sampleSystem. destruct (sampleMemory q) as [t u]. cbn [cpu].
  destruct (cpuCounter q) as [v|]; [apply orElse_idem | reflexivity].
Qed.

Lemma sampleSystem_watts (CPU_TDP_W MEM_W_PER_GB : num) (q : systemQueries) :
  let s := sampleSystem CPU_TDP_W MEM_W_PER_GB q in
  cpuW s = mul (div (clamp (cpu s) (ofZ 0) (ofZ 100)) (ofZ 100)) CPU_TDP_W
  /\ memW s = mul (div (usedMem s) GiB) MEM_W_PER_GB
  /\ estPowerW s = add (cpuW s) (memW s).
Proof.
  intros s. pose proof (sampleSystem_cpu_orElse CPU_TDP_W MEM_W_PER_GB q) as Hc.
  fold s in Hc. revert Hc. subst s. unfold sampleSystem.
  destruct (sampleMemory q) as [t u]. cbn [cpu cpuW memW usedMem estPowerW].
  intros Hc. unfold clamp. rewrite Hc. auto.
Qed.

Lemma sampleRow_estW (CPU_TDP_W MEM_W_PER_GB logicalCores : num)
    (prevMap : gmap num num) (dtSec : num) (p : rawProcess) :
  let r := sampleRow CPU_TDP_W MEM_W_PER_GB logicalCores prevMap dtSec p in
  let pct := rawCpuPct logicalCores
               (Math_max (ofZ 0) (sub (cpuSec r) (prevOr0 prevMap (pid r)))) dtSec in
  estW r = finiteOr0 (processWatts CPU_TDP_W MEM_W_PER_GB pct (div (memBytes r) GiB)).
Proof.
  cbv zeta. rewrite sampleRow_estW_explicit.
  unfold sampleRow. cbn [cpuSec pid memBytes]. reflexivity.
Qed.

Lemma div_notNegative_GiB (a : num) : notNegative a -> notNegative (div a GiB).
Proof. intros Ha. apply div_notNegative; [exact Ha | reflexivity]. Qed.

Lemma specWatts_processWatts (tdp mem : num) (q : Qc) (memGb : num) :
  0 <= q -> q <= Q2Qc (inject_Z 100) -> notNegative memGb ->
  specWatts tdp mem (Fin q) memGb = processWatts tdp mem (Fin q) memGb.
Proof.
  intros H0 H100 Hm. unfold specWatts, processWatts, clamp.
  rewrite Math_min_100_id by exact H100.
  rewrite (Math_max_0_id memGb) by exact Hm. reflexivity.
Qed.

(** C2, as stated, fails at process scope: a process that accumulated two
    CPU-seconds over a sampling interval measured as one second (one
    logical core) is at 200 percent; with a working set of 2 GiB, a TDP of
    15 W and 1.5 W/GB the sampler estimates 33 W, where the clamped model
    gives 18 W. *)
Lemma process_watts_exceed_clamped_model :
  let seeded := seedCpuState (ofZ 0) (Some (JObject (mkRaw 42 10000000 0))) in
  let rows :=
    fst (sampleProcesses (ofZ 15) (ofQ (15 # 10)) (ofZ 1) (ofZ 1000)
           (Some (JArray [mkRaw 42 30000000 (2 * 1024 * 1024 * 1024)])) seeded) in
  map cpuPct rows = [ofZ 200]
  /\ map estW rows = [ofZ 33]
  /\ map (fun r => specWatts (ofZ 15) (ofQ (15 # 10)) (cpuPct r) (div (memBytes r) GiB)) rows
     = [ofZ 18]
  /\ ~ (forall r, In r rows ->
          estW r = specWatts (ofZ 15) (ofQ (15 # 10)) (cpuPct r) (div (memBytes r) GiB)).
Proof.
  cbv zeta.
  assert (H1 : map estW
                 (fst (sampleProcesses (ofZ 15) (ofQ (15 # 10)) (ofZ 1) (ofZ 1000)
                         (Some (JArray [mkRaw 42 30000000 (2 * 1024 * 1024 * 1024)]))
                         (seedCpuState (ofZ 0) (Some (JObject (mkRaw 42 10000000 0))))))
               = [ofZ 33]) by by_computation.
  assert (H2 : map (fun r => specWatts (ofZ 15) (ofQ (15 # 10)) (cpuPct r) (div (memBytes r) GiB))
                 (fst (sampleProcesses (ofZ 15) (ofQ (15 # 10)) (ofZ 1) (ofZ 1000)
                         (Some (JArray [mkRaw 42 30000000 (2 * 1024 * 1024 * 1024)]))
                         (seedCpuState (ofZ 0) (Some (JObject (mkRaw 42 10000000 0))))))
               = [ofZ 18]) by by_computation.
  split; [by_computation |]. split; [exact H1 |]. split; [exact H2 |].
  intros Hall.
  assert (Heq : [ofZ 33] = [ofZ 18]).
  { rewrite <- H1, <- H2. apply map_ext_in. exact Hall. }
  revert Heq. apply (bool_decide_eq_false_1 _). vm_compute. reflexivity.
Qed.

(** C2, amended. At system scope the estimate is
    [clamp(cpu, 0, 100) / 100 * TDP + usedMemGB * W/GB], which is the
    clamped model as long as the used memory is not negative.  At process
    scope it is [max(0, cpuPct) / 100 * TDP + memGB * W/GB], replaced by 0
    when not finite: the percentage is bounded below by 0 and not above by
    100, so the estimate agrees with the clamped model on the rows whose
    percentage is at most 100 (and whose working set is not negative).
    With 15 W and 1.5 W/GB, 50 percent and 2 GB give 10.5 W in both
    scopes. *)
Theorem estimated_watts_by_scope
    (CPU_TDP_W MEM_W_PER_GB logicalCores now : num)
    (q : systemQueries) (data : option (json rawProcess)) (st : cpuState) :
  let s := sampleSystem CPU_TDP_W MEM_W_PER_GB q in
  let raw := sampleProcessesRaw data in
  let rows := fst (sampleProcesses CPU_TDP_W MEM_W_PER_GB logicalCores now data st) in
  (estPowerW s =
     add (mul (div (clamp (cpu s) (ofZ 0) (ofZ 100)) (ofZ 100)) CPU_TDP_W)
         (mul (div (usedMem s) GiB) MEM_W_PER_GB)
   /\ (notNegative (usedMem s) ->
       estPowerW s = specWatts CPU_TDP_W MEM_W_PER_GB (cpu s) (div (usedMem s) GiB)))
  /\ (forall (i : nat) (p : rawProcess), raw !! i = Some p ->
        Number_isFinite (specCpuPercent logicalCores now st p) = true ->
        exists r, rows !! i = Some r
          /\ memBytes r = NumberOr0 (WorkingSetSize p)
          /\ estW r = finiteOr0 (processWatts CPU_TDP_W MEM_W_PER_GB (cpuPct r)
                                              (div (memBytes r) GiB))
          /\ processWatts CPU_TDP_W MEM_W_PER_GB (cpuPct r) (div (memBytes r) GiB)
             = add (mul (div (cpuPct r) (ofZ 100)) CPU_TDP_W)
                   (mul (div (memBytes r) GiB) MEM_W_PER_GB)
          /\ (ltb (ofZ 100) (cpuPct r) = false -> notNegative (memBytes r) ->
              estW r = finiteOr0 (specWatts CPU_TDP_W MEM_W_PER_GB (cpuPct r)
                                            (div (memBytes r) GiB))))
  /\ (specWatts (ofZ 15) (ofQ (15 # 10)) (ofZ 50) (ofZ 2) = ofQ (105 # 10)
      /\ estPowerW (sampleSystem (ofZ 15) (ofQ (15 # 10)) (mkQueries 50 4194304 2097152))
         = ofQ (105 # 10)
      /\ map estW
           (fst (sampleProcesses (ofZ 15) (ofQ (15 # 10)) (ofZ 1) (ofZ 1000)
                   (Some (JArray [mkRaw 42 15000000 (2 * 1024 * 1024 * 1024)]))
                   (seedCpuState (ofZ 0) (Some (JObject (mkRaw 42 10000000 0))))))
         = [ofQ (105 # 10)]).
Proof.
  intros s raw rows. split; [| split].
  - destruct (sampleSystem_watts CPU_TDP_W MEM_W_PER_GB q) as [Hc [Hm He]].
    fold s in Hc, Hm, He. rewrite He, Hc, Hm. split; [reflexivity |].
    intros Hu. unfold specWatts.
    rewrite (Math_max_0_id (div (usedMem s) GiB)) by (apply div_notNegative_GiB, Hu).
    reflexivity.
  - intros i p Hi Hfin.
    pose (r := sampleRow CPU_TDP_W MEM_W_PER_GB logicalCores (prevCpuMap st)
                 (dtSecOf now (prevSampleTime st)) p).
    exists r. split; [apply sampleProcesses_lookup, Hi |].
    assert (Hr' : r = sampleRow CPU_TDP_W MEM_W_PER_GB logicalCores (prevCpuMap st)
                        (dtSecOf now (prevSampleTime st)) p) by reflexivity.
    destruct (sampleRow_when_finite CPU_TDP_W MEM_W_PER_GB logicalCores now st p Hfin)
      as [Hpct Hw]. fold r in Hpct, Hw.
    assert (Hnn : notNegative (cpuPct r)).
    { destruct (sampleRow_cpuPct_nonneg CPU_TDP_W MEM_W_PER_GB logicalCores (prevCpuMap st)
                  (dtSecOf now (prevSampleTime st)) p (dtSecOf_aboveZero _ _))
        as [c [Hc Hc0]].
      rewrite Hr', Hc. exact Hc0. }
    assert (Hest : estW r = finiteOr0 (processWatts CPU_TDP_W MEM_W_PER_GB (cpuPct r)
                                                    (div (memBytes r) GiB))).
    { rewrite Hpct. exact Hw. }
    split; [rewrite Hr'; reflexivity |]. split; [exact Hest |]. split.
    + unfold processWatts. rewrite (Math_max_0_id _ Hnn). reflexivity.
    + intros H100 Hmem. rewrite Hest. f_equal. symmetry.
      destruct (cpuPct r) as [| | |c] eqn:Ec; try (simpl in Hnn; contradiction);
        try discriminate.
      * exfalso. destruct (sampleRow_cpuPct_nonneg CPU_TDP_W MEM_W_PER_GB logicalCores
                  (prevCpuMap st) (dtSecOf now (prevSampleTime st)) p
                  (dtSecOf_aboveZero _ _)) as [c [Hc _]].
        rewrite <- Hr', Ec in Hc. discriminate.
      * apply specWatts_processWatts; [exact Hnn | | apply div_notNegative_GiB, Hmem].
        apply (ltb_Fin_false (Q2Qc (inject_Z 100)) c), H100.
  - split; [by_computation |]. split; by_computation.
Qed.

(** ** The refresh interval *)

Lemma Math_max_Fin_cases (x y : Qc) :
  Math_max (Fin x) (Fin y) = Fin x \/ Math_max (Fin x) (Fin y) = Fin y.
Proof. simpl. destruct (x ?= y); auto. Qed.

Lemma Math_min_Fin_cases (x y : Qc) :
  Math_min (Fin x) (Fin y) = Fin x \/ Math_min (Fin x) (Fin y) = Fin y.
Proof. simpl. destruct (y ?= x); auto. Qed.

Lemma Math_min_Fin (x y : Qc) :
  exists z, Math_min (Fin x) (Fin y) = Fin z /\ z <= x /\ z <= y.
Proof.
  simpl. destruct (y ?= x) eqn:E.
  - exists x. apply Qccompare_Eq in E. subst. auto using Qcle_refl.
  - exists y. apply Qccompare_Lt in E. auto using Qcle_refl, Qclt_le_weak.
  - exists x. apply Qccompare_Gt in E. auto using Qcle_refl, Qclt_le_weak.
Qed.

Lemma floor_scaled_le (q : Qc) :
  0 <= q -> Q2Qc (inject_Z (Qfloor (q * Q2Qc (8 # 10))%Qc)) <= q.
Proof.
  intros Hq. unfold Qcle in *. cbn [this Q2Qc Qcmult] in *.
  rewrite !Qred_correct in *.
  eapply Qle_trans; [apply Qfloor_le |]. lra.
Qed.

Lemma ceiling_scaled_ge (q : Qc) :
  0 <= q -> q <= Q2Qc (inject_Z (Qceiling (q * Q2Qc (125 # 100))%Qc)).
Proof.
  intros Hq. unfold Qcle in *. cbn [this Q2Qc Qcmult] in *.
  rewrite !Qred_correct in *.
  eapply Qle_trans; [| apply Qle_ceiling]. lra.
Qed.

Lemma faster_inRange (x : num) :
  inRange x -> inRange (Math_max (ofZ 200) (Math_floor (mul x (ofQ (8 # 10))))).
Proof.
  destruct x as [| | |q]; try contradiction. intros [Hlo Hhi].
  cbn [mul ofQ Math_floor]. unfold ofZ.
  destruct (Math_max_Fin (Q2Qc (inject_Z 200))
              (Q2Qc (inject_Z (Qfloor (q * Q2Qc (8 # 10))%Qc)))) as [z [Hz [Hz1 _]]].
  destruct (Math_max_Fin_cases (Q2Qc (inject_Z 200))
              (Q2Qc (inject_Z (Qfloor (q * Q2Qc (8 # 10))%Qc)))) as [Hc | Hc];
    rewrite Hc; cbn [inRange].
  - split; [apply Qcle_refl | reflexivity || discriminate].
  - rewrite Hc in Hz. injection Hz as Hz. subst z. split; [exact Hz1 |].
    eapply Qcle_trans; [apply floor_scaled_le | exact Hhi].
    eapply Qcle_trans; [| exact Hlo]. discriminate.
Qed.

Lemma slower_inRange (x : num) :
  inRange x -> inRange (Math_min (ofZ 60000) (Math_ceil (mul x (ofQ (125 # 100))))).
Proof.
  destruct x as [| | |q]; try contradiction. intros [Hlo Hhi].
  cbn [mul ofQ Math_ceil]. unfold ofZ.
  destruct (Math_min_Fin (Q2Qc (inject_Z 60000))
              (Q2Qc (inject_Z (Qceiling (q * Q2Qc (125 # 100))%Qc)))) as [z [Hz [Hz1 _]]].
  destruct (Math_min_Fin_cases (Q2Qc (inject_Z 60000))
              (Q2Qc (inject_Z (Qceiling (q * Q2Qc (125 # 100))%Qc)))) as [Hc | Hc];
    rewrite Hc; cbn [inRange].
  - split; [discriminate | apply Qcle_refl].
  - rewrite Hc in Hz. injection Hz as Hz. subst z. split; [| exact Hz1].
    eapply Qcle_trans; [exact Hlo | apply ceiling_scaled_ge].
    eapply Qcle_trans; [| exact Hlo]. discriminate.
Qed.

Lemma onlyIf_inRange (b : bool) (f : viewState -> viewState) (v : viewState) :
  (forall u, inRange (intervalMs u) -> inRange (intervalMs (f u))) ->
  inRange (intervalMs v) -> inRange (intervalMs (onlyIf b f v)).
Proof. intros Hf Hv. destruct b; simpl; auto. Qed.

Lemma onKey_inRange (key : string) (v v' : viewState) :
  inRange (intervalMs v) -> onKey key v = Some v' -> inRange (intervalMs v').
Proof.
  intros Hv. unfold onKey. destruct (isKey key ctrlC || isKey key "q"); [discriminate |].
  intros [= <-].
  repeat (apply onlyIf_inRange; [intros u Hu; cbn [intervalMs setSort setInterval] |]);
    try exact Hu; try exact Hv.
  - apply slower_inRange, Hu.
  - apply faster_inRange, Hu.
Qed.

Lemma onKeys_inRange (keys : list string) (v v' : viewState) :
  inRange (intervalMs v) -> onKeys keys v = Some v' -> inRange (intervalMs v').
Proof.
  revert v. induction keys as [|k ks IH]; intros v Hv; simpl.
  - intros [= <-]. exact Hv.
  - destruct (onKey k v) as [u|] eqn:E; [| discriminate].
    apply IH. eapply onKey_inRange; eassumption.
Qed.

Lemma onKey_faster (v : viewState) :
  onKey "+" v =
  Some (setInterval (Math_max (ofZ 200) (Math_floor (mul (intervalMs v) (ofQ (8 # 10))))) v).
Proof. reflexivity. Qed.

Lemma onKey_slower (v : viewState) :
  onKey "-" v =
  Some (setInterval (Math_min (ofZ 60000) (Math_ceil (mul (intervalMs v) (ofQ (125 # 100))))) v).
Proof. reflexivity. Qed.

Lemma onKeys_interval_keys (keys : list string) (v : viewState) :
  Forall intervalKey keys -> exists v', onKeys keys v = Some v'.
Proof.
  intros Hk. revert v. induction Hk as [|k ks [-> | ->] _ IH]; intros v; cbn [onKeys].
  - eauto.
  - rewrite onKey_faster. apply IH.
  - rewrite onKey_slower. apply IH.
Qed.

(** C6, as stated, fails for a start value outside the range: with
    [--interval 100000] a press of [+] gives 80000, above 60000, and with
    [--interval 100] a press of [-] gives 125, below 200. *)
Lemma interval_outside_range_stays_outside :
  (exists v', onKey "+" (initialView (Some 100000) None) = Some v'
              /\ intervalMs v' = ofZ 80000 /\ ~ inRange (intervalMs v'))
  /\ (exists v', onKey "-" (initialView (Some 100) None) = Some v'
                 /\ intervalMs v' = ofZ 125 /\ ~ inRange (intervalMs v')).
Proof.
  split; eexists; (split; [apply onKey_faster || apply onKey_slower |]).
  - assert (H : intervalMs
                  (setInterval
                     (Math_max (ofZ 200)
                        (Math_floor (mul (intervalMs (initialView (Some 100000) None))
                                         (ofQ (8 # 10)))))
                     (initialView (Some 100000) None)) = ofZ 80000) by by_computation.
    split; [exact H |]. rewrite H. intros [_ Hhi]. apply Hhi. reflexivity.
  - assert (H : intervalMs
                  (setInterval
                     (Math_min (ofZ 60000)
                        (Math_ceil (mul (intervalMs (initialView (Some 100) None))
                                        (ofQ (125 # 100)))))
                     (initialView (Some 100) None)) = ofZ 125) by by_computation.
    split; [exact H |]. rewrite H. intros [Hlo _]. apply Hlo. reflexivity.
Qed.

(** C6, amended. A refresh interval inside [200, 60000] stays inside
    under every sequence of key presses: [+] sets it to
    [max(200, floor(0.8 x))] and [-] to [min(60000, ceil(1.25 x))], each
    clamped on the one side it moves to; a sequence of [+] and [-] never
    stops the handler.  The default start value, 1000, is inside, and so is
    every [--interval] between 200 and 60000. *)
Theorem refresh_interval_stays_in_range :
  (forall (keys : list string) (v v' : viewState),
      inRange (intervalMs v) -> onKeys keys v = Some v' -> inRange (intervalMs v'))
  /\ (forall (keys : list string) (v : viewState),
        inRange (intervalMs v) -> Forall intervalKey keys ->
        exists v', onKeys keys v = Some v' /\ inRange (intervalMs v'))
  /\ (forall v : viewState,
        onKey "+" v =
          Some (setInterval
                  (Math_max (ofZ 200) (Math_floor (mul (intervalMs v) (ofQ (8 # 10))))) v)
        /\ onKey "-" v =
          Some (setInterval
                  (Math_min (ofZ 60000) (Math_ceil (mul (intervalMs v) (ofQ (125 # 100))))) v))
  /\ (forall top : option Z, inRange (intervalMs (initialView None top)))
  /\ (forall (z : Z) (top : option Z), (200 <= z <= 60000)%Z ->
        inRange (intervalMs (initialView (Some z) top))).
Proof.
  split; [exact onKeys_inRange |]. split; [| split; [| split]].
  - intros keys v Hv Hk. destruct (onKeys_interval_keys keys v Hk) as [v' Hv'].
    exists v'. split; [exact Hv' |]. eapply onKeys_inRange; eassumption.
  - intros v. split; [apply onKey_faster | apply onKey_slower].
  - intros top. cbn. split; discriminate.
  - intros z top Hz. cbn [initialView intervalMs parsedOr].
    assert (Ht : truthy (ofZ z) = true).
    { unfold ofZ, truthy. case_bool_decide as E; [| reflexivity].
      exfalso. apply Q2Qc_eq_iff in E. unfold Qeq in E. simpl in E. lia. }
    unfold orElse. rewrite Ht. unfold ofZ, inRange, Qcle. cbn [this Q2Qc].
    rewrite !Qred_correct. rewrite <- !Zle_Qle. exact Hz.
Qed.

(** ** Strings *)

Lemma startsWith_spec (s f : string) :
  startsWith s f = true <-> exists post, s = f +:+ post.
Proof.
  revert s. induction f as [|b f IH]; intros s.
  - split; [intros _; exists s; reflexivity | intros _; destruct s; reflexivity].
  - destruct s as [|a s]; cbn [startsWith].
    + split; [discriminate | intros [post H]; discriminate].
    + rewrite andb_true_iff, bool_decide_eq_true, IH. split.
      * intros [-> [post ->]]. exists post. reflexivity.
      * intros [post H]. injection H as -> ->. eauto.
Qed.

Lemma includes_spec (s f : string) :
  includes s f = true <-> exists pre post, s = pre +:+ f +:+ post.
Proof.
  induction s as [|a s IH]; cbn [includes]; rewrite orb_true_iff, startsWith_spec.
  - split.
    + intros [[post H] | H]; [| discriminate]. exists "", post. exact H.
    + intros [[|c pre] [post H]]; [left; exists post; exact H | discriminate].
  - rewrite IH. split.
    + intros [[post H] | [pre [post H]]].
      * exists "", post. exact H.
      * exists (String a pre), post. rewrite H. reflexivity.
    + intros [[|c pre] [post H]].
      * left. exists post. exact H.
      * right. injection H as -> ->. eauto.
Qed.

Lemma includes_empty_needle (s : string) : includes s "" = true.
Proof. destruct s; reflexivity. Qed.

Lemma includes_empty_haystack (f : string) : nonEmpty f = true -> includes "" f = false.
Proof. destruct f; [discriminate | reflexivity]. Qed.

Lemma nonEmpty_toLowerCase (s : string) : nonEmpty (toLowerCase s) = nonEmpty s.
Proof. destruct s; reflexivity. Qed.

Lemma nonEmpty_false (s : string) : nonEmpty s = false <-> s = "".
Proof. destruct s; split; try reflexivity; discriminate. Qed.

Section FilterFacts.

(** A case mapping that maps the empty string to itself and no other
    string to it, as [String.prototype.toLowerCase] does. *)
Variable lower : string -> string.
Hypothesis lower_nonEmpty : forall s, nonEmpty (lower s) = nonEmpty s.

Lemma lower_empty : lower "" = "".
Proof. apply nonEmpty_false. rewrite lower_nonEmpty. reflexivity. Qed.

Lemma guarded_includes_by (s f : string) :
  nonEmpty f = true -> nonEmpty s && includes (lower s) f = includes (lower s) f.
Proof.
  intros Hf. destruct s as [|a s]; [| reflexivity].
  cbn [nonEmpty andb]. rewrite lower_empty. symmetry. apply includes_empty_haystack, Hf.
Qed.

Lemma matchesFilterBy_spec (v : viewState) (r : row) :
  nonEmpty (filterStr v) = true ->
  matchesFilterBy lower (lower (filterStr v)) r = true <->
  containsBy lower (name r) (filterStr v) \/ containsBy lower (cmd r) (filterStr v).
Proof.
  intros Hf. unfold matchesFilterBy, containsBy.
  rewrite !guarded_includes_by by (rewrite lower_nonEmpty; exact Hf).
  rewrite orb_true_iff, !includes_spec. reflexivity.
Qed.

Lemma containsBy_empty (s : string) : containsBy lower s "".
Proof. exists "", (lower s). rewrite lower_empty. reflexivity. Qed.

Lemma filterRowsBy_In (v : viewState) (rows : list row) (r : row) :
  In r (filterRowsBy lower v rows) <->
  In r rows /\ (containsBy lower (name r) (filterStr v)
                \/ containsBy lower (cmd r) (filterStr v)).
Proof.
  unfold filterRowsBy. destruct (nonEmpty (filterStr v)) eqn:Hf.
  - rewrite filter_In, matchesFilterBy_spec by exact Hf. reflexivity.
  - destruct (filterStr v); [| discriminate].
    split; [intros H; split; [exact H | left; apply containsBy_empty] | tauto].
Qed.

End FilterFacts.


Lemma matchesFilter_spec (v : viewState) (r : row) :
  nonEmpty (filterStr v) = true ->
  matchesFilter (toLowerCase (filterStr v)) r = true <->
  containsNoCase (name r) (filterStr v) \/ containsNoCase (cmd r) (filterStr v).
Proof. apply (matchesFilterBy_spec toLowerCase nonEmpty_toLowerCase). Qed.

Lemma containsNoCase_empty (s : string) : containsNoCase s "".
Proof. exists "", (toLowerCase s). reflexivity. Qed.

Lemma filterRows_In (v : viewState) (rows : list row) (r : row) :
  In r (filterRows v rows) <->
  In r rows /\ (containsNoCase (name r) (filterStr v) \/ containsNoCase (cmd r) (filterStr v)).
Proof. apply (filterRowsBy_In toLowerCase nonEmpty_toLowerCase). Qed.

(** ** The sort *)

Lemma insertSorted_Permutation {A : Type} (c : A -> A -> num) (x : A) (l : list A) :
  Permutation (insertSorted c x l) (x :: l).
Proof.
  induction l as [|y l IH]; cbn [insertSorted]; [reflexivity |].
  destruct (gtb (c x y) (ofZ 0)); [| reflexivity].
  rewrite IH. apply perm_swap.
Qed.

Lemma Array_sort_Permutation {A : Type} (c : A -> A -> num) (l : list A) :
  Permutation (Array_sort c l) l.
Proof.
  induction l as [|x l IH]; [reflexivity |].
  cbn [Array_sort foldr]. rewrite insertSorted_Permutation.
  apply perm_skip, IH.
Qed.

Lemma truncQ_ofZ (n : Z) : truncQ (Q2Qc (inject_Z n)) = n.
Proof.
  unfold truncQ. cbn [Q2Qc this]. rewrite inject_Z_Qred. apply Z.quot_1_r.
Qed.

Lemma Array_sliceTo_ofZ {A : Type} (l : list A) (n : Z) :
  (0 <= n)%Z -> Array_sliceTo l (ofZ n) = take (Z.to_nat n) l.
Proof.
  intros Hn. unfold Array_sliceTo, ofZ. rewrite truncQ_ofZ.
  destruct (n <? 0)%Z eqn:E; [| reflexivity]. apply Z.ltb_lt in E. lia.
Qed.

Lemma take_In {A : Type} (n : nat) (l : list A) (x : A) : In x (take n l) -> In x l.
Proof.
  revert n. induction l as [|y l IH]; intros [|n]; simpl; try tauto.
  intros [H | H]; [left; exact H | right; eapply IH; exact H].
Qed.

Lemma Array_sliceTo_In {A : Type} (l : list A) (n : num) (x : A) :
  In x (Array_sliceTo l n) -> In x l.
Proof.
  unfold Array_sliceTo. destruct n as [| | |q]; try (intros []); try tauto.
  destruct (truncQ q <? 0)%Z; apply take_In.
Qed.



Lemma gtb_sgn (a : num) : gtb a (ofZ 0) = true <-> sgn a = Gt.
Proof.
  unfold sgn. destruct (gtb a (ofZ 0)); [tauto |].
  destruct (ltb a (ofZ 0)); split; discriminate.
Qed.

Section StableSort.

Context {A : Type}.
Variable c : A -> A -> num.
Variable ok : A -> Prop.
Hypothesis c_consistent : consistentOn ok c.

Lemma insertSorted_Forall (P : A -> Prop) (x : A) (l : list A) :
  P x -> Forall P l -> Forall P (insertSorted c x l).
Proof.
  intros Hx Hl. apply List.Forall_forall. intros y Hy.
  apply (Permutation_in _ (insertSorted_Permutation c x l)) in Hy.
  destruct Hy as [<- | Hy]; [exact Hx |].
  rewrite List.Forall_forall in Hl. apply Hl, Hy.
Qed.

Lemma insertSorted_sorted (x : A) (l : list A) :
  ok x -> Forall ok l ->
  StronglySorted (notAfter c) l -> StronglySorted (notAfter c) (insertSorted c x l).
Proof.
  intros Hx Hok Hs. induction Hs as [|y l Hs IH Hy]; cbn [insertSorted].
  - repeat constructor.
  - apply Forall_cons in Hok as [Hoy Hol].
    destruct (gtb (c x y) (ofZ 0)) eqn:E.
    + constructor; [apply IH, Hol |].
      apply insertSorted_Forall; [| exact Hy].
      unfold notAfter. apply gtb_sgn in E.
      destruct c_consistent as [Hanti _]. rewrite (Hanti x y Hx Hoy), E. discriminate.
    + assert (Hxy : (notAfter c) x y).
      { unfold notAfter. rewrite <- gtb_sgn, E. discriminate. }
      constructor; [constructor; assumption |].
      constructor; [exact Hxy |].
      rewrite List.Forall_forall in Hy, Hol |- *. intros z Hz.
      destruct c_consistent as [_ Htrans].
      apply (Htrans x y z Hx Hoy (Hol z Hz) Hxy (Hy z Hz)).
Qed.

Lemma Array_sort_Forall (P : A -> Prop) (l : list A) :
  Forall P l -> Forall P (Array_sort c l).
Proof.
  intros Hl. rewrite List.Forall_forall in Hl |- *. intros x Hx. apply Hl.
  eapply Permutation_in; [apply Array_sort_Permutation | exact Hx].
Qed.

Lemma Array_sort_sorted (l : list A) :
  Forall ok l -> StronglySorted (notAfter c) (Array_sort c l).
Proof.
  induction l as [|x l IH]; intros Hok; [constructor |].
  apply Forall_cons in Hok as [Hx Hl]. cbn [Array_sort foldr].
  apply insertSorted_sorted; [exact Hx | apply Array_sort_Forall, Hl | apply IH, Hl].
Qed.

Lemma insertSorted_stable (z x : A) (l : list A) :
  ok z -> ok x -> Forall ok l ->
  List.filter (tiedBy c z) (insertSorted c x l) = List.filter (tiedBy c z) (x :: l).
Proof.
  intros Hz Hx Hl. induction l as [|y l IH]; [reflexivity |].
  apply Forall_cons in Hl as [Hy Hl]. cbn [insertSorted].
  destruct (gtb (c x y) (ofZ 0)) eqn:E; [| reflexivity].
  cbn [List.filter]. rewrite (IH Hl). cbn [List.filter].
  destruct (tiedBy c z x) eqn:Ex, (tiedBy c z y) eqn:Ey; try reflexivity.
  exfalso. apply gtb_sgn in E. destruct c_consistent as [Hanti Htrans].
  apply (Htrans x z y Hx Hz Hy); [| | exact E].
  - rewrite (Hanti z x Hz Hx). unfold tiedBy in Ex.
    destruct (sgn (c z x)); discriminate.
  - unfold tiedBy in Ey. destruct (sgn (c z y)); discriminate.
Qed.

Lemma Array_sort_stable (z : A) (l : list A) :
  ok z -> Forall ok l ->
  List.filter (tiedBy c z) (Array_sort c l) = List.filter (tiedBy c z) l.
Proof.
  intros Hz. induction l as [|x l IH]; intros Hl; [reflexivity |].
  apply Forall_cons in Hl as [Hx Hl]. cbn [Array_sort foldr].
  rewrite insertSorted_stable by (try assumption; apply Array_sort_Forall, Hl).
  cbn [List.filter]. fold (Array_sort c l). rewrite (IH Hl). reflexivity.
Qed.

End StableSort.

(** ** The order of the sort keys *)

Lemma ltb_asym (x y : num) : ltb x y = true -> ltb y x = false.
Proof.
  destruct x as [| | |p], y as [| | |q]; simpl; try congruence.
  destruct (p ?= q) eqn:E; try discriminate. intros _.
  apply Qccompare_Lt in E.
  destruct (q ?= p) eqn:E'; try reflexivity.
  apply Qccompare_Lt in E'. exfalso. exact (Qclt_not_le _ _ E (Qclt_le_weak _ _ E')).
Qed.

Lemma ltb_false_trans (x y z : num) :
  y <> NaN -> ltb y x = false -> ltb z y = false -> ltb z x = false.
Proof.
  destruct x as [| | |p], y as [| | |q], z as [| | |r]; simpl;
    try congruence; try reflexivity.
  intros _ Hyx Hzy.
  assert (Hpq : p <= q).
  { apply Qccompare_not_Lt. destruct (q ?= p); congruence. }
  assert (Hqr : q <= r).
  { apply Qccompare_not_Lt. destruct (r ?= q); congruence. }
  destruct (r ?= p) eqn:E; try reflexivity.
  apply Qccompare_Lt in E. exfalso.
  exact (Qclt_not_le _ _ E (Qcle_trans _ _ _ Hpq Hqr)).
Qed.

Lemma compareNum_antisym (x y : num) : compareNum y x = CompOpp (compareNum x y).
Proof.
  unfold compareNum. destruct (ltb x y) eqn:E.
  - rewrite (ltb_asym _ _ E). reflexivity.
  - destruct (ltb y x); reflexivity.
Qed.

Lemma compareNum_not_Gt (x y : num) : compareNum x y <> Gt <-> ltb y x = false.
Proof.
  unfold compareNum. destruct (ltb x y) eqn:E.
  - rewrite (ltb_asym _ _ E). split; [reflexivity | discriminate].
  - destruct (ltb y x); split; congruence.
Qed.

Lemma compareNum_trans (x y z : num) :
  y <> NaN -> compareNum x y <> Gt -> compareNum y z <> Gt -> compareNum x z <> Gt.
Proof.
  rewrite !compareNum_not_Gt. intros Hy Hxy Hyz.
  eapply ltb_false_trans; eassumption.
Qed.

Lemma sgn_Fin (q : Qc) : sgn (Fin q) = (q ?= 0).
Proof.
  unfold sgn, gtb, ltb, ofZ. change (Q2Qc (inject_Z 0)) with (Q2Qc 0).
  destruct (q ?= 0) eqn:E.
  - apply Qccompare_Eq in E. subst q. reflexivity.
  - apply Qccompare_Lt in E.
    destruct (0 ?= q) eqn:E'; try reflexivity.
    apply Qccompare_Lt in E'. exfalso.
    exact (Qclt_not_le _ _ E (Qclt_le_weak _ _ E')).
  - apply Qccompare_Gt in E. apply Qccompare_Lt in E. rewrite E. reflexivity.
Qed.

Lemma Qccompare_sub (x y : Qc) : (x + - y ?= 0) = (x ?= y).
Proof.
  unfold Qccompare. cbn [this Qcplus Qcopp Q2Qc].
  rewrite !Qred_correct.
  destruct (Qcompare_spec x y) as [H | H | H].
  - rewrite <- Qeq_alt. lra.
  - rewrite <- Qlt_alt. lra.
  - rewrite <- Qgt_alt. lra.
Qed.

Lemma sgn_sub (x y : num) : x <> NaN -> y <> NaN -> sgn (sub x y) = compareNum x y.
Proof.
  destruct x as [| | |p], y as [| | |q]; intros Hx Hy; try congruence; try reflexivity.
  unfold sub. cbn [neg add]. rewrite sgn_Fin, Qccompare_sub.
  unfold compareNum. cbn [ltb].
  destruct (p ?= q) eqn:E; try reflexivity.
  - apply Qccompare_Eq in E. subst q.
    assert (Hpp : (p ?= p) = Eq) by (apply Qccompare_Eq; reflexivity).
    rewrite Hpp. reflexivity.
  - apply Qccompare_Gt in E. apply Qccompare_Lt in E. rewrite E. reflexivity.
Qed.

Lemma sgn_scale_1 (s : num) : sgn (mul (ofZ 1) s) = sgn s.
Proof.
  destruct s as [| | |q]; try reflexivity.
  unfold ofZ. cbn [mul]. change (Q2Qc (inject_Z 1)) with 1. rewrite Qcmult_1_l.
  reflexivity.
Qed.

Lemma sgn_scale_m1 (s : num) : sgn (mul (ofZ (-1)) s) = CompOpp (sgn s).
Proof.
  destruct s as [| | |q]; try reflexivity.
  unfold ofZ. cbn [mul]. rewrite !sgn_Fin.
  unfold Qccompare. cbn [this Qcmult Q2Qc]. rewrite !Qred_correct.
  destruct (Qcompare_spec q 0) as [H | H | H]; cbn [CompOpp].
  - rewrite <- Qeq_alt. rewrite H. reflexivity.
  - rewrite <- Qgt_alt. change (inject_Z (-1)) with (-1 # 1). lra.
  - rewrite <- Qlt_alt. change (inject_Z (-1)) with (-1 # 1). lra.
Qed.

(** ** Ranking *)

Section RankingFacts.

Variable localeCompare : string -> string -> num.

Lemma sgn_cmpMap (key : string) (a b : row) :
  rankable a -> rankable b ->
  sgn (default (cmp_cpu) (cmpMap localeCompare key) a b)
  = compareByKey localeCompare key a b.
Proof.
  intros [Ha1 [Ha2 [Ha3 Ha4]]] [Hb1 [Hb2 [Hb3 Hb4]]].
  unfold cmpMap, compareByKey.
  repeat case_bool_decide; subst; try discriminate; cbn [default];
    try reflexivity; apply sgn_sub; assumption.
Qed.

Lemma sgn_rankComparator (v : viewState) (a b : row) :
  rankable a -> rankable b ->
  sgn (rankComparator localeCompare v a b)
  = if sortDesc v then CompOpp (compareByKey localeCompare (sortBy v) a b)
    else compareByKey localeCompare (sortBy v) a b.
Proof.
  intros Ha Hb. unfold rankComparator. cbv zeta.
  destruct (sortDesc v).
  - rewrite sgn_scale_m1, sgn_cmpMap by assumption. reflexivity.
  - rewrite sgn_scale_1, sgn_cmpMap by assumption. reflexivity.
Qed.

Lemma compareByKey_antisym (key : string) (a b : row) :
  (key = "name" -> consistentOn (fun _ : string => True) localeCompare) ->
  compareByKey localeCompare key b a = CompOpp (compareByKey localeCompare key a b).
Proof.
  intros Hn. unfold compareByKey.
  repeat case_bool_decide; try apply compareNum_antisym.
  destruct (Hn ltac:(assumption)) as [Hanti _]. apply Hanti; exact I.
Qed.

Lemma compareByKey_trans (key : string) (a b d : row) :
  (key = "name" -> consistentOn (fun _ : string => True) localeCompare) ->
  rankable b ->
  compareByKey localeCompare key a b <> Gt ->
  compareByKey localeCompare key b d <> Gt ->
  compareByKey localeCompare key a d <> Gt.
Proof.
  intros Hn [Hb1 [Hb2 [Hb3 Hb4]]]. unfold compareByKey.
  repeat case_bool_decide; try (apply compareNum_trans; assumption).
  destruct (Hn ltac:(assumption)) as [_ Htrans]. apply Htrans; exact I.
Qed.

Lemma CompOpp_not_Gt (x : comparison) : CompOpp x <> Gt <-> x <> Lt.
Proof. destruct x; simpl; split; congruence. Qed.

Lemma rankComparator_consistent (v : viewState) :
  (sortBy v = "name" -> consistentOn (fun _ : string => True) localeCompare) ->
  consistentOn rankable (rankComparator localeCompare v).
Proof.
  intros Hn. split.
  - intros a b Ha Hb. rewrite !sgn_rankComparator by assumption.
    rewrite (compareByKey_antisym _ a b Hn).
    destruct (sortDesc v); reflexivity.
  - intros a b d Ha Hb Hd. rewrite !sgn_rankComparator by assumption.
    destruct (sortDesc v).
    + rewrite <- !(compareByKey_antisym _ _ _ Hn). intros H1 H2.
      apply (compareByKey_trans _ d b a Hn Hb H2 H1).
    + apply compareByKey_trans; assumption.
Qed.

Lemma ranksBefore_sgn (v : viewState) (a b : row) :
  rankable a -> rankable b ->
  ranksBefore localeCompare v a b
  = match sgn (rankComparator localeCompare v a b) with Lt => true | _ => false end.
Proof.
  intros Ha Hb. rewrite sgn_rankComparator by assumption. unfold ranksBefore.
  destruct (compareByKey localeCompare (sortBy v) a b), (sortDesc v); reflexivity.
Qed.

Lemma notAfter_ranksBefore (v : viewState) (a b : row) :
  (sortBy v = "name" -> consistentOn (fun _ : string => True) localeCompare) ->
  rankable a -> rankable b ->
  notAfter (rankComparator localeCompare v) a b ->
  ranksBefore localeCompare v b a = false.
Proof.
  intros Hn Ha Hb. unfold notAfter. rewrite ranksBefore_sgn by assumption.
  destruct (rankComparator_consistent v Hn) as [Hanti _].
  rewrite (Hanti a b Ha Hb).
  destruct (sgn (rankComparator localeCompare v a b)); simpl; congruence.
Qed.

Lemma tiedBy_tied (v : viewState) (a b : row) :
  (sortBy v = "name" -> consistentOn (fun _ : string => True) localeCompare) ->
  rankable a -> rankable b ->
  tiedBy (rankComparator localeCompare v) a b = tied localeCompare v a b.
Proof.
  intros Hn Ha Hb. unfold tiedBy, tied. rewrite !ranksBefore_sgn by assumption.
  destruct (rankComparator_consistent v Hn) as [Hanti _].
  rewrite (Hanti a b Ha Hb).
  destruct (sgn (rankComparator localeCompare v a b)); reflexivity.
Qed.

End RankingFacts.

Lemma StronglySorted_weaken {A : Type} (ok : A -> Prop) (R R' : A -> A -> Prop) (l : list A) :
  (forall a b, ok a -> ok b -> R a b -> R' a b) ->
  Forall ok l -> StronglySorted R l -> StronglySorted R' l.
Proof.
  intros HR Hok Hs. induction Hs as [|x l Hs IH Hx]; [constructor |].
  apply Forall_cons in Hok as [Hox Hol]. constructor; [apply IH, Hol |].
  rewrite List.Forall_forall in Hx, Hol |- *. intros y Hy.
  apply HR; auto.
Qed.

Lemma filter_ext_Forall {A : Type} (ok : A -> Prop) (f g : A -> bool) (l : list A) :
  (forall a, ok a -> f a = g a) -> Forall ok l -> List.filter f l = List.filter g l.
Proof.
  intros Hfg Hok. induction Hok as [|x l Hx Hl IH]; [reflexivity |].
  cbn [List.filter]. rewrite (Hfg x Hx), IH. reflexivity.
Qed.

Lemma NumberOr0_not_NaN (x : option num) : NumberOr0 x <> NaN.
Proof.
  destruct x as [[| | |q]|]; try discriminate.
  unfold NumberOr0, orElse. destruct (truthy (Fin q)); discriminate.
Qed.

Lemma finiteOr0_not_NaN (x : num) : (if Number_isFinite x then x else ofZ 0) <> NaN.
Proof. destruct x; discriminate. Qed.

Lemma sampleRow_rankable (CPU_TDP_W MEM_W_PER_GB logicalCores : num)
    (prevMap : gmap num num) (dtSec : num) (p : rawProcess) :
  rankable (sampleRow CPU_TDP_W MEM_W_PER_GB logicalCores prevMap dtSec p).
Proof.
  unfold rankable, sampleRow. cbn [cpuPct memBytes pid estW].
  repeat split; try apply NumberOr0_not_NaN; apply finiteOr0_not_NaN.
Qed.

Lemma filterRows_Forall (P : row -> Prop) (v : viewState) (rows : list row) :
  Forall P rows -> Forall P (filterRows v rows).
Proof.
  intros H. rewrite List.Forall_forall in H |- *. intros r Hr.
  apply H. apply filterRows_In in Hr. tauto.
Qed.

(** C4, as stated, fails for a negative [topN], which [--top -1] sets
    unchecked: of the three processes of the example, sorted by memory
    into 2, 1, 3, the ranking then returns 2, 1, the sorted list without
    its last entry, where its first [topN] entries would be none. *)
Lemma negative_topN_cuts_from_the_end :
  topN (startupView ["--top"; "-1"]) = ofZ (-1)
  /\ (let v := mkView "mem" true "" (-1) in
      let sorted :=
        Array_sort (rankComparator codeUnitCompare v) (filterRows v exampleRows) in
      map pid sorted = [ofZ 2; ofZ 1; ofZ 3]
      /\ map pid (sortAndFilterProcesses codeUnitCompare v exampleRows) = [ofZ 2; ofZ 1]
      /\ take (Z.to_nat (-1)) sorted = []
      /\ sortAndFilterProcesses codeUnitCompare v exampleRows
         <> take (Z.to_nat (-1)) sorted).
Proof.
  split; [by_computation |]. cbv zeta.
  split; [by_computation |]. split; [by_computation |]. split; [reflexivity |].
  intros H. apply (f_equal (map pid)) in H. revert H.
  apply (bool_decide_eq_false_1 _). vm_compute. reflexivity.
Qed.

(** C4, amended. For a list of process samples (no sort key is NaN, as is
    the case of every list that the sampler produces) and a view state
    whose [topN] is a whole number that is not negative, the ranking
    returns the first [topN] entries of the stable sort of the filtered
    list: the sorted list is a permutation of the filtered one, no entry
    ranks strictly before an entry that precedes it (the rank being the
    key selected by [sortBy], reversed when [sortDesc]), entries that tie
    keep the order they have in the input, and the cut is taken from that
    sorted list, after the sort.  Sorting pids 1, 2, 3 with memory 100,
    300, 100 by memory, descending, gives 2, 1, 3. *)
Theorem ranking_is_filter_stable_sort_truncate
    (localeCompare : string -> string -> num) (v : viewState) (rows : list row) :
  Forall rankable rows ->
  (sortBy v = "name" -> consistentOn (fun _ : string => True) localeCompare) ->
  let filtered := filterRows v rows in
  let sorted := Array_sort (rankComparator localeCompare v) filtered in
  Permutation sorted filtered
  /\ StronglySorted (fun a b => ranksBefore localeCompare v b a = false) sorted
  /\ (forall x, rankable x ->
        List.filter (tied localeCompare v x) sorted
        = List.filter (tied localeCompare v x) filtered)
  /\ (forall n : Z, (0 <= n)%Z -> topN v = ofZ n ->
        sortAndFilterProcesses localeCompare v rows = take (Z.to_nat n) sorted
        /\ length (sortAndFilterProcesses localeCompare v rows)
           = Nat.min (Z.to_nat n) (length filtered))
  /\ (forall (tdp mem cores now : num) (data : option (json rawProcess)) (st : cpuState),
        Forall rankable (fst (sampleProcesses tdp mem cores now data st)))
  /\ map pid (sortAndFilterProcesses localeCompare (mkView "mem" true "" 20) exampleRows)
     = [ofZ 2; ofZ 1; ofZ 3].
Proof.
  intros Hok Hn filtered sorted.
  assert (Hf : Forall rankable filtered) by (apply filterRows_Forall, Hok).
  assert (Hs : Forall rankable sorted) by (apply Array_sort_Forall, Hf).
  pose proof (rankComparator_consistent localeCompare v Hn) as Hc.
  split; [apply Array_sort_Permutation |].
  split.
  { apply (StronglySorted_weaken rankable (notAfter (rankComparator localeCompare v)));
      [| exact Hs | apply (Array_sort_sorted _ rankable Hc), Hf].
    intros a b Ha Hb. apply notAfter_ranksBefore; assumption. }
  split.
  { intros x Hx.
    rewrite <- (filter_ext_Forall rankable (tiedBy (rankComparator localeCompare v) x)
                  (tied localeCompare v x) sorted)
      by (try exact Hs; intros a Ha; apply tiedBy_tied; assumption).
    rewrite <- (filter_ext_Forall rankable (tiedBy (rankComparator localeCompare v) x)
                  (tied localeCompare v x) filtered)
      by (try exact Hf; intros a Ha; apply tiedBy_tied; assumption).
    apply (Array_sort_stable _ rankable Hc); assumption. }
  split.
  { intros n Hn0 Htop.
    assert (Hcut : sortAndFilterProcesses localeCompare v rows = take (Z.to_nat n) sorted).
    { unfold sortAndFilterProcesses. rewrite Htop. apply Array_sliceTo_ofZ, Hn0. }
    split; [exact Hcut |]. rewrite Hcut, length_take. subst sorted.
    rewrite (Permutation_length (Array_sort_Permutation _ filtered)). reflexivity. }
  split.
  { intros tdp mem cores now data st. unfold sampleProcesses. cbn [fst].
    apply List.Forall_forall. intros r Hr. apply in_map_iff in Hr as [p [<- _]].
    apply sampleRow_rankable. }
  by_computation.
Qed.

(** The example of C4 run through the theorem: the three processes, ranked
    by memory, descending. *)
Lemma ranking_example_by_memory :
  let v := mkView "mem" true "" 20 in
  let sorted := Array_sort (rankComparator codeUnitCompare v) (filterRows v exampleRows) in
  Forall rankable exampleRows
  /\ Permutation sorted (filterRows v exampleRows)
  /\ StronglySorted (fun a b => ranksBefore codeUnitCompare v b a = false) sorted
  /\ (0 <= 20)%Z /\ topN v = ofZ 20
  /\ sortAndFilterProcesses codeUnitCompare v exampleRows = take (Z.to_nat 20) sorted
  /\ map pid (sortAndFilterProcesses codeUnitCompare v exampleRows) = [ofZ 2; ofZ 1; ofZ 3].
Proof.
  assert (Hok : Forall rankable exampleRows).
  { repeat constructor; discriminate. }
  assert (Hn : sortBy (mkView "mem" true "" 20) = "name" ->
               consistentOn (fun _ : string => True) codeUnitCompare).
  { discriminate. }
  pose proof (ranking_is_filter_stable_sort_truncate codeUnitCompare
                (mkView "mem" true "" 20) exampleRows Hok Hn) as H.
  cbv zeta in H |- *. split; [exact Hok |].
  destruct H as [H1 [H2 [_ [H4 [_ H3]]]]].
  assert (H20 : (0 <= 20)%Z) by lia.
  split; [exact H1 |]. split; [exact H2 |]. split; [exact H20 |].
  split; [reflexivity |]. split; [| exact H3].
  exact (proj1 (H4 20%Z H20 eq_refl)).
Defined.

(** ** Padding *)

Lemma length_app (a b : string) :
  String.length (a +:+ b) = (String.length a + String.length b)%nat.
Proof.
  induction a as [|c a IH]; [reflexivity |].
  change (S (String.length (a +:+ b)) = S (String.length a + String.length b)).
  rewrite IH. reflexivity.
Qed.

Lemma app_empty_r (s : string) : s +:+ "" = s.
Proof.
  induction s as [|c s IH]; [reflexivity |].
  change (String c (s +:+ "") = String c s). rewrite IH. reflexivity.
Qed.

Lemma length_repeatChar (c : ascii) (n : nat) : String.length (repeatChar c n) = n.
Proof. induction n as [|n IH]; [reflexivity |]. cbn. rewrite IH. reflexivity. Qed.

Lemma length_takeChars (n : nat) (s : string) :
  String.length (takeChars n s) = Nat.min n (String.length s).
Proof.
  revert s. induction n as [|n IH]; intros [|c s]; try reflexivity.
  cbn. rewrite IH. reflexivity.
Qed.

Lemma takeChars_prefix (n : nat) (s : string) :
  exists rest, s = takeChars n s +:+ rest.
Proof.
  revert s. induction n as [|n IH]; intros [|c s]; try (eexists; reflexivity).
  destruct (IH s) as [rest Hr]. exists rest. cbn [takeChars].
  change (String c (takeChars n s) +:+ rest) with (String c (takeChars n s +:+ rest)).
  rewrite <- Hr. reflexivity.
Qed.

Section PadFacts.

Context {lib : JsLibrary}.


Lemma pad_cases (text : jsval) (width : Z) :
  (0 <= width)%Z ->
  let s := padText text in
  ((width < Z.of_nat (String.length s))%Z /\
     pad text width = takeChars (Z.to_nat width) s)
  \/ ((Z.of_nat (String.length s) <= width)%Z /\
     pad text width
     = s +:+ repeatChar " " (Z.to_nat (width - Z.of_nat (String.length s)))).
Proof.
  intros Hw s. unfold pad. fold (padText text). fold s.
  destruct (width <? Z.of_nat (String.length s))%Z eqn:E1.
  - left. apply Z.ltb_lt in E1. split; [exact E1 |].
    unfold sliceTo. destruct (width <? 0)%Z eqn:E0; [| reflexivity].
    apply Z.ltb_lt in E0. lia.
  - right. apply Z.ltb_ge in E1. split; [exact E1 |].
    destruct (Z.of_nat (String.length s) <? width)%Z eqn:E2; [reflexivity |].
    apply Z.ltb_ge in E2.
    replace (width - Z.of_nat (String.length s))%Z with 0%Z by lia.
    cbn [Z.to_nat repeatChar]. symmetry. apply app_empty_r.
Qed.

Lemma pad_length (text : jsval) (width : Z) :
  (0 <= width)%Z -> Z.of_nat (String.length (pad text width)) = width.
Proof.
  intros Hw. destruct (pad_cases text width Hw) as [[Hlt ->] | [Hge ->]].
  - rewrite length_takeChars. lia.
  - rewrite length_app, length_repeatChar. lia.
Qed.

Lemma pad_null_undefined (width : Z) :
  pad VUndefined width = pad (VStr "") width /\ pad VNull width = pad (VStr "") width.
Proof. split; reflexivity. Qed.

Lemma pad_empty (width : Z) :
  (0 <= width)%Z -> pad (VStr "") width = repeatChar " " (Z.to_nat width).
Proof.
  intros Hw. destruct (pad_cases (VStr "") width Hw) as [[Hlt _] | [_ ->]].
  - cbn in Hlt. lia.
  - cbn [padText toStr String.length Z.of_nat]. rewrite Z.sub_0_r. reflexivity.
Qed.

Lemma colsFor_nonneg (width : Z) :
  let cols := colsFor width in
  (0 <= col_pid cols /\ 0 <= col_cpu cols /\ 0 <= col_pwr cols /\ 0 <= col_mem cols
   /\ 0 <= col_name cols /\ 0 <= col_cmd cols)%Z.
Proof. cbn. lia. Qed.

Lemma six_cells_length (c1 c2 c3 c4 c5 c6 : jsval) (cols : columnWidths) :
  (0 <= col_pid cols)%Z -> (0 <= col_cpu cols)%Z -> (0 <= col_pwr cols)%Z ->
  (0 <= col_mem cols)%Z -> (0 <= col_name cols)%Z -> (0 <= col_cmd cols)%Z ->
  Z.of_nat (String.length
    (pad c1 (col_pid cols) +:+ " " +:+ pad c2 (col_cpu cols) +:+ " " +:+
     pad c3 (col_pwr cols) +:+ " " +:+ pad c4 (col_mem cols) +:+ " " +:+
     pad c5 (col_name cols) +:+ " " +:+ pad c6 (col_cmd cols)))
  = (col_pid cols + col_cpu cols + col_pwr cols + col_mem cols + col_name cols
     + col_cmd cols + 5)%Z.
Proof.
  intros H1 H2 H3 H4 H5 H6.
  pose proof (pad_length c1 _ H1). pose proof (pad_length c2 _ H2).
  pose proof (pad_length c3 _ H3). pose proof (pad_length c4 _ H4).
  pose proof (pad_length c5 _ H5). pose proof (pad_length c6 _ H6).
  rewrite !length_app. cbn [String.length]. lia.
Qed.

End PadFacts.

(** C10. For every value and every width that is not negative, [pad]
    returns exactly [width] characters: the first [width] characters of
    the text when it is longer (a plain cut), the text followed by spaces
    when it is shorter; [undefined] and [null] are laid out as the empty
    text.  Hence the header of the process table and every line of it
    have the same length, the six column widths and five separators. *)
Theorem pad_returns_exact_width :
  forall (lib : JsLibrary),
  (forall (text : jsval) (width : Z),
      (0 <= width)%Z -> Z.of_nat (String.length (pad text width)) = width)
  /\ (forall (text : jsval) (width : Z),
        (0 <= width)%Z -> (width < Z.of_nat (String.length (padText text)))%Z ->
        pad text width = takeChars (Z.to_nat width) (padText text)
        /\ exists rest, padText text = pad text width +:+ rest)
  /\ (forall (text : jsval) (width : Z),
        (Z.of_nat (String.length (padText text)) <= width)%Z ->
        pad text width
        = padText text
          +:+ repeatChar " " (Z.to_nat (width - Z.of_nat (String.length (padText text)))))
  /\ (forall (width : Z),
        pad VUndefined width = pad (VStr "") width
        /\ pad VNull width = pad (VStr "") width
        /\ ((0 <= width)%Z -> pad VNull width = repeatChar " " (Z.to_nat width)))
  /\ (forall (width : Z) (p : row),
        Z.of_nat (String.length (tableHeader (colsFor width)))
        = (55 + Z.max 10 (width - 55))%Z
        /\ Z.of_nat (String.length (tableLine (colsFor width) p))
           = (55 + Z.max 10 (width - 55))%Z).
Proof.
  intros lib. split; [apply pad_length |]. split; [| split; [| split]].
  - intros text width Hw Hlt.
    destruct (pad_cases text width Hw) as [[_ Hp] | [Hge _]]; [| cbv zeta in Hge; lia].
    cbv zeta in Hp. split; [exact Hp |]. rewrite Hp. apply takeChars_prefix.
  - intros text width Hge.
    assert (Hw : (0 <= width)%Z) by lia.
    destruct (pad_cases text width Hw) as [[Hlt _] | [_ Hp]]; [cbv zeta in Hlt; lia |].
    exact Hp.
  - intros width. destruct (pad_null_undefined width) as [Hu Hn].
    split; [exact Hu |]. split; [exact Hn |].
    intros Hw. rewrite Hn. apply pad_empty, Hw.
  - intros width p.
    destruct (colsFor_nonneg width) as [H1 [H2 [H3 [H4 [H5 H6]]]]].
    unfold tableHeader, tableLine. cbv zeta.
    rewrite !six_cells_length by assumption. cbn. lia.
Qed.

(** ** Computations that only write *)

Lemma app_assoc_str (a b c : string) : (a +:+ b) +:+ c = a +:+ (b +:+ c).
Proof.
  induction a as [|x a IH]; [reflexivity |].
  change (String x ((a +:+ b) +:+ c) = String x (a +:+ (b +:+ c))).
  rewrite IH. reflexivity.
Qed.

Lemma withScreen_screen (w : world) : withScreen (screen w) w = w.
Proof. destruct w; reflexivity. Qed.

Lemma forEach_writes {A : Type} (g : A -> string) (body : A -> M unit) (l : list A) (w : world) :
  (forall x u, body x u = (Normal tt, withScreen (screen u +:+ g x) u)) ->
  forEach l body w = (Normal tt, withScreen (screen w +:+ concatStr (map g l)) w).
Proof.
  intros Hb. revert w. induction l as [|x l IH]; intros w.
  - cbn. rewrite app_empty_r, withScreen_screen. reflexivity.
  - cbn [forEach]. unfold bind at 1. rewrite Hb, IH.
    cbn [screen withScreen map concatStr foldr]. rewrite app_assoc_str. reflexivity.
Qed.

Section RenderFacts.

Context {lib : JsLibrary}.
Variables CPU_TDP_W MEM_W_PER_GB : num.

(** What the renderer leaves on the screen is a function of its arguments,
    the view state, the machine description, the terminal width and the
    clock reading; it completes normally and changes nothing else. *)
Lemma render_frame_record (system : systemSnapshot) (processes : list row)
    (battery : option batteryInfo) (powerScheme : string)
    (v : viewState) (m : machineInfo) (c : option Z) (t : string) :
  exists frame : string,
    forall (h : cpuState) (s : string) (e : list string) (sch : list num),
      render CPU_TDP_W MEM_W_PER_GB system processes battery powerScheme
        {| view := v; cpuHistory := h; machine := m; columns := c; clockText := t;
           screen := s; errorLog := e; scheduled := sch |}
      = (Normal tt,
         {| view := v; cpuHistory := h; machine := m; columns := c; clockText := t;
            screen := frame; errorLog := e; scheduled := sch |}).
Proof.
  eexists. intros h s e sch. unfold render.
  cbv beta iota zeta delta [bind console_clear getWorld timestamp stdout_write
                            withScreen view machine columns clockText screen
                            cpuHistory errorLog scheduled].
  erewrite (forEach_writes
              (fun p => fst (rowColor CPU_TDP_W p) +:+ tableLine _ p
                        +:+ snd (rowColor CPU_TDP_W p) +:+ NL));
    [| intros p u; destruct (rowColor CPU_TDP_W p); reflexivity].
  cbv beta iota zeta delta [withScreen view machine columns clockText screen
                            cpuHistory errorLog scheduled].
  reflexivity.
Qed.

Lemma render_result (system : systemSnapshot) (processes : list row)
    (battery : option batteryInfo) (powerScheme : string) (w : world) :
  exists frame : string,
    render CPU_TDP_W MEM_W_PER_GB system processes battery powerScheme w
    = (Normal tt, withScreen frame w)
    /\ forall w' : world, sameRenderInputs w w' ->
        render CPU_TDP_W MEM_W_PER_GB system processes battery powerScheme w'
        = (Normal tt, withScreen frame w').
Proof.
  destruct w as [v h m c t s e sch].
  destruct (render_frame_record system processes battery powerScheme v m c t)
    as [frame Hf].
  exists frame. split; [apply Hf |].
  intros [v' h' m' c' t' s' e' sch'] [Hv [Hm [Hc Ht]]].
  cbn [view machine columns clockText] in Hv, Hm, Hc, Ht. subst v' m' c' t'.
  apply Hf.
Qed.

End RenderFacts.


Lemma app_inj_r (a b c : string) : a +:+ c = b +:+ c -> a = b.
Proof.
  revert b. induction a as [|x a IH]; intros [|y b] H.
  - reflexivity.
  - exfalso. apply (f_equal String.length) in H.
    change (String y b +:+ c) with (String y (b +:+ c)) in H.
    cbn [String.length] in H. rewrite !length_app in H. cbn in H. lia.
  - exfalso. apply (f_equal String.length) in H.
    change (String x a +:+ c) with (String x (a +:+ c)) in H.
    cbn [String.length] in H. rewrite !length_app in H. cbn in H. lia.
  - change (String x (a +:+ c) = String y (b +:+ c)) in H.
    injection H as -> H. f_equal. apply IH, H.
Qed.

Section RenderClock.

Context {lib : JsLibrary}.
Variables CPU_TDP_W MEM_W_PER_GB : num.

(** The frame is the title prefix, the clock reading, and a rest that
    does not depend on the clock. *)
Lemma app_empty_l (s : string) : "" +:+ s = s.
Proof. reflexivity. Qed.

Lemma render_frame_clock (system : systemSnapshot) (processes : list row)
    (battery : option batteryInfo) (powerScheme : string)
    (v : viewState) (m : machineInfo) (c : option Z) :
  exists rest : string,
    forall (t : string) (h : cpuState) (s : string) (e : list string) (sch : list num),
      render CPU_TDP_W MEM_W_PER_GB system processes battery powerScheme
        {| view := v; cpuHistory := h; machine := m; columns := c; clockText := t;
           screen := s; errorLog := e; scheduled := sch |}
      = (Normal tt,
         {| view := v; cpuHistory := h; machine := m; columns := c; clockText := t;
            screen := titlePrefix +:+ t +:+ rest; errorLog := e; scheduled := sch |}).
Proof.
  eexists. intros t h s e sch. unfold render, titlePrefix.
  cbv beta iota zeta delta [bind console_clear getWorld timestamp stdout_write
                            withScreen view machine columns clockText screen
                            cpuHistory errorLog scheduled].
  erewrite (forEach_writes
              (fun p => fst (rowColor CPU_TDP_W p) +:+ tableLine _ p
                        +:+ snd (rowColor CPU_TDP_W p) +:+ NL));
    [| intros p u; destruct (rowColor CPU_TDP_W p); reflexivity].
  cbv beta iota zeta delta [withScreen view machine columns clockText screen
                            cpuHistory errorLog scheduled].
  rewrite !app_assoc_str, app_empty_l. reflexivity.
Qed.

Lemma render_same_frame_iff (system : systemSnapshot) (processes : list row)
    (battery : option batteryInfo) (powerScheme : string) (w1 w2 : world) :
  view w1 = view w2 -> machine w1 = machine w2 -> columns w1 = columns w2 ->
  (screen (snd (render CPU_TDP_W MEM_W_PER_GB system processes battery powerScheme w1))
   = screen (snd (render CPU_TDP_W MEM_W_PER_GB system processes battery powerScheme w2))
   <-> clockText w1 = clockText w2).
Proof.
  destruct w1 as [v h m c t s e sch], w2 as [v' h' m' c' t' s' e' sch'].
  cbn [view machine columns clockText]. intros <- <- <-.
  destruct (render_frame_clock system processes battery powerScheme v m c) as [rest Hr].
  rewrite !Hr. cbn [snd screen].
  split.
  - intros H. apply String.app_inj in H. apply app_inj_r in H. exact H.
  - intros ->. reflexivity.
Qed.

End RenderClock.

(** C9, as stated, fails: with the same arguments, view state, machine
    description and terminal width, the frames rendered at two different
    clock readings differ (the title line shows the time). *)
Lemma render_frame_shows_the_time :
  let system := sampleSystem (ofZ 15) (ofQ (15 # 10)) (mkQueries 50 4194304 2097152) in
  let w1 := worldAt "12:00:00" in
  let w2 := worldAt "12:00:01" in
  view w1 = view w2 /\ machine w1 = machine w2 /\ columns w1 = columns w2
  /\ screen (snd (@render plainLibrary (ofZ 15) (ofQ (15 # 10)) system exampleRows None
                    "Balanced" w1))
     <> screen (snd (@render plainLibrary (ofZ 15) (ofQ (15 # 10)) system exampleRows None
                       "Balanced" w2)).
Proof.
  cbv zeta. split; [reflexivity |]. split; [reflexivity |]. split; [reflexivity |].
  intros H. apply render_same_frame_iff in H; try reflexivity. discriminate H.
Qed.

(** C9, amended. For fixed arguments (system snapshot, ranked processes,
    battery, power scheme), two calls of the renderer in worlds with the
    same view state, machine description, terminal width and clock reading
    leave the same frame on the screen, whatever the screen showed before;
    the call completes normally and changes nothing but the screen.  With
    the other inputs equal, the frames are equal only if the clock
    readings are. *)
Theorem render_is_a_function_of_inputs_and_clock
    (lib : JsLibrary) (CPU_TDP_W MEM_W_PER_GB : num)
    (system : systemSnapshot) (processes : list row)
    (battery : option batteryInfo) (powerScheme : string) :
  let run := render CPU_TDP_W MEM_W_PER_GB system processes battery powerScheme in
  (forall w1 w2 : world, sameRenderInputs w1 w2 ->
      screen (snd (run w1)) = screen (snd (run w2)))
  /\ (forall w : world,
        fst (run w) = Normal tt /\ snd (run w) = withScreen (screen (snd (run w))) w)
  /\ (forall w1 w2 : world,
        view w1 = view w2 -> machine w1 = machine w2 -> columns w1 = columns w2 ->
        (screen (snd (run w1)) = screen (snd (run w2)) <-> clockText w1 = clockText w2)).
Proof.
  intros run. subst run. split; [| split].
  - intros w1 w2 [Hv [Hm [Hc Ht]]].
    apply render_same_frame_iff; assumption.
  - intros w.
    destruct (render_result CPU_TDP_W MEM_W_PER_GB system processes battery powerScheme w)
      as [frame [Hf _]].
    rewrite Hf. split; reflexivity.
  - intros w1 w2. apply render_same_frame_iff.
Qed.

(** ** The tick *)

Section TickFacts.

Variable sampleSystemC : M systemSnapshot.
Variable sampleProcessesC : M (list row).
Variable sampleBatteryC : M (option batteryInfo).
Variable samplePowerSchemeC : M string.
Variable sortAndFilterC : list row -> M (list row).
Variable renderC :
  systemSnapshot -> list row -> option batteryInfo -> string -> M unit.

Lemma tick_completes (w : world) :
  let body := tickBody sampleSystemC sampleProcessesC sampleBatteryC samplePowerSchemeC
                       sortAndFilterC renderC in
  let w1 := afterCatch (fst (body w)) (snd (body w)) in
  tick sampleSystemC sampleProcessesC sampleBatteryC samplePowerSchemeC
       sortAndFilterC renderC w
  = (Normal tt, withScheduled (scheduled w1 ++ [intervalMs (view w1)]) w1).
Proof.
  intros body w1. subst w1. unfold tick, tryFinally, tryCatch. fold body.
  destruct (body w) as [[[] | e] wb]; reflexivity.
Qed.

Lemma ticks_complete (n : nat) (w : world) :
  exists w', ticks sampleSystemC sampleProcessesC sampleBatteryC samplePowerSchemeC
                   sortAndFilterC renderC n w = (Normal tt, w').
Proof.
  revert w. induction n as [|n IH]; intros w.
  - exists w. reflexivity.
  - cbn [ticks]. unfold bind at 1. rewrite tick_completes. apply IH.
Qed.

End TickFacts.

Lemma powershellJson_noData (JSON_parse : string -> option (json rawProcess)) (r : execResult) :
  noData JSON_parse r -> powershellJson JSON_parse r = None.
Proof.
  destruct r as [|stdout]; [reflexivity |]. cbn [noData powershellJson].
  intros [H | [H | H]].
  - rewrite H. reflexivity.
  - rewrite H. reflexivity.
  - rewrite H. destruct (negb (nonEmpty (trim stdout)) || bool_decide (trim stdout = "null"));
      reflexivity.
Qed.

Lemma sampleProcesses_empty (CPU_TDP_W MEM_W_PER_GB logicalCores now : num)
    (data : option (json rawProcess)) (st : cpuState) :
  sampleProcessesRaw data = [] ->
  sampleProcesses CPU_TDP_W MEM_W_PER_GB logicalCores now data st
  = ([], {| prevCpuMap := ∅; prevSampleTime := now |}).
Proof. intros H. unfold sampleProcesses. rewrite H. reflexivity. Qed.

Lemma mainTick_result (lib : JsLibrary) (CPU_TDP_W MEM_W_PER_GB : num)
    (localeCompare : string -> string -> num) (i : tickInputs) (w : world) :
  exists frame : string,
    mainTick CPU_TDP_W MEM_W_PER_GB localeCompare i w
    = (Normal tt,
       withScheduled (scheduled w ++ [intervalMs (view w)])
         (withScreen frame
            (withCpuHistory
               (snd (sampleProcesses CPU_TDP_W MEM_W_PER_GB (logicalCores (machine w))
                       (in_now i) (in_processes i) (cpuHistory w)))
               w))).
Proof.
  unfold mainTick. rewrite tick_completes. cbv zeta.
  unfold tickBody, bind, Promise_both, ret, sampleProcessesM, sortAndFilterM.
  destruct (sampleProcesses CPU_TDP_W MEM_W_PER_GB (logicalCores (machine w))
              (in_now i) (in_processes i) (cpuHistory w)) as [rows st'].
  match goal with
  | |- context [render _ _ ?s ?p ?b ?sch ?u] =>
      destruct (render_result CPU_TDP_W MEM_W_PER_GB s p b sch u) as [frame [HF _]]
  end.
  rewrite HF. cbn [fst snd afterCatch]. exists frame. reflexivity.
Qed.

(** C8. Whatever the samplers, the ranking and the renderer do in a tick,
    complete or throw, the tick itself completes normally: a thrown value
    is caught and one line is added to the error log for it, and in both
    cases the next tick is scheduled with the refresh interval of that
    moment; so any number of ticks runs to its end.  When the process
    query fails, prints nothing or [null], or prints what cannot be
    parsed, the process sampler returns the empty list (and an empty
    history); a tick of the script then still renders and schedules. *)
Theorem tick_failure_is_caught_and_next_tick_scheduled :
  (forall (sampleSystemC : M systemSnapshot) (sampleProcessesC : M (list row))
          (sampleBatteryC : M (option batteryInfo)) (samplePowerSchemeC : M string)
          (sortAndFilterC : list row -> M (list row))
          (renderC : systemSnapshot -> list row -> option batteryInfo -> string -> M unit)
          (w : world),
      let body := tickBody sampleSystemC sampleProcessesC sampleBatteryC
                           samplePowerSchemeC sortAndFilterC renderC in
      let w1 := afterCatch (fst (body w)) (snd (body w)) in
      tick sampleSystemC sampleProcessesC sampleBatteryC samplePowerSchemeC
           sortAndFilterC renderC w
      = (Normal tt, withScheduled (scheduled w1 ++ [intervalMs (view w1)]) w1)
      /\ (forall e, fst (body w) = Throw e ->
            errorLog w1 = errorLog (snd (body w)) ++ ["Error: " +:+ describe e])
      /\ (forall n : nat, exists w',
            ticks sampleSystemC sampleProcessesC sampleBatteryC samplePowerSchemeC
                  sortAndFilterC renderC n w = (Normal tt, w')))
  /\ (forall (JSON_parse : string -> option (json rawProcess)) (r : execResult)
             (tdp mem cores now : num) (st : cpuState),
        noData JSON_parse r ->
        sampleProcesses tdp mem cores now (powershellJson JSON_parse r) st
        = ([], {| prevCpuMap := ∅; prevSampleTime := now |}))
  /\ (forall (tdp mem cores now : num) (st : cpuState),
        sampleProcesses tdp mem cores now (Some (JArray [])) st
        = ([], {| prevCpuMap := ∅; prevSampleTime := now |}))
  /\ (forall (lib : JsLibrary) (tdp mem : num) (lc : string -> string -> num)
             (i : tickInputs) (w : world),
        exists frame : string,
          mainTick tdp mem lc i w
          = (Normal tt,
             withScheduled (scheduled w ++ [intervalMs (view w)])
               (withScreen frame
                  (withCpuHistory
                     (snd (sampleProcesses tdp mem (logicalCores (machine w))
                             (in_now i) (in_processes i) (cpuHistory w)))
                     w)))).
Proof.
  split; [| split; [| split]].
  - intros sS sP sB sSch sF rC w body w1. split; [apply tick_completes |]. split.
    + intros e He. subst w1. rewrite He. reflexivity.
    + intros n. apply ticks_complete.
  - intros parse r tdp mem cores now st Hr.
    rewrite (powershellJson_noData parse r Hr). apply sampleProcesses_empty. reflexivity.
  - intros tdp mem cores now st. apply sampleProcesses_empty. reflexivity.
  - intros lib tdp mem lc i w. apply mainTick_result.
Qed.

(** * Further properties of the script *)

(** ** The rows of a tick *)







Lemma sub_0_r (a : num) : sub a (ofZ 0) = a.
Proof.
  destruct a as [| | |x]; try reflexivity.
  unfold sub, ofZ. cbn [neg add]. f_equal.
  change (- Q2Qc (inject_Z 0)) with (Q2Qc 0). apply Qcplus_0_r.
Qed.

(** X2. A pid that is not in the history is compared with zero: the whole
    cumulative CPU time of the process counts as spent in the sampling
    interval.  A process first seen with 3600 CPU-seconds, one second
    after the previous sample on four logical cores, is shown at 90000
    percent. *)
Theorem first_seen_pid_counts_whole_cpu_time
    (CPU_TDP_W MEM_W_PER_GB logicalCores now : num)
    (data : option (json rawProcess)) (st : cpuState) :
  let raw := sampleProcessesRaw data in
  let rows := fst (sampleProcesses CPU_TDP_W MEM_W_PER_GB logicalCores now data st) in
  (forall (i : nat) (p : rawProcess),
      raw !! i = Some p ->
      prevCpuMap st !! NumberOr0 (ProcessId p) = None ->
      exists r, rows !! i = Some r
        /\ cpuPct r = finiteOr0 (rawCpuPct logicalCores
                                   (Math_max (ofZ 0) (specCpuSeconds p))
                                   (dtSecOf now (prevSampleTime st)))
        /\ (notNegative (specCpuSeconds p) ->
            cpuPct r = finiteOr0 (mul (div (div (specCpuSeconds p)
                                                (dtSecOf now (prevSampleTime st)))
                                           (Math_max (ofZ 1) logicalCores))
                                      (ofZ 100))))
  /\ map cpuPct
       (fst (sampleProcesses CPU_TDP_W MEM_W_PER_GB (ofZ 4) (ofZ 1000)
               (Some (JArray [mkRaw 7 36000000000 0]))
               {| prevCpuMap := ∅; prevSampleTime := ofZ 0 |}))
     = [ofZ 90000].
Proof.
  intros raw rows. split; [| by_computation].
  intros i p Hi Hnone.
  exists (sampleRow CPU_TDP_W MEM_W_PER_GB logicalCores (prevCpuMap st)
                    (dtSecOf now (prevSampleTime st)) p).
  split; [apply sampleProcesses_lookup, Hi |].
  assert (Hpct : cpuPct (sampleRow CPU_TDP_W MEM_W_PER_GB logicalCores (prevCpuMap st)
                           (dtSecOf now (prevSampleTime st)) p)
                 = finiteOr0 (rawCpuPct logicalCores
                                (Math_max (ofZ 0) (specCpuSeconds p))
                                (dtSecOf now (prevSampleTime st)))).
  { rewrite sampleRow_cpuPct_explicit. unfold prevOr0. rewrite Hnone, sub_0_r. reflexivity. }
  split; [exact Hpct |].
  intros Hnn. rewrite Hpct, (Math_max_0_id _ Hnn). reflexivity.
Qed.

(** ** Sampling the same data again *)

Lemma filter_none {A : Type} (f : A -> bool) (l : list A) :
  (forall x, In x l -> f x = false) -> List.filter f l = [].
Proof.
  induction l as [|y l IH]; intros H; [reflexivity |].
  cbn [List.filter]. rewrite (H y (or_introl eq_refl)).
  apply IH. intros x Hx. apply H. right. exact Hx.
Qed.

Lemma filter_unique_key {A : Type} (f : A -> num) (l : list A) (x : A) :
  List.NoDup (map f l) -> In x l ->
  List.filter (fun y => bool_decide (f y = f x)) l = [x].
Proof.
  induction l as [|y l IH]; intros Hnd Hx; [destruct Hx |].
  cbn [map] in Hnd. apply List.NoDup_cons_iff in Hnd as [Hny Hnd].
  cbn [List.filter]. destruct Hx as [-> | Hx].
  - rewrite bool_decide_eq_true_2 by reflexivity. f_equal.
    apply filter_none. intros z Hz. apply bool_decide_eq_false_2. intros Hzx.
    apply Hny. rewrite <- Hzx. apply in_map, Hz.
  - rewrite bool_decide_eq_false_2; [apply IH; assumption |].
    intros Hyx. apply Hny. rewrite Hyx. apply in_map, Hx.
Qed.

Lemma own_delta (c : num) :
  Math_max (ofZ 0) (sub c (orElse c (ofZ 0))) = ofZ 0
  \/ Math_max (ofZ 0) (sub c (orElse c (ofZ 0))) = NaN.
Proof.
  destruct c as [| | |x]; try (right; reflexivity).
  left. unfold orElse, truthy. case_bool_decide as Hx; cbn [negb].
  - subst x. reflexivity.
  - unfold sub, ofZ. cbn [neg add]. rewrite Qcplus_opp_r. reflexivity.
Qed.

Lemma rawCpuPct_NaN_delta (logicalCores dtSec : num) :
  rawCpuPct logicalCores NaN dtSec = NaN.
Proof. reflexivity. Qed.

(** X3. Sampling the same raw data twice in a row shows every process at
    zero percent the second time, whatever the clock readings and the
    history before the first sample were, provided no pid occurs twice in
    the data: the first tick leaves each pid with its cumulative CPU
    seconds, and the second compares each process with its own value. *)
Theorem resampling_same_data_gives_zero_percent
    (CPU_TDP_W MEM_W_PER_GB logicalCores now1 now2 : num)
    (data : option (json rawProcess)) (st : cpuState) :
  List.NoDup (map (fun p => NumberOr0 (ProcessId p)) (sampleProcessesRaw data)) ->
  let st1 := snd (sampleProcesses CPU_TDP_W MEM_W_PER_GB logicalCores now1 data st) in
  forall r, In r (fst (sampleProcesses CPU_TDP_W MEM_W_PER_GB logicalCores now2 data st1)) ->
            cpuPct r = ofZ 0.
Proof.
  intros Hnd st1 r Hr. subst st1. unfold sampleProcesses in Hr. cbn [fst snd prevCpuMap prevSampleTime] in Hr.
  apply in_map_iff in Hr as [p [<- Hp]].
  rewrite sampleRow_cpuPct_explicit.
  set (rows1 := map (sampleRow CPU_TDP_W MEM_W_PER_GB logicalCores (prevCpuMap st)
                       (dtSecOf now1 (prevSampleTime st))) (sampleProcessesRaw data)).
  set (r1 := sampleRow CPU_TDP_W MEM_W_PER_GB logicalCores (prevCpuMap st)
               (dtSecOf now1 (prevSampleTime st)) p).
  assert (Hprev : prevOr0 (rebuildCpuMap rows1) (NumberOr0 (ProcessId p))
                  = orElse (specCpuSeconds p) (ofZ 0)).
  { unfold prevOr0. rewrite rebuildCpuMap_lookup.
    assert (Hf : List.filter (fun r => bool_decide (pid r = pid r1)) rows1 = [r1]).
    { apply (filter_unique_key pid rows1 r1).
      - subst rows1. rewrite map_map. exact Hnd.
      - subst rows1 r1. apply in_map, Hp. }
    change (NumberOr0 (ProcessId p)) with (pid r1). rewrite Hf. reflexivity. }
  rewrite Hprev.
  destruct (own_delta (specCpuSeconds p)) as [-> | ->].
  - apply rawCpuPct_0, dtSecOf_aboveZero.
  - reflexivity.
Qed.

(** X3 on a two-process sample. *)
Lemma resampling_two_processes :
  let data := Some (JArray [mkRaw 4 20000000 0; mkRaw 8 50000000 4096]) in
  List.NoDup (map (fun p => NumberOr0 (ProcessId p)) (sampleProcessesRaw data))
  /\ forall r,
       In r (fst (sampleProcesses (ofZ 15) (ofQ (15 # 10)) (ofZ 4) (ofZ 2000) data
                    (snd (sampleProcesses (ofZ 15) (ofQ (15 # 10)) (ofZ 4) (ofZ 1000) data
                            {| prevCpuMap := ∅; prevSampleTime := ofZ 0 |})))) ->
       cpuPct r = ofZ 0.
Proof.
  assert (Hnd : List.NoDup (map (fun p => NumberOr0 (ProcessId p))
                   (sampleProcessesRaw
                      (Some (JArray [mkRaw 4 20000000 0; mkRaw 8 50000000 4096]))))).
  { cbn. repeat constructor; cbn; intros H; repeat destruct H as [H | H]; try discriminate H;
      try exact H.
    all: revert H; apply (bool_decide_eq_false_1 _); vm_compute; reflexivity. }
  cbv zeta. split; [exact Hnd |].
  apply (resampling_same_data_gives_zero_percent (ofZ 15) (ofQ (15 # 10)) (ofZ 4)
           (ofZ 1000) (ofZ 2000)
           (Some (JArray [mkRaw 4 20000000 0; mkRaw 8 50000000 4096]))
           {| prevCpuMap := ∅; prevSampleTime := ofZ 0 |} Hnd).
Defined.

(** ** The system snapshot *)

Lemma orElse_0_not_NaN (a : num) : orElse a (ofZ 0) <> NaN.
Proof. destruct a as [| | |q]; try discriminate. unfold orElse. destruct (truthy (Fin q)); discriminate. Qed.

Lemma clamp_percent_range (x : num) :
  x <> NaN ->
  exists c, Math_max (ofZ 0) (Math_min (ofZ 100) x) = Fin c
            /\ 0 <= c /\ c <= Q2Qc (inject_Z 100).
Proof.
  intros Hx. destruct x as [| | |q]; [congruence | | |].
  - exists (Q2Qc (inject_Z 100)). split; [reflexivity |]. split; [discriminate | apply Qcle_refl].
  - exists 0. split; [reflexivity |]. split; [apply Qcle_refl | discriminate].
  - destruct (Math_min_Fin (Q2Qc (inject_Z 100)) q) as [z [Hz [Hz100 Hzq]]].
    change (ofZ 100) with (Fin (Q2Qc (inject_Z 100))). rewrite Hz.
    destruct (Math_max_Fin (Q2Qc (inject_Z 0)) z) as [c [Hc [Hc0 Hcz]]].
    change (ofZ 0) with (Fin (Q2Qc (inject_Z 0))). rewrite Hc.
    exists c. split; [reflexivity |]. split; [exact Hc0 |].
    destruct (Math_max_Fin_cases (Q2Qc (inject_Z 0)) z) as [H | H];
      rewrite H in Hc; injection Hc as <-; [discriminate | exact Hz100].
Qed.

Lemma sampleSystem_cpu_not_NaN (CPU_TDP_W MEM_W_PER_GB : num) (q : systemQueries) :
  cpu (sampleSystem CPU_TDP_W MEM_W_PER_GB q) <> NaN.
Proof.
  unfold sampleSystem. destruct (sampleMemory q) as [t u]. cbn [cpu].
  destruct (cpuCounter q); [apply orElse_0_not_NaN | discriminate].
Qed.

(** X4. With a finite TDP that is not negative, the CPU part of the system
    estimate lies between 0 and the TDP, whatever the counters return
    (an unparsable, negative, infinite or over-100 reading included), and
    the CPU reading kept in the snapshot is never NaN. *)
Theorem system_cpu_watts_within_tdp (tdp : Qc) (MEM_W_PER_GB : num) (q : systemQueries) :
  0 <= tdp ->
  let s := sampleSystem (Fin tdp) MEM_W_PER_GB q in
  cpu s <> NaN /\ exists w, cpuW s = Fin w /\ 0 <= w /\ w <= tdp.
Proof.
  intros Ht s. split; [apply sampleSystem_cpu_not_NaN |].
  destruct (sampleSystem_watts (Fin tdp) MEM_W_PER_GB q) as [Hc _]. fold s in Hc.
  rewrite Hc. unfold clamp.
  destruct (clamp_percent_range (cpu s) (sampleSystem_cpu_not_NaN _ _ q)) as [c [-> [Hc0 Hc100]]].
  change (ofZ 100) with (Fin (Q2Qc (inject_Z 100))). cbn [div].
  rewrite bool_decide_eq_false_2 by discriminate. cbn [mul].
  eexists. split; [reflexivity |].
  unfold Qcle in *. cbn [this Qcmult Qcdiv Qcinv Q2Qc] in *.
  rewrite !Qred_correct in *.
  change (/ inject_Z 100)%Q with (1 # 100)%Q.
  change (inject_Z 100) with (100 # 1)%Q in Hc100.
  split; nra.
Qed.

(** X4 at a TDP of 15 W with a counter reading of 250 percent. *)
Lemma system_cpu_watts_at_250_percent :
  0 <= Q2Qc (inject_Z 15)
  /\ exists w, cpuW (sampleSystem (ofZ 15) (ofQ (15 # 10)) (mkQueries 250 4194304 2097152))
               = Fin w /\ 0 <= w /\ w <= Q2Qc (inject_Z 15).
Proof.
  assert (H : 0 <= Q2Qc (inject_Z 15)) by discriminate.
  split; [exact H |].
  apply (system_cpu_watts_within_tdp (Q2Qc (inject_Z 15)) (ofQ (15 # 10))
           (mkQueries 250 4194304 2097152) H).
Defined.

Lemma sampleSystem_memory (CPU_TDP_W MEM_W_PER_GB : num) (q : systemQueries) :
  totalMem (sampleSystem CPU_TDP_W MEM_W_PER_GB q) = fst (sampleMemory q)
  /\ usedMem (sampleSystem CPU_TDP_W MEM_W_PER_GB q) = snd (sampleMemory q).
Proof. unfold sampleSystem. destruct (sampleMemory q) as [t u]. split; reflexivity. Qed.

Lemma truthy_NumberOr0 (a : num) : truthy a = true -> NumberOr0 (Some a) = a.
Proof. intros H. unfold NumberOr0, orElse. rewrite H. reflexivity. Qed.

Lemma sampleMemory_usable (q : systemQueries) (totalKB freeKB : num) :
  usableCounters q totalKB freeKB ->
  sampleMemory q
  = (mul totalKB (ofZ 1024),
     Math_max (ofZ 0) (sub (mul totalKB (ofZ 1024)) (mul freeKB (ofZ 1024)))).
Proof.
  intros (data & m & Hd & Hm & Ht & Hf & Htt & Hft).
  unfold sampleMemory. rewrite Hd, Hm, Ht, Hf. cbn [bothTruthy]. rewrite Htt, Hft.
  cbn [andb]. rewrite !truthy_NumberOr0 by assumption. reflexivity.
Qed.

Lemma sampleMemory_fallback (q : systemQueries) :
  noUsableCounters q ->
  sampleMemory q = (os_totalmem q, sub (os_totalmem q) (os_freemem q)).
Proof.
  intros Hno. unfold sampleMemory.
  destruct (memJson q) as [data|] eqn:Hd; [| reflexivity].
  destruct (firstOrSelf data) as [m|] eqn:Hm; [| reflexivity].
  destruct (bothTruthy (TotalVisibleMemorySize m) (FreePhysicalMemory m)) eqn:Hb;
    [| reflexivity].
  exfalso. unfold bothTruthy in Hb.
  destruct (TotalVisibleMemorySize m) as [t|] eqn:Ht; [| discriminate].
  destruct (FreePhysicalMemory m) as [f|] eqn:Hf; [| discriminate].
  apply andb_true_iff in Hb as [Htt Hft].
  apply (Hno t f). exists data, m. repeat split; assumption.
Qed.

Lemma usable_or_not (q : systemQueries) :
  (exists totalKB freeKB, usableCounters q totalKB freeKB) \/ noUsableCounters q.
Proof.
  destruct (memJson q) as [data|] eqn:Hd.
  2: { right. intros t f (d & m & H & _). congruence. }
  destruct (firstOrSelf data) as [m|] eqn:Hm.
  2: { right. intros t f (d & m & H1 & H2 & _). congruence. }
  destruct (TotalVisibleMemorySize m) as [t|] eqn:Ht.
  2: { right. intros t f (d & m' & H1 & H2 & H3 & _). congruence. }
  destruct (FreePhysicalMemory m) as [f|] eqn:Hf.
  2: { right. intros t' f (d & m' & H1 & H2 & H3 & H4 & _). congruence. }
  destruct (truthy t) eqn:Htt.
  2: { right. intros t' f' (d & m' & H1 & H2 & H3 & H4 & H5 & _).
       assert (m' = m) by congruence. subst m'. congruence. }
  destruct (truthy f) eqn:Hft.
  2: { right. intros t' f' (d & m' & H1 & H2 & H3 & H4 & H5 & H6).
       assert (m' = m) by congruence. subst m'. congruence. }
  left. exists t, f, data, m. repeat split; assumption.
Qed.

(** X5. The two memory figures of a snapshot always come from the same
    source: when the memory query returns both counters, present, non-zero
    and not NaN, the total is [totalKB * 1024] and the used memory is
    [max(0, totalKB * 1024 - freeKB * 1024)], which is never negative;
    in every other case (no answer, an empty array, a missing or zero
    counter) both figures are the ones of the host, [os.totalmem()] and
    [os.totalmem() - os.freemem()].  One of the two cases always
    applies. *)
Theorem system_memory_from_one_source (CPU_TDP_W MEM_W_PER_GB : num) (q : systemQueries) :
  let s := sampleSystem CPU_TDP_W MEM_W_PER_GB q in
  (forall totalKB freeKB, usableCounters q totalKB freeKB ->
      totalMem s = mul totalKB (ofZ 1024)
      /\ usedMem s = Math_max (ofZ 0) (sub (mul totalKB (ofZ 1024)) (mul freeKB (ofZ 1024)))
      /\ notNegative (usedMem s))
  /\ (noUsableCounters q ->
      totalMem s = os_totalmem q /\ usedMem s = sub (os_totalmem q) (os_freemem q))
  /\ ((exists totalKB freeKB, usableCounters q totalKB freeKB) \/ noUsableCounters q).
Proof.
  intros s. destruct (sampleSystem_memory CPU_TDP_W MEM_W_PER_GB q) as [Ht Hu].
  fold s in Ht, Hu. split; [| split].
  - intros t f H. rewrite Ht, Hu, (sampleMemory_usable q t f H). cbn [fst snd].
    split; [reflexivity |]. split; [reflexivity | apply Math_max_0_notNegative].
  - intros H. rewrite Ht, Hu, (sampleMemory_fallback q H). split; reflexivity.
  - apply usable_or_not.
Qed.

(** X6. A sub-query that fails only costs its own field: without an
    answer from the CPU counter (or with an unparsable or zero one) the
    CPU reading is 0 and, for a finite TDP, so are the CPU watts; without
    a process count the count is 0; without an uptime (or with a blank
    one) it reads "N/A"; each of these holds whatever the other queries
    returned, and each field depends on its own query only. *)
Theorem system_queries_fail_independently (CPU_TDP_W MEM_W_PER_GB : num) :
  (forall q, cpuCounter q = None \/ cpuCounter q = Some NaN \/ cpuCounter q = Some (ofZ 0) ->
      cpu (sampleSystem CPU_TDP_W MEM_W_PER_GB q) = ofZ 0
      /\ (Number_isFinite CPU_TDP_W = true ->
          cpuW (sampleSystem CPU_TDP_W MEM_W_PER_GB q) = ofZ 0))
  /\ (forall q, processCounter q = None \/ processCounter q = Some NaN ->
        procCount (sampleSystem CPU_TDP_W MEM_W_PER_GB q) = ofZ 0)
  /\ (forall q, uptimeOut q = ExecFail \/ (exists out, uptimeOut q = ExecOk out /\ trim out = "") ->
        uptime (sampleSystem CPU_TDP_W MEM_W_PER_GB q) = "N/A")
  /\ (forall q q', cpuCounter q = cpuCounter q' ->
        cpu (sampleSystem CPU_TDP_W MEM_W_PER_GB q) = cpu (sampleSystem CPU_TDP_W MEM_W_PER_GB q')
        /\ cpuW (sampleSystem CPU_TDP_W MEM_W_PER_GB q)
           = cpuW (sampleSystem CPU_TDP_W MEM_W_PER_GB q'))
  /\ (forall q q', processCounter q = processCounter q' ->
        procCount (sampleSystem CPU_TDP_W MEM_W_PER_GB q)
        = procCount (sampleSystem CPU_TDP_W MEM_W_PER_GB q'))
  /\ (forall q q', uptimeOut q = uptimeOut q' ->
        uptime (sampleSystem CPU_TDP_W MEM_W_PER_GB q)
        = uptime (sampleSystem CPU_TDP_W MEM_W_PER_GB q')).
Proof.
  assert (Hcpu : forall q, cpu (sampleSystem CPU_TDP_W MEM_W_PER_GB q)
                 = match cpuCounter q with Some v => orElse v (ofZ 0) | None => ofZ 0 end).
  { intros q. unfold sampleSystem. destruct (sampleMemory q). reflexivity. }
  assert (Hproc : forall q, procCount (sampleSystem CPU_TDP_W MEM_W_PER_GB q)
                 = match processCounter q with Some v => orElse v (ofZ 0) | None => ofZ 0 end).
  { intros q. unfold sampleSystem. destruct (sampleMemory q). reflexivity. }
  assert (Hup : forall q, uptime (sampleSystem CPU_TDP_W MEM_W_PER_GB q)
                 = match uptimeOut q with
                   | ExecOk stdout => if nonEmpty (trim stdout) then trim stdout else "N/A"
                   | ExecFail => "N/A"
                   end).
  { intros q. unfold sampleSystem. destruct (sampleMemory q). reflexivity. }
  assert (Hw : forall q, cpuW (sampleSystem CPU_TDP_W MEM_W_PER_GB q)
                 = mul (div (clamp (cpu (sampleSystem CPU_TDP_W MEM_W_PER_GB q))
                                   (ofZ 0) (ofZ 100)) (ofZ 100)) CPU_TDP_W).
  { intros q. apply sampleSystem_watts. }
  split; [| split; [| split; [| split; [| split]]]].
  - intros q Hq.
    assert (H0 : cpu (sampleSystem CPU_TDP_W MEM_W_PER_GB q) = ofZ 0).
    { rewrite Hcpu. destruct Hq as [-> | [-> | ->]]; reflexivity. }
    split; [exact H0 |]. intros Hfin. rewrite Hw, H0.
    destruct CPU_TDP_W as [| | |t]; try discriminate.
    assert (Hz : div (clamp (ofZ 0) (ofZ 0) (ofZ 100)) (ofZ 100) = ofZ 0) by by_computation.
    rewrite Hz. unfold ofZ. cbn [mul]. f_equal. apply Qcmult_0_l.
  - intros q Hq. rewrite Hproc. destruct Hq as [-> | ->]; reflexivity.
  - intros q Hq. rewrite Hup. destruct Hq as [-> | [out [-> Ho]]]; [reflexivity |].
    rewrite Ho. reflexivity.
  - intros q q' H. split; [rewrite !Hcpu, H; reflexivity |].
    rewrite !Hw, !Hcpu, H. reflexivity.
  - intros q q' H. rewrite !Hproc, H. reflexivity.
  - intros q q' H. rewrite !Hup, H. reflexivity.
Qed.

(** ** Seeding the history *)

Lemma foldl_map_fusion {A B C : Type} (f : C -> B -> C) (g : A -> B) (l : list A) (c : C) :
  foldl f c (map g l) = foldl (fun m x => f m (g x)) c l.
Proof. revert c. induction l as [|x l IH]; intros c; [reflexivity | apply IH]. Qed.

(** X7. The loop of [main] that seeds the CPU history stores exactly what
    a tick over the same data and clock reading stores: the same
    pid -> CPU seconds entries and the same sample time, whatever the
    power knobs, the core count and the history before the tick are. *)
Theorem seeding_stores_what_a_tick_stores
    (CPU_TDP_W MEM_W_PER_GB logicalCores now : num)
    (data : option (json rawProcess)) (st : cpuState) :
  seedCpuState now data
  = snd (sampleProcesses CPU_TDP_W MEM_W_PER_GB logicalCores now data st).
Proof.
  unfold seedCpuState, sampleProcesses. cbn [snd]. f_equal.
  unfold rebuildCpuMap. rewrite foldl_map_fusion. reflexivity.
Qed.

(** ** The size of the ranking *)

Lemma Array_sort_length {A : Type} (c : A -> A -> num) (l : list A) :
  length (Array_sort c l) = length l.
Proof. apply Permutation_length, Array_sort_Permutation. Qed.

Lemma filterRows_length (v : viewState) (rows : list row) :
  (length (filterRows v rows) <= length rows)%nat.
Proof.
  unfold filterRows, filterRowsBy. destruct (nonEmpty (filterStr v)); [apply List.filter_length_le | lia].
Qed.

Lemma Array_sliceTo_length {A : Type} (l : list A) (n : num) :
  (length (Array_sliceTo l n) <= length l)%nat.
Proof.
  destruct n as [| | |q]; cbn [Array_sliceTo length]; try lia.
  destruct (truncQ q <? 0)%Z; rewrite length_take; lia.
Qed.

Lemma Array_sliceTo_negative {A : Type} (l : list A) (n : Z) :
  (n < 0)%Z ->
  Array_sliceTo l (ofZ n) = take (length l - Z.to_nat (- n)) l.
Proof.
  intros Hn. unfold Array_sliceTo, ofZ. rewrite truncQ_ofZ.
  destruct (Z.ltb_spec n 0); [| lia]. f_equal. lia.
Qed.

(** X8. The ranking never shows more rows than the filter keeps, and every
    row it shows is a row of the sample.  With [topN] a whole number that
    is not negative it shows exactly [min(topN, kept)] rows; with a
    negative [topN] (as [--top -3] sets it) it shows all the kept rows but
    the last [-topN] of the sorted list; with [topN] infinite it shows all
    of them.  This holds for every sort key, direction and collation. *)
Theorem ranking_size
    (localeCompare : string -> string -> num) (v : viewState) (rows : list row) :
  let kept := filterRows v rows in
  let shown := sortAndFilterProcesses localeCompare v rows in
  (length shown <= length kept <= length rows)%nat
  /\ (forall r, In r shown -> In r rows)
  /\ (forall n : Z, (0 <= n)%Z -> topN v = ofZ n ->
        length shown = Nat.min (Z.to_nat n) (length kept))
  /\ (forall n : Z, (n < 0)%Z -> topN v = ofZ n ->
        length shown = (length kept - Z.to_nat (- n))%nat
        /\ shown = take (length kept - Z.to_nat (- n))
                     (Array_sort (rankComparator localeCompare v) kept))
  /\ (topN v = PInf -> Permutation shown kept).
Proof.
  intros kept shown. subst shown. unfold sortAndFilterProcesses. fold kept.
  pose proof (Array_sort_length (rankComparator localeCompare v) kept) as Hlen.
  split; [| split; [| split; [| split]]].
  - split; [| apply filterRows_length].
    rewrite <- Hlen. apply Array_sliceTo_length.
  - intros r Hr. apply Array_sliceTo_In in Hr.
    apply (Permutation_in _ (Array_sort_Permutation _ _)) in Hr.
    apply filterRows_In in Hr. tauto.
  - intros n Hn Htop. rewrite Htop, Array_sliceTo_ofZ by exact Hn.
    rewrite length_take, Hlen. reflexivity.
  - intros n Hn Htop. rewrite Htop, Array_sliceTo_negative by exact Hn.
    rewrite Hlen. split; [| reflexivity]. rewrite length_take, Hlen. lia.
  - intros Htop. rewrite Htop. apply Array_sort_Permutation.
Qed.

(** ** What the keys can change *)


Lemma onlyIf_keeps (P : viewState -> Prop) (b : bool) (f : viewState -> viewState)
    (v : viewState) :
  (forall u, P u -> P (f u)) -> P v -> P (onlyIf b f v).
Proof. intros Hf Hv. unfold onlyIf. destruct b; [apply Hf, Hv | exact Hv]. Qed.

Lemma onKey_keeps (P : viewState -> Prop) (key : string) (v v' : viewState) :
  (forall k d u, knownSortKey k -> P u -> P (setSort k d u)) ->
  (forall d u, P u -> P (setSort (sortBy u) d u)) ->
  (forall ms u, P u -> P (setInterval ms u)) ->
  P v -> onKey key v = Some v' -> P v'.
Proof.
  intros Hs Hr Hi Hv. unfold onKey.
  destruct (isKey key ctrlC || isKey key "q"); [discriminate |].
  intros [= <-].
  repeat (apply onlyIf_keeps;
          [intros u Hu;
           first [apply Hi; exact Hu | apply Hr; exact Hu
                 | apply Hs; [unfold knownSortKey; simpl; tauto | exact Hu]] |]).
  exact Hv.
Qed.

Lemma onKeys_keeps (P : viewState -> Prop) (keys : list string) (v v' : viewState) :
  (forall k d u, knownSortKey k -> P u -> P (setSort k d u)) ->
  (forall d u, P u -> P (setSort (sortBy u) d u)) ->
  (forall ms u, P u -> P (setInterval ms u)) ->
  P v -> onKeys keys v = Some v' -> P v'.
Proof.
  intros Hs Hr Hi. revert v. induction keys as [|k ks IH]; intros v Hv; cbn [onKeys].
  - intros [= <-]. exact Hv.
  - destruct (onKey k v) as [v1|] eqn:E; [| discriminate].
    apply IH. eapply onKey_keeps; eassumption.
Qed.



Section InputFacts.

Context {lib : JsLibrary}.
Variable isTTY : bool.












End InputFacts.


(** ** The progress bar *)

Lemma progressBar_counts (percentage : num) (width : Z) :
  progressBar percentage width
  = repeatStr "█" (repeatCount (barFilled percentage width))
    +:+ repeatStr " " (repeatCount (barEmpty percentage width)).
Proof. reflexivity. Qed.

Lemma repeatCount_ofZ (k : Z) : repeatCount (ofZ k) = Z.to_nat k.
Proof. unfold repeatCount, ofZ. rewrite truncQ_ofZ. reflexivity. Qed.

Lemma sub_ofZ (a b : Z) : sub (ofZ a) (ofZ b) = ofZ (a - b).
Proof.
  unfold sub, ofZ. cbn [neg add]. f_equal. apply Qc_is_canon.
  cbn [this Qcplus Qcopp Q2Qc]. rewrite !Qred_correct.
  unfold Z.sub. rewrite inject_Z_plus, inject_Z_opp. reflexivity.
Qed.

Lemma round_scaled_range (c : Qc) (w : Z) :
  0 <= c -> c <= Q2Qc (inject_Z 100) -> (0 <= w)%Z ->
  (0 <= Qfloor (c / Q2Qc (inject_Z 100) * Q2Qc (inject_Z w) + Q2Qc (1 # 2))%Qc <= w)%Z.
Proof.
  intros Hc0 Hc100 Hw. unfold Qcle in Hc0, Hc100.
  cbn [this Q2Qc Qcplus Qcmult Qcdiv Qcinv] in *. rewrite !Qred_correct in *.
  change (/ inject_Z 100)%Q with (1 # 100)%Q.
  change (inject_Z 100) with (100 # 1)%Q in Hc100.
  assert (HW : (inject_Z 0 <= inject_Z w)%Q) by (rewrite <- Zle_Qle; exact Hw).
  change (inject_Z 0) with 0%Q in HW.
  set (W := inject_Z w) in *. set (x := (this c * (1 # 100) * W + (1 # 2))%Q).
  assert (Hx0 : (0 <= x)%Q) by (subst x; nra).
  assert (Hx1 : (x < W + 1)%Q) by (subst x; nra).
  split.
  - change 0%Z with (Qfloor (inject_Z 0)). apply Qfloor_resp_le. exact Hx0.
  - assert (H : (inject_Z (Qfloor x) < inject_Z (w + 1))%Q).
    { eapply Qle_lt_trans; [apply Qfloor_le |].
      rewrite inject_Z_plus. exact Hx1. }
    rewrite <- Zlt_Qlt in H. lia.
Qed.

Lemma barFilled_formula (percentage : num) (width : Z) (c : Qc) :
  Math_max (ofZ 0) (Math_min (ofZ 100) (orElse percentage (ofZ 0))) = Fin c ->
  barFilled percentage width
  = ofZ (Qfloor (c / Q2Qc (inject_Z 100) * Q2Qc (inject_Z width) + Q2Qc (1 # 2))%Qc).
Proof.
  intros Hc. unfold barFilled. rewrite Hc.
  change (ofZ 100) with (Fin (Q2Qc (inject_Z 100))). cbn [div].
  rewrite bool_decide_eq_false_2 by discriminate. reflexivity.
Qed.

Lemma Qfloor_unique (x : Q) (k : Z) :
  (inject_Z k <= x)%Q -> (x < inject_Z (k + 1))%Q -> Qfloor x = k.
Proof.
  intros Hlo Hhi.
  assert (H1 : (inject_Z (Qfloor x) < inject_Z (k + 1))%Q).
  { eapply Qle_lt_trans; [apply Qfloor_le | exact Hhi]. }
  assert (H2 : (inject_Z k < inject_Z (Qfloor x + 1))%Q).
  { eapply Qle_lt_trans; [exact Hlo | apply Qlt_floor]. }
  rewrite <- Zlt_Qlt in H1, H2. lia.
Qed.

Lemma round_scaled_0 (w : Z) :
  Qfloor (Q2Qc (inject_Z 0) / Q2Qc (inject_Z 100) * Q2Qc (inject_Z w) + Q2Qc (1 # 2))%Qc = 0%Z.
Proof.
  apply Qfloor_unique; cbn [this Q2Qc Qcplus Qcmult Qcdiv Qcinv]; rewrite !Qred_correct;
    change (/ inject_Z 100)%Q with (1 # 100)%Q; change (inject_Z 0) with (0 # 1)%Q;
    change (inject_Z (0 + 1)) with (1 # 1)%Q; lra.
Qed.

Lemma round_scaled_100 (w : Z) :
  Qfloor (Q2Qc (inject_Z 100) / Q2Qc (inject_Z 100) * Q2Qc (inject_Z w) + Q2Qc (1 # 2))%Qc = w.
Proof.
  apply Qfloor_unique; cbn [this Q2Qc Qcplus Qcmult Qcdiv Qcinv]; rewrite !Qred_correct;
    change (/ inject_Z 100)%Q with (1 # 100)%Q; change (inject_Z 100) with (100 # 1)%Q;
    rewrite ?inject_Z_plus; change (inject_Z 1) with (1 # 1)%Q; lra.
Qed.

Lemma clamp_percent_low (p : num) :
  gtb p (ofZ 0) = false ->
  Math_max (ofZ 0) (Math_min (ofZ 100) (orElse p (ofZ 0))) = ofZ 0.
Proof.
  intros Hp. destruct p as [| | |q]; [reflexivity | discriminate Hp | reflexivity |].
  assert (Hq : q <= Q2Qc (inject_Z 0)) by (apply ltb_Fin_false; exact Hp).
  assert (Ho : orElse (Fin q) (ofZ 0) = Fin q \/ orElse (Fin q) (ofZ 0) = ofZ 0).
  { unfold orElse. destruct (truthy (Fin q)); auto. }
  destruct Ho as [-> | ->]; [| reflexivity].
  rewrite Math_min_100_id by (eapply Qcle_trans; [exact Hq | discriminate]).
  unfold gtb in Hp. unfold Math_max. change (ofZ 0) with (Fin (Q2Qc (inject_Z 0))) in *.
  rewrite Hp. reflexivity.
Qed.

Lemma clamp_percent_high (p : num) :
  leb (ofZ 100) p = true ->
  Math_max (ofZ 0) (Math_min (ofZ 100) (orElse p (ofZ 0))) = ofZ 100.
Proof.
  intros Hp. destruct p as [| | |q]; [discriminate Hp | reflexivity | discriminate Hp |].
  change (ofZ 100) with (Fin (Q2Qc (inject_Z 100))) in *.
  unfold leb in Hp. apply negb_true_iff in Hp.
  assert (Hq : Q2Qc (inject_Z 100) <= q) by (apply ltb_Fin_false; exact Hp).
  assert (Ho : orElse (Fin q) (ofZ 0) = Fin q).
  { unfold orElse, truthy. case_bool_decide as E; [| reflexivity].
    subst q. exfalso. revert Hq. apply Qclt_not_le. reflexivity. }
  rewrite Ho. unfold Math_min. rewrite Hp. reflexivity.
Qed.

(** X10. For a width that is not negative the bar has exactly [width]
    cells, whatever the percentage is (NaN and the infinities included):
    [filled] is a whole number between 0 and [width] and [empty] is
    [width - filled], so that [repeat] never receives a negative count.
    No cell is filled when the percentage is NaN, zero or negative, and
    all are when it is 100 or more. *)
Theorem progressBar_fills_exactly_width (percentage : num) (width : Z) :
  (0 <= width)%Z ->
  exists k : Z,
    (0 <= k <= width)%Z
    /\ barFilled percentage width = ofZ k
    /\ barEmpty percentage width = ofZ (width - k)
    /\ progressBar percentage width
       = repeatStr "█" (Z.to_nat k) +:+ repeatStr " " (Z.to_nat (width - k))
    /\ (gtb percentage (ofZ 0) = false -> k = 0%Z)
    /\ (leb (ofZ 100) percentage = true -> k = width).
Proof.
  intros Hw.
  destruct (clamp_percent_range (orElse percentage (ofZ 0)) (orElse_0_not_NaN percentage))
    as [c [Hc [Hc0 Hc100]]].
  pose proof (barFilled_formula percentage width c Hc) as Hk.
  pose proof (round_scaled_range c width Hc0 Hc100 Hw) as Hr.
  set (k := Qfloor (c / Q2Qc (inject_Z 100) * Q2Qc (inject_Z width) + Q2Qc (1 # 2))%Qc) in *.
  exists k.
  assert (He : barEmpty percentage width = ofZ (width - k)).
  { unfold barEmpty. rewrite Hk. apply sub_ofZ. }
  split; [exact Hr |]. split; [exact Hk |]. split; [exact He |].
  split; [rewrite progressBar_counts, Hk, He, !repeatCount_ofZ; reflexivity |].
  split.
  - intros Hle. rewrite (clamp_percent_low percentage Hle) in Hc.
    injection Hc as <-. subst k. apply round_scaled_0.
  - intros Hge. rewrite (clamp_percent_high percentage Hge) in Hc.
    injection Hc as <-. subst k. apply round_scaled_100.
Qed.

(** X10 for a bar of 40 cells at 50 percent: 20 cells are filled. *)
Lemma progressBar_half_of_40 :
  (0 <= 40)%Z
  /\ exists k : Z,
       (0 <= k <= 40)%Z
       /\ barFilled (ofZ 50) 40 = ofZ k
       /\ barEmpty (ofZ 50) 40 = ofZ (40 - k)
       /\ progressBar (ofZ 50) 40
          = repeatStr "█" (Z.to_nat k) +:+ repeatStr " " (Z.to_nat (40 - k))
       /\ (gtb (ofZ 50) (ofZ 0) = false -> k = 0%Z)
       /\ (leb (ofZ 100) (ofZ 50) = true -> k = 40%Z).
Proof.
  assert (H : (0 <= 40)%Z) by lia.
  split; [exact H |]. apply (progressBar_fills_exactly_width (ofZ 50) 40 H).
Defined.

(** ** The command line *)

Lemma indexOf_None (argv : list string) (x : string) :
  indexOf argv x = None <-> ~ In x argv.
Proof.
  induction argv as [|y argv IH]; cbn [indexOf In]; [tauto |].
  case_bool_decide as E.
  - split; [discriminate | intros H; destruct H; left; exact E].
  - destruct (indexOf argv x); cbn [option_map].
    + split; [discriminate |]. intros H.
      assert (Hn : ~ In x argv) by tauto. apply IH in Hn. discriminate Hn.
    + split; [| reflexivity]. intros _ [H | H]; [exact (E H) |].
      exact (proj1 IH eq_refl H).
Qed.

Lemma indexOf_Some (argv : list string) (x : string) (i : nat) :
  indexOf argv x = Some i ->
  argv !! i = Some x /\ forall j, (j < i)%nat -> argv !! j <> Some x.
Proof.
  revert i. induction argv as [|y argv IH]; intros i; cbn [indexOf]; [discriminate |].
  case_bool_decide as E.
  - intros [= <-]. subst y. split; [reflexivity | intros j Hj; lia].
  - destruct (indexOf argv x) as [k|]; cbn [option_map]; [| discriminate].
    intros [= <-]. destruct (IH k eq_refl) as [Hk Hbefore].
    split; [exact Hk |]. intros [|j] Hj; cbn.
    + intros [= H]. exact (E H).
    + apply Hbefore. lia.
Qed.

Lemma lookup_In {A : Type} (l : list A) (i : nat) (x : A) : l !! i = Some x -> In x l.
Proof.
  revert i. induction l as [|y l IH]; intros [|i]; cbn; try discriminate.
  - intros [= ->]. left. reflexivity.
  - intros H. right. exact (IH i H).
Qed.

Lemma nth_lookup_Some (l : list string) (i : nat) :
  (i < length l)%nat -> l !! i = Some (nth i l "").
Proof.
  revert i. induction l as [|x l IH]; intros [|i] H; cbn in *; try lia; [reflexivity |].
  apply IH. lia.
Qed.

Lemma getArg_step (argv names : list string) (n fallback : string) :
  getArg argv (n :: names) fallback
  = match valueAfter argv n with
    | Some a => a
    | None => getArg argv names fallback
    end.
Proof.
  cbn [getArg]. unfold valueAfter. destruct (indexOf argv n) as [idx|]; [| reflexivity].
  case_bool_decide as H.
  - rewrite (nth_lookup_Some argv (idx + 1) H). reflexivity.
  - rewrite (proj2 (lookup_ge_None argv (idx + 1)%nat)) by lia. reflexivity.
Qed.

Lemma valueAfter_absent (argv : list string) (n : string) :
  ~ In n argv -> valueAfter argv n = None.
Proof. intros H. unfold valueAfter. rewrite (proj2 (indexOf_None argv n) H). reflexivity. Qed.

Lemma parsedOr_truthy (parsed : option Z) (fallback : Z) :
  fallback <> 0%Z -> truthy (parsedOr parsed fallback) = true.
Proof.
  intros Hf.
  assert (Ht : truthy (ofZ fallback) = true).
  { unfold ofZ, truthy. case_bool_decide as E; [| reflexivity].
    exfalso. apply Q2Qc_eq_iff in E. unfold Qeq in E. simpl in E. lia. }
  destruct parsed as [z|]; [| exact Ht]. cbn [parsedOr]. unfold orElse.
  destruct (truthy (ofZ z)) eqn:E; [exact E | exact Ht].
Qed.

(** X11. The view that the script starts with.  Whatever the command line
    holds, the refresh interval and [topN] are never NaN and never zero,
    and the view is sorted by cpu, descending, without a filter.  Each of
    the two numbers is read from the argument that follows the first
    occurrence of its long name, else of its short name, and is the default
    (1000, 20) when neither name occurs, when the name is the last
    argument, or when the text does not start with a number or reads as
    zero.  The text is not validated further: trailing characters are
    ignored and a negative number is taken as it is. *)
Theorem startup_view_from_command_line :
  (forall argv : list string,
      let v := startupView argv in
      truthy (intervalMs v) = true /\ truthy (topN v) = true
      /\ sortBy v = "cpu" /\ sortDesc v = true /\ filterStr v = "")
  /\ (forall (argv names : list string) (n fallback a : string),
        valueAfter argv n = Some a -> getArg argv (n :: names) fallback = a)
  /\ (forall (argv names : list string) (n fallback : string),
        valueAfter argv n = None ->
        getArg argv (n :: names) fallback = getArg argv names fallback)
  /\ (forall (argv : list string) (n a : string),
        valueAfter argv n = Some a <->
        exists i, argv !! i = Some n /\ argv !! (i + 1)%nat = Some a
                  /\ forall j, (j < i)%nat -> argv !! j <> Some n)
  /\ (forall argv : list string,
        ~ In "--interval" argv -> ~ In "-i" argv ->
        intervalMs (startupView argv) = ofZ 1000)
  /\ (forall argv : list string,
        ~ In "--top" argv -> ~ In "-t" argv -> topN (startupView argv) = ofZ 20)
  /\ map (fun argv => (intervalMs (startupView argv), topN (startupView argv)))
         [ ["--interval"; "500"; "-t"; "5"];
           ["-i"; "250"; "--interval"; "2000"];
           ["--interval"; "250"; "--interval"; "2000"];
           ["--top"; "0"; "--interval"];
           ["--top"; "-3"; "-i"; " 12abc"];
           ["--interval"; "abc"; "-i"; "300"];
           ["--interval"; "--top"; "7"] ]
     = [ (ofZ 500, ofZ 5); (ofZ 2000, ofZ 20); (ofZ 250, ofZ 20); (ofZ 1000, ofZ 20);
         (ofZ 12, ofZ (-3)); (ofZ 1000, ofZ 20); (ofZ 1000, ofZ 7) ].
Proof.
  split; [| split; [| split; [| split; [| split; [| split]]]]].
  - intros argv v. subst v. unfold startupView, initialView.
    cbn [intervalMs topN sortBy sortDesc filterStr].
    split; [apply parsedOr_truthy; lia |]. split; [apply parsedOr_truthy; lia |]. auto.
  - intros argv names n fallback a H. rewrite getArg_step, H. reflexivity.
  - intros argv names n fallback H. rewrite getArg_step, H. reflexivity.
  - intros argv n a. unfold valueAfter. split.
    + destruct (indexOf argv n) as [i|] eqn:E; [| discriminate].
      intros H. exists i. destruct (indexOf_Some argv n i E) as [Hi Hb]. auto.
    + intros [i [Hi [Ha Hb]]].
      destruct (indexOf argv n) as [k|] eqn:E.
      * destruct (indexOf_Some argv n k E) as [Hk Hkb].
        assert (k = i) as ->; [| exact Ha].
        destruct (Nat.lt_trichotomy k i) as [H | [H | H]]; [| exact H |].
        -- destruct (Hb k H Hk).
        -- destruct (Hkb i H Hi).
      * apply indexOf_None in E. exfalso. apply E.
        apply (lookup_In argv i n Hi).
  - intros argv H1 H2. unfold startupView, initialView. cbn [intervalMs].
    rewrite !getArg_step, !valueAfter_absent by assumption. reflexivity.
  - intros argv H1 H2. unfold startupView, initialView. cbn [topN].
    rewrite !getArg_step, !valueAfter_absent by assumption. reflexivity.
  - by_computation.
Qed.

Lemma orElse_truthy (a b : num) : truthy b = true -> truthy (orElse a b) = true.
Proof. intros Hb. unfold orElse. destruct (truthy a) eqn:E; [exact E | exact Hb]. Qed.

(** X12. The two knobs of the power model.  Whatever [parseFloat] reads,
    a knob is never NaN and never zero (it may be negative or infinite).
    The text that is parsed is the argument following the first occurrence
    of the option on the command line; without one, the environment
    variable when it is set and not empty; otherwise the built-in text.
    When that text parses to NaN or to zero the knob is the built-in value
    (15 W, 1.5 W per GB). *)
Theorem power_knobs_precedence (parseFloat : string -> num) :
  (forall (argv : list string) (env : option string),
      truthy (startup_CPU_TDP_W parseFloat argv env) = true
      /\ truthy (startup_MEM_W_PER_GB parseFloat argv env) = true)
  /\ (forall (argv : list string) (name : string) (env : option string) (text : string)
             (value : Q) (a : string),
        valueAfter argv name = Some a ->
        powerKnob parseFloat argv name env text value = orElse (parseFloat a) (ofQ value))
  /\ (forall (argv : list string) (name e text : string) (value : Q),
        valueAfter argv name = None -> nonEmpty e = true ->
        powerKnob parseFloat argv name (Some e) text value
        = orElse (parseFloat e) (ofQ value))
  /\ (forall (argv : list string) (name : string) (env : option string) (text : string)
             (value : Q),
        valueAfter argv name = None -> env = None \/ env = Some "" ->
        powerKnob parseFloat argv name env text value
        = orElse (parseFloat text) (ofQ value))
  /\ (forall (argv : list string) (name : string) (env : option string) (text : string)
             (value : Q),
        parseFloat (getArg argv [name] (envOr env text)) = NaN
        \/ parseFloat (getArg argv [name] (envOr env text)) = ofZ 0 ->
        powerKnob parseFloat argv name env text value = ofQ value).
Proof.
  split; [| split; [| split; [| split]]].
  - intros argv env. split; apply orElse_truthy; reflexivity.
  - intros argv name env text value a H. unfold powerKnob.
    rewrite getArg_step, H. reflexivity.
  - intros argv name e text value H He. unfold powerKnob, envOr.
    rewrite getArg_step, H, He. reflexivity.
  - intros argv name env text value H He. unfold powerKnob.
    rewrite getArg_step, H. destruct He as [-> | ->]; reflexivity.
  - intros argv name env text value H. unfold powerKnob.
    destruct H as [-> | ->]; reflexivity.
Qed.

(** ** White space *)

Lemma rev_app_append (s t u : string) :
  String.rev_app s t +:+ u = String.rev_app s (t +:+ u).
Proof.
  revert t. induction s as [|c s IH]; intros t; [reflexivity |].
  cbn [String.rev_app]. rewrite IH. reflexivity.
Qed.

Lemma rev_cons (c : ascii) (s : string) :
  String.rev (String c s) = String.rev s +:+ String c "".
Proof. unfold String.rev. cbn [String.rev_app]. rewrite rev_app_append. reflexivity. Qed.

Lemma app_nonEmpty_r (a b : string) : nonEmpty b = true -> nonEmpty (a +:+ b) = true.
Proof. destruct a; [intros H; exact H | reflexivity]. Qed.

Lemma rev_nonEmpty (s : string) : nonEmpty (String.rev s) = nonEmpty s.
Proof. destruct s as [|c s]; [reflexivity |]. rewrite rev_cons. apply app_nonEmpty_r. reflexivity. Qed.

Lemma headIsSpace_trimStart (s : string) : headIsSpace (trimStart s) = false.
Proof.
  induction s as [|c s IH]; [reflexivity |]. cbn [trimStart].
  destruct (Ascii.is_space c) eqn:E; [exact IH | cbn [headIsSpace]; exact E].
Qed.

Lemma trimStart_suffix (s : string) : exists p, s = p +:+ trimStart s.
Proof.
  induction s as [|c s [p IH]]; [exists ""; reflexivity |]. cbn [trimStart].
  destruct (Ascii.is_space c).
  - exists (String c p). change (String c s = String c (p +:+ trimStart s)).
    rewrite <- IH. reflexivity.
  - exists "". reflexivity.
Qed.

Lemma lastIsSpace_app (p t : string) :
  nonEmpty t = true -> lastIsSpace (p +:+ t) = lastIsSpace t.
Proof.
  intros Ht. induction p as [|c p IH]; [reflexivity |].
  change (String c p +:+ t) with (String c (p +:+ t)). cbn [lastIsSpace].
  destruct (p +:+ t) eqn:E; [| exact IH].
  pose proof (app_nonEmpty_r p t Ht) as H. rewrite E in H. discriminate H.
Qed.

Lemma lastIsSpace_rev (s : string) : lastIsSpace (String.rev s) = headIsSpace s.
Proof.
  destruct s as [|c s]; [reflexivity |]. rewrite rev_cons.
  rewrite lastIsSpace_app by reflexivity. reflexivity.
Qed.

Lemma headIsSpace_app (a b : string) :
  nonEmpty a = true -> headIsSpace (a +:+ b) = headIsSpace a.
Proof. destruct a; [discriminate | reflexivity]. Qed.

Lemma headIsSpace_rev (s : string) : headIsSpace (String.rev s) = lastIsSpace s.
Proof.
  induction s as [|c s IH]; [reflexivity |]. rewrite rev_cons. cbn [lastIsSpace].
  destruct s as [|d s']; [reflexivity |].
  rewrite headIsSpace_app by (rewrite rev_nonEmpty; reflexivity). exact IH.
Qed.

Lemma trim_head (s : string) : headIsSpace (trim s) = false.
Proof.
  unfold trim. rewrite headIsSpace_rev.
  destruct (trimStart_suffix (String.rev (trimStart s))) as [p Hp].
  destruct (nonEmpty (trimStart (String.rev (trimStart s)))) eqn:E.
  - rewrite <- (lastIsSpace_app p _ E), <- Hp, lastIsSpace_rev.
    apply headIsSpace_trimStart.
  - apply nonEmpty_false in E. rewrite E. reflexivity.
Qed.

Lemma trim_last (s : string) : lastIsSpace (trim s) = false.
Proof. unfold trim. rewrite lastIsSpace_rev. apply headIsSpace_trimStart. Qed.

Lemma allSpace_app (a b : string) : allSpace (a +:+ b) = allSpace a && allSpace b.
Proof.
  induction a as [|c a IH]; [reflexivity |].
  change (String c a +:+ b) with (String c (a +:+ b)). cbn [allSpace].
  rewrite IH, andb_assoc. reflexivity.
Qed.

Lemma allSpace_rev (s : string) : allSpace (String.rev s) = allSpace s.
Proof.
  induction s as [|c s IH]; [reflexivity |]. rewrite rev_cons, allSpace_app, IH.
  cbn [allSpace]. rewrite andb_true_r. apply andb_comm.
Qed.

Lemma trimStart_empty (s : string) : trimStart s = "" <-> allSpace s = true.
Proof.
  induction s as [|c s IH]; [split; reflexivity |]. cbn [trimStart allSpace].
  destruct (Ascii.is_space c); cbn [andb]; [exact IH | split; discriminate].
Qed.

Lemma allSpace_trimStart (s : string) : allSpace (trimStart s) = allSpace s.
Proof.
  induction s as [|c s IH]; [reflexivity |]. cbn [trimStart].
  destruct (Ascii.is_space c) eqn:E; cbn [allSpace]; rewrite E; [exact IH | reflexivity].
Qed.

Lemma trim_empty (s : string) : trim s = "" <-> allSpace s = true.
Proof.
  unfold trim. rewrite <- nonEmpty_false, rev_nonEmpty, nonEmpty_false.
  rewrite trimStart_empty, allSpace_rev, allSpace_trimStart. reflexivity.
Qed.

Lemma collapse_singleSpaced (s : string) (b : bool) :
  lastIsSpace s = false -> (b = true -> nonEmpty s = true) ->
  singleSpacedFrom b (collapseFrom b s) = true.
Proof.
  revert b. induction s as [|c s IH]; intros b Hl Hb.
  - destruct b; [discriminate (Hb eq_refl) | reflexivity].
  - assert (Hs : lastIsSpace s = false).
    { cbn [lastIsSpace] in Hl. destruct s; [reflexivity | exact Hl]. }
    assert (Hn : Ascii.is_space c = true -> nonEmpty s = true).
    { intros Hc. cbn [lastIsSpace] in Hl. destruct s; [congruence | reflexivity]. }
    cbn [collapseFrom]. destruct (Ascii.is_space c) eqn:Hc.
    + destruct b.
      * apply IH; [exact Hs | intros _; apply Hn; reflexivity].
      * cbn [singleSpacedFrom]. change (Ascii.is_space " ") with true. cbn iota.
        rewrite bool_decide_eq_true_2 by reflexivity. cbn [andb negb].
        apply IH; [exact Hs | intros _; apply Hn; reflexivity].
    + cbn [singleSpacedFrom]. rewrite Hc. apply IH; [exact Hs | discriminate].
Qed.

Lemma collapse_trim_singleSpaced (s : string) :
  nonEmpty (trim s) = true -> singleSpaced (collapseSpaces (trim s)) = true.
Proof.
  intros Hn. pose proof (trim_head s) as Hh. pose proof (trim_last s) as Hl.
  destruct (trim s) as [|c t]; [discriminate Hn |].
  cbn [headIsSpace] in Hh. unfold singleSpaced, collapseSpaces.
  cbn [collapseFrom]. rewrite Hh. cbn [singleSpacedFrom]. rewrite Hh.
  apply collapse_singleSpaced; [| discriminate].
  cbn [lastIsSpace] in Hl. destruct t; [reflexivity | exact Hl].
Qed.

(** ** Detecting the machine *)

(** X13. The machine description survives the two detection queries of
    the start-up well formed, whatever they answer.  The CPU model stays a
    one-line text (not empty, no white space at either end, words
    separated by single spaces: line breaks and tabs of the answer are
    collapsed); it becomes "Unknown CPU" when the query fails and is kept
    when the answer is blank.  The core count stays a positive whole
    number: only an answer that starts with a number above zero replaces
    it.  Neither query touches the other field. *)
Theorem detection_keeps_machine_well_formed :
  (forall (r : execResult) (m : machineInfo),
      singleSpaced (cpuModel m) = true ->
      singleSpaced (cpuModel (detectCpuModel r m)) = true)
  /\ (forall (r : execResult) (m : machineInfo),
        logicalCores (detectCpuModel r m) = logicalCores m
        /\ cpuModel (detectLogicalCores r m) = cpuModel m)
  /\ (forall m : machineInfo, cpuModel (detectCpuModel ExecFail m) = "Unknown CPU")
  /\ (forall (out : string) (m : machineInfo),
        allSpace out = true -> detectCpuModel (ExecOk out) m = m)
  /\ (forall (r : execResult) (m : machineInfo) (k : Z),
        (0 < k)%Z -> logicalCores m = ofZ k ->
        exists k', (0 < k')%Z /\ logicalCores (detectLogicalCores r m) = ofZ k')
  /\ (forall (r : execResult) (m : machineInfo),
        detectLogicalCores r m = m
        \/ exists (out : string) (val : Z),
             r = ExecOk out /\ parseInt10 (trim out) = Some val /\ (0 < val)%Z
             /\ logicalCores (detectLogicalCores r m) = ofZ val)
  /\ (forall n : nat,
        singleSpaced (cpuModel (initialMachine n)) = true
        /\ logicalCores (initialMachine n) = ofZ (Z.of_nat n))
  /\ (let m := detectCpuModel
                 (ExecOk ("Intel(R) Xeon(R)  Gold 6230" +:+ CR +:+ NL
                          +:+ "Intel(R) Xeon(R)  Gold 6230" +:+ CR +:+ NL))
                 (detectLogicalCores (ExecOk ("16" +:+ CR +:+ NL)) (initialMachine 8)) in
      cpuModel m = "Intel(R) Xeon(R) Gold 6230 Intel(R) Xeon(R) Gold 6230"
      /\ logicalCores m = ofZ 16)
  /\ map (fun out => logicalCores (detectLogicalCores (ExecOk out) (initialMachine 8)))
         [""; "0"; "-4"; "cores: 4"; "4 cores"]
     = [ofZ 8; ofZ 8; ofZ 8; ofZ 8; ofZ 4].
Proof.
  split; [| split; [| split; [| split; [| split; [| split; [| split; [| split]]]]]]].
  - intros [|out] m Hm; cbn [detectCpuModel]; [reflexivity |].
    destruct (nonEmpty (trim out)) eqn:E; [| exact Hm].
    cbn [cpuModel]. apply collapse_trim_singleSpaced, E.
  - intros r m. split.
    + destruct r as [|out]; cbn [detectCpuModel]; [reflexivity |].
      destruct (nonEmpty (trim out)); reflexivity.
    + destruct r as [|out]; cbn [detectLogicalCores]; [reflexivity |].
      destruct (parseInt10 (trim out)) as [val|]; [| reflexivity].
      destruct (0 <? val)%Z; reflexivity.
  - reflexivity.
  - intros out m H. cbn [detectCpuModel]. rewrite (proj2 (trim_empty out) H). reflexivity.
  - intros r m k Hk Hm. destruct r as [|out]; cbn [detectLogicalCores]; [eauto |].
    destruct (parseInt10 (trim out)) as [val|]; [| eauto].
    destruct (Z.ltb_spec 0 val); [| eauto]. exists val. split; [assumption | reflexivity].
  - intros r m. destruct r as [|out]; cbn [detectLogicalCores]; [left; reflexivity |].
    destruct (parseInt10 (trim out)) as [val|] eqn:E; [| left; reflexivity].
    destruct (Z.ltb_spec 0 val); [| left; reflexivity].
    right. exists out, val. auto.
  - intros n. split; reflexivity.
  - cbv zeta. split; [vm_compute; reflexivity | by_computation].
  - by_computation.
Qed.

(** ** The battery *)

Lemma batteryStatusLabel_known (code : jsval) : In (batteryStatusLabel code) batteryLabels.
Proof.
  unfold batteryStatusLabel, batteryLabels.
  repeat match goal with
         | |- context [if isCode ?c ?z then _ else _] => destruct (isCode c z)
         end; cbn [In]; tauto.
Qed.

Lemma isCode_true (code : jsval) (z : Z) : isCode code z = true <-> code = VNum (ofZ z).
Proof.
  destruct code as [| | s | n]; cbn [isCode]; try (split; discriminate).
  rewrite bool_decide_eq_true. split; [intros ->; reflexivity | intros [= ->]; reflexivity].
Qed.

Lemma batteryStatusLabel_codes (code : jsval) :
  batteryStatusLabel code <> "Unknown" <->
  exists z : Z, (1 <= z <= 11)%Z /\ code = VNum (ofZ z).
Proof.
  split.
  - unfold batteryStatusLabel.
    repeat match goal with
           | |- context [if isCode ?c ?z then _ else _] =>
               let E := fresh "E" in
               destruct (isCode c z) eqn:E;
               [apply isCode_true in E; intros _; exists z; split; [lia | exact E] |]
           end.
    intros H. destruct (H eq_refl).
  - intros [z [Hz ->]].
    assert (Hcases : (z = 1 \/ z = 2 \/ z = 3 \/ z = 4 \/ z = 5 \/ z = 6 \/ z = 7
                      \/ z = 8 \/ z = 9 \/ z = 10 \/ z = 11)%Z) by lia.
    repeat destruct Hcases as [-> | Hcases]; try subst z; vm_compute; discriminate.
Qed.

(** X14. The battery sample.  There is none exactly when the query gave
    no data or an empty array; of an array only the first battery counts.
    The charge of a sample is a finite number or null (never NaN, an
    infinity or a text), and the status is one of twelve labels: it is
    "Unknown" unless the status code is a number equal to one of 1..11
    (a code given as text, such as "2", is not recognised). *)
Theorem battery_sample_is_well_formed :
  (forall data : option (json batteryRaw),
      sampleBattery data = None <-> data = None \/ data = Some (JArray []))
  /\ (forall (b : batteryRaw) (rest : list batteryRaw),
        sampleBattery (Some (JArray (b :: rest))) = sampleBattery (Some (JObject b)))
  /\ (forall (data : option (json batteryRaw)) (b : batteryInfo),
        sampleBattery data = Some b ->
        (charge b = None \/ exists q : Qc, charge b = Some (Fin q))
        /\ In (status b) batteryLabels)
  /\ (forall (charge0 code : jsval) (q : Qc),
        charge (default {| charge := None; status := "" |}
                  (sampleBattery (Some (JObject {| EstimatedChargeRemaining := charge0;
                                                   BatteryStatus := code |}))))
        = Some (Fin q) <-> charge0 = VNum (Fin q))
  /\ (forall code : jsval,
        batteryStatusLabel code <> "Unknown" <->
        exists z : Z, (1 <= z <= 11)%Z /\ code = VNum (ofZ z))
  /\ map batteryStatusLabel [VNum (ofZ 2); VStr "2"; VNum (ofQ (5 # 2)); VNull; VNum (ofZ 12)]
     = ["AC/Online"; "Unknown"; "Unknown"; "Unknown"; "Unknown"].
Proof.
  split; [| split; [| split; [| split; [| split]]]].
  - intros [[[|b l] | b] |]; cbn; split; try discriminate; auto;
      intros [H | H]; discriminate H.
  - reflexivity.
  - intros data b H. unfold sampleBattery in H.
    destruct data as [d|]; [| discriminate]. destruct (firstOrSelf d) as [raw|]; [| discriminate].
    injection H as <-. cbn [charge status]. split; [| apply batteryStatusLabel_known].
    unfold finiteOrNull. destruct (EstimatedChargeRemaining raw) as [| | s | [| | |q]]; cbn; eauto.
  - intros charge0 code q. cbn. unfold finiteOrNull.
    destruct charge0 as [| | s | [| | |x]]; cbn; split; try discriminate; congruence.
  - exact batteryStatusLabel_codes.
  - vm_compute. reflexivity.
Qed.

(** ** The power scheme *)

Lemma spanNotClose_run (nm post : string) :
  hasChar ")" nm = false ->
  spanNotClose (nm +:+ String ")" post) = (nm, String ")" post).
Proof.
  induction nm as [|c nm IH]; intros H; [reflexivity |].
  cbn [hasChar] in H. apply orb_false_iff in H as [Hc Hnm].
  change (String c nm +:+ String ")" post) with (String c (nm +:+ String ")" post)).
  cbn [spanNotClose]. rewrite Hc, (IH Hnm). reflexivity.
Qed.

Lemma matchParenthesised_skip (pre s : string) :
  hasChar "(" pre = false -> matchParenthesised (pre +:+ s) = matchParenthesised s.
Proof.
  induction pre as [|c pre IH]; intros H; [reflexivity |].
  cbn [hasChar] in H. apply orb_false_iff in H as [Hc Hpre].
  change (String c pre +:+ s) with (String c (pre +:+ s)).
  cbn [matchParenthesised]. rewrite Hc. apply IH, Hpre.
Qed.

Lemma matchParenthesised_none (s : string) :
  hasChar "(" s = false -> matchParenthesised s = None.
Proof.
  induction s as [|c s IH]; intros H; [reflexivity |].
  cbn [hasChar] in H. apply orb_false_iff in H as [Hc Hs].
  cbn [matchParenthesised]. rewrite Hc. apply IH, Hs.
Qed.

Lemma spanNotClose_noClose (s : string) : hasChar ")" (fst (spanNotClose s)) = false.
Proof.
  induction s as [|c s IH]; [reflexivity |]. cbn [spanNotClose].
  destruct (bool_decide (c = ")"%char)) eqn:E; [reflexivity |].
  destruct (spanNotClose s) as [run rest]. cbn [fst hasChar] in *. rewrite E, IH. reflexivity.
Qed.

Lemma matchParenthesised_group (s m : string) :
  matchParenthesised s = Some m -> nonEmpty m = true /\ hasChar ")" m = false.
Proof.
  induction s as [|c s IH]; [discriminate |]. cbn [matchParenthesised].
  destruct (bool_decide (c = "("%char)); [| exact IH].
  pose proof (spanNotClose_noClose s) as Hn.
  destruct (spanNotClose s) as [run rest]. cbn [fst] in Hn.
  destruct (nonEmpty run) eqn:Hr; cbn [andb]; [| exact IH].
  destruct (startsWith rest ")"); [| exact IH].
  intros [= <-]. split; assumption.
Qed.

(** X15. The name of the power scheme.  The sampler never returns the
    empty text: it returns "Unknown" when [powercfg] fails or prints only
    white space, the text of the first pair of parentheses that encloses
    at least one character when there is one (for the usual output, the
    scheme name), and the whole trimmed output otherwise.  The text taken
    from parentheses contains no closing parenthesis. *)
Theorem power_scheme_is_never_empty :
  (forall r : execResult, nonEmpty (samplePowerScheme r) = true)
  /\ samplePowerScheme ExecFail = "Unknown"
  /\ (forall out : string, allSpace out = true -> samplePowerScheme (ExecOk out) = "Unknown")
  /\ (forall out pre nm post : string,
        trim out = pre +:+ "(" +:+ nm +:+ ")" +:+ post ->
        hasChar "(" pre = false -> nonEmpty nm = true -> hasChar ")" nm = false ->
        samplePowerScheme (ExecOk out) = nm)
  /\ (forall out : string,
        hasChar "(" (trim out) = false -> nonEmpty (trim out) = true ->
        samplePowerScheme (ExecOk out) = trim out)
  /\ (forall out m : string,
        matchParenthesised (trim out) = Some m ->
        samplePowerScheme (ExecOk out) = m /\ hasChar ")" m = false)
  /\ map (fun out => samplePowerScheme (ExecOk out))
         [ "Power Scheme GUID: 381b4222-f694-41f0-9685-ff5bb260df2e  (Balanced)" +:+ CR +:+ NL;
           "()(High performance) (x)";
           "((a)";
           "no scheme )(";
           " " +:+ NL ]
     = ["Balanced"; "High performance"; "(a"; "no scheme )("; "Unknown"].
Proof.
  split; [| split; [| split; [| split; [| split; [| split]]]]].
  - intros [|out]; [reflexivity |]. cbn [samplePowerScheme].
    assert (Ho : nonEmpty (if nonEmpty (trim out) then trim out else "Unknown") = true).
    { destruct (nonEmpty (trim out)) eqn:E; [exact E | reflexivity]. }
    destruct (matchParenthesised (trim out)) as [m|]; [| exact Ho].
    destruct (nonEmpty m) eqn:E; [exact E | exact Ho].
  - reflexivity.
  - intros out H. cbn [samplePowerScheme]. rewrite (proj2 (trim_empty out) H). reflexivity.
  - intros out pre nm post Ht Hpre Hnm Hclose. cbn [samplePowerScheme]. rewrite Ht.
    rewrite (matchParenthesised_skip pre _ Hpre).
    change ("(" +:+ nm +:+ ")" +:+ post) with (String "(" (nm +:+ String ")" post)).
    cbn [matchParenthesised]. rewrite bool_decide_eq_true_2 by reflexivity.
    rewrite (spanNotClose_run nm post Hclose), Hnm. cbn [andb startsWith].
    rewrite bool_decide_eq_true_2 by reflexivity.
    assert (Hp : startsWith post "" = true) by (destruct post; reflexivity).
    rewrite Hp. cbn [andb]. rewrite Hnm. reflexivity.
  - intros out Hno Hne. cbn [samplePowerScheme].
    rewrite (matchParenthesised_none _ Hno), Hne. reflexivity.
  - intros out m Hm. destruct (matchParenthesised_group _ _ Hm) as [Hne Hc].
    cbn [samplePowerScheme]. rewrite Hm, Hne. split; [reflexivity | exact Hc].
  - vm_compute. reflexivity.
Qed.

(** ** The prompts *)

Lemma startsWith_empty (s : string) : startsWith s "" = true.
Proof. destruct s; reflexivity. Qed.

Lemma confirmed_iff (conf : string) :
  confirmed conf = true <->
  exists rest, conf = String "y" rest \/ conf = String "Y" rest.
Proof.
  unfold confirmed. destruct conf as [|c rest]; cbn [nonEmpty andb].
  - split; [discriminate | intros [rest [H | H]]; discriminate H].
  - unfold toLowerCase. cbn [mapChars startsWith].
    rewrite startsWith_empty, andb_true_r, bool_decide_eq_true. split.
    + intros H. exists rest.
      assert (Hc : c = "y"%char \/ c = "Y"%char); [| destruct Hc as [-> | ->]; auto].
      revert H. destruct c as [[] [] [] [] [] [] [] []]; vm_compute; intros H;
        first [discriminate H | auto].
    + intros [r [[= -> _] | [= -> _]]]; reflexivity.
Qed.

Section KillFacts.

Context {lib : JsLibrary}.

Lemma commands_rawMode (isTTY on : bool) : commands (rawMode isTTY on) = [].
Proof. destruct isTTY; reflexivity. Qed.

Lemma commands_app (a b : list event) : commands (a ++ b) = commands a ++ commands b.
Proof. apply omap_app. Qed.

Lemma rawModeSwitches_app (a b : list event) :
  rawModeSwitches (a ++ b) = rawModeSwitches a ++ rawModeSwitches b.
Proof. apply omap_app. Qed.

Lemma killDialogue_commands (isTTY : bool) (answer conf : string) (outcome : completion unit) :
  commands (killDialogue isTTY answer conf outcome)
  = match parseInt10 (trim answer) with
    | Some pid => if confirmed conf then [taskkill pid] else []
    | None => []
    end.
Proof.
  unfold killDialogue. rewrite !commands_app, commands_rawMode.
  destruct (parseInt10 (trim answer)) as [pid|]; [| destruct isTTY; reflexivity].
  unfold onConfirmation.
  change (commands (Question ?p :: ?l)) with (commands l).
  rewrite commands_app, commands_rawMode.
  destruct (confirmed conf); reflexivity.
Qed.

Lemma killDialogue_rawMode (isTTY : bool) (answer conf : string) (outcome : completion unit) :
  rawModeSwitches (killDialogue isTTY answer conf outcome)
  = if isTTY then [false; true] else [].
Proof.
  unfold killDialogue, onConfirmation.
  destruct (parseInt10 (trim answer)) as [pid|]; destruct isTTY; try reflexivity;
    destruct (confirmed conf); reflexivity.
Qed.

Lemma killDialogue_last (answer conf : string) (outcome : completion unit) :
  last (killDialogue true answer conf outcome) = Some (SetRawMode true).
Proof.
  unfold killDialogue, onConfirmation.
  destruct (parseInt10 (trim answer)) as [pid|]; [| reflexivity].
  destruct (confirmed conf); reflexivity.
Qed.

End KillFacts.

(** X16. The kill prompt.  A command is run only after a confirmation that
    starts with [y] or [Y], and only when the answer to the first prompt
    starts (after white space and a sign) with digits: then exactly one
    command is run, [taskkill /PID pid /F] for the number read, and one
    line reports its outcome.  An empty or any other confirmation runs
    nothing, and an answer that is no number is not even asked to be
    confirmed.  On a terminal, raw mode is switched off once at the start
    and on again as the last action, on every path; elsewhere it is never
    touched. *)
Theorem kill_needs_pid_and_confirmation (lib : JsLibrary) :
  (forall (isTTY : bool) (answer conf : string) (outcome : completion unit),
      commands (killDialogue isTTY answer conf outcome)
      = match parseInt10 (trim answer) with
        | Some pid => if confirmed conf then [taskkill pid] else []
        | None => []
        end)
  /\ (forall conf : string,
        confirmed conf = true <->
        exists rest, conf = String "y" rest \/ conf = String "Y" rest)
  /\ (forall (isTTY : bool) (answer conf : string) (outcome : completion unit),
        parseInt10 (trim answer) = None ->
        killDialogue isTTY answer conf outcome
        = rawMode isTTY false ++ [Question "Kill PID> "] ++ rawMode isTTY true)
  /\ (forall (isTTY : bool) (answer conf : string) (outcome : completion unit),
        rawModeSwitches (killDialogue isTTY answer conf outcome)
        = if isTTY then [false; true] else [])
  /\ (forall (answer conf : string) (outcome : completion unit),
        head (killDialogue true answer conf outcome) = Some (SetRawMode false)
        /\ last (killDialogue true answer conf outcome) = Some (SetRawMode true))
  /\ (forall (isTTY : bool) (answer conf : string) (pid : Z) (e : thrown),
        parseInt10 (trim answer) = Some pid -> confirmed conf = true ->
        In (ConsoleLog ("Killed PID " +:+ numToString (ofZ pid)))
           (killDialogue isTTY answer conf (Normal tt))
        /\ In (ConsoleLog ("Failed to kill PID " +:+ numToString (ofZ pid) +:+ ": "
                           +:+ describe e))
              (killDialogue isTTY answer conf (Throw e)))
  /\ map (fun ac => commands (killDialogue true (fst ac) (snd ac) (Normal tt)))
         [(" 42 ", "Yes"); ("42", ""); ("42", "n"); ("42", " y"); ("12abc", "y");
          ("", "y"); ("pid 7", "y")]
     = [[taskkill 42]; []; []; []; [taskkill 12]; []; []].
Proof.
  split; [exact killDialogue_commands |]. split; [exact confirmed_iff |].
  split; [| split; [exact killDialogue_rawMode |]].
  { intros isTTY answer conf outcome H. unfold killDialogue. rewrite H. reflexivity. }
  split; [| split].
  - intros answer conf outcome. split; [reflexivity | apply killDialogue_last].
  - intros isTTY answer conf pid e Hp Hc. unfold killDialogue, onConfirmation.
    rewrite Hp, Hc. split; destruct isTTY; cbn; tauto.
  - vm_compute. reflexivity.
Qed.






(** ** The interval keys *)

Lemma injZ_lt (a b : Z) : (a < b)%Z <-> Q2Qc (inject_Z a) < Q2Qc (inject_Z b).
Proof. unfold Qclt. cbn [this Q2Qc]. rewrite !Qred_correct, <- Zlt_Qlt. reflexivity. Qed.

Lemma injZ_le (a b : Z) : (a <= b)%Z <-> Q2Qc (inject_Z a) <= Q2Qc (inject_Z b).
Proof. unfold Qcle. cbn [this Q2Qc]. rewrite !Qred_correct, <- Zle_Qle. reflexivity. Qed.

Lemma Math_max_ofZ (a b : Z) : Math_max (ofZ a) (ofZ b) = ofZ (Z.max a b).
Proof.
  unfold Math_max, ofZ.
  destruct (Z.max_spec a b) as [[H ->] | [H ->]].
  - rewrite (proj2 (ltb_Fin _ _)) by (apply (proj1 (injZ_lt a b)); exact H). reflexivity.
  - rewrite (proj2 (ltb_Fin_false _ _)) by (apply (proj1 (injZ_le b a)); exact H). reflexivity.
Qed.

Lemma Math_min_ofZ (a b : Z) : Math_min (ofZ a) (ofZ b) = ofZ (Z.min a b).
Proof.
  unfold Math_min, ofZ.
  destruct (Z.min_spec a b) as [[H ->] | [H ->]].
  - rewrite (proj2 (ltb_Fin_false _ _)) by (apply (proj1 (injZ_le a b)); lia). reflexivity.
  - destruct (Z.eq_dec a b) as [-> | Hne].
    + rewrite (proj2 (ltb_Fin_false _ _)) by apply Qcle_refl. reflexivity.
    + rewrite (proj2 (ltb_Fin _ _)) by (apply (proj1 (injZ_lt b a)); lia). reflexivity.
Qed.

Lemma faster_value (q : Qc) :
  let n := Z.max 200 (Qfloor (q * Q2Qc (8 # 10))%Qc) in
  (Q2Qc (inject_Z 200) < q -> Q2Qc (inject_Z n) < q)
  /\ (q <= Q2Qc (inject_Z 200) -> n = 200%Z).
Proof.
  intros n. subst n. set (z := Qfloor (q * Q2Qc (8 # 10))%Qc).
  assert (Hz : (inject_Z z <= this q * (8 # 10))%Q).
  { subst z. cbn [this Q2Qc Qcmult]. rewrite !Qred_correct. apply Qfloor_le. }
  split.
  - intros Hq. unfold Qclt in *. cbn [this Q2Qc] in *. rewrite !Qred_correct in *.
    change (inject_Z 200) with (200 # 1)%Q in Hq.
    destruct (Z.max_spec 200 z) as [[_ ->] | [_ ->]]; [lra |].
    change (inject_Z 200) with (200 # 1)%Q. exact Hq.
  - intros Hq. unfold Qcle in Hq. cbn [this Q2Qc] in Hq. rewrite !Qred_correct in Hq.
    change (inject_Z 200) with (200 # 1)%Q in Hq.
    assert (H : (inject_Z z < inject_Z 200)%Q).
    { change (inject_Z 200) with (200 # 1)%Q. lra. }
    rewrite <- Zlt_Qlt in H. lia.
Qed.

Lemma slower_value (q : Qc) :
  let n := Z.min 60000 (Qceiling (q * Q2Qc (125 # 100))%Qc) in
  (0 < q -> q < Q2Qc (inject_Z 60000) -> q < Q2Qc (inject_Z n))
  /\ (Q2Qc (inject_Z 60000) <= q -> n = 60000%Z).
Proof.
  intros n. subst n. set (z := Qceiling (q * Q2Qc (125 # 100))%Qc).
  assert (Hz : (this q * (125 # 100) <= inject_Z z)%Q).
  { subst z. cbn [this Q2Qc Qcmult]. rewrite !Qred_correct. apply Qle_ceiling. }
  split.
  - intros Hq0 Hq. unfold Qclt in *. cbn [this Q2Qc] in *. rewrite !Qred_correct in *.
    change (inject_Z 60000) with (60000 # 1)%Q in Hq.
    destruct (Z.min_spec 60000 z) as [[_ ->] | [_ ->]]; [| lra].
    change (inject_Z 60000) with (60000 # 1)%Q. exact Hq.
  - intros Hq. unfold Qcle in Hq. cbn [this Q2Qc] in Hq. rewrite !Qred_correct in Hq.
    change (inject_Z 60000) with (60000 # 1)%Q in Hq.
    assert (H : (inject_Z 60000 < inject_Z z)%Q).
    { change (inject_Z 60000) with (60000 # 1)%Q. lra. }
    rewrite <- Zlt_Qlt in H. lia.
Qed.

(** X18. What the two interval keys do to a finite refresh interval [q].
    [+] gives the whole number [max(200, floor(0.8 q))]: it is at least
    200, strictly below [q] when [q] is above 200, and 200 when [q] is 200
    or less (so that [+] slows the refresh down when it starts below 200).
    [-] gives [min(60000, ceil(1.25 q))]: it is at most 60000, strictly
    above [q] when [q] is between 0 and 60000, and 60000 when [q] is 60000
    or more.  Neither key changes anything else of the view. *)
Theorem interval_keys_move_toward_bounds (v : viewState) (q : Qc) :
  intervalMs v = Fin q ->
  (exists n : Z,
      onKey "+" v = Some (setInterval (ofZ n) v)
      /\ (200 <= n)%Z
      /\ (Q2Qc (inject_Z 200) < q -> Q2Qc (inject_Z n) < q)
      /\ (q <= Q2Qc (inject_Z 200) -> n = 200%Z))
  /\ (exists n : Z,
        onKey "-" v = Some (setInterval (ofZ n) v)
        /\ (n <= 60000)%Z
        /\ (0 < q -> q < Q2Qc (inject_Z 60000) -> q < Q2Qc (inject_Z n))
        /\ (Q2Qc (inject_Z 60000) <= q -> n = 60000%Z)).
Proof.
  intros Hv. split.
  - exists (Z.max 200 (Qfloor (q * Q2Qc (8 # 10))%Qc)).
    split; [| split; [lia | apply faster_value]].
    rewrite onKey_faster, Hv. cbn [mul ofQ Math_floor]. rewrite Math_max_ofZ. reflexivity.
  - exists (Z.min 60000 (Qceiling (q * Q2Qc (125 # 100))%Qc)).
    split; [| split; [lia | apply slower_value]].
    rewrite onKey_slower, Hv. cbn [mul ofQ Math_ceil]. rewrite Math_min_ofZ. reflexivity.
Qed.

(** X18 at the default interval: [+] gives 800 and [-] gives 1250. *)
Lemma interval_keys_at_1000 :
  intervalMs (initialView None None) = Fin (Q2Qc (inject_Z 1000))
  /\ (exists n : Z,
        onKey "+" (initialView None None) = Some (setInterval (ofZ n) (initialView None None))
        /\ (200 <= n)%Z
        /\ (Q2Qc (inject_Z 200) < Q2Qc (inject_Z 1000)
            -> Q2Qc (inject_Z n) < Q2Qc (inject_Z 1000))
        /\ (Q2Qc (inject_Z 1000) <= Q2Qc (inject_Z 200) -> n = 200%Z))
  /\ (exists n : Z,
        onKey "-" (initialView None None) = Some (setInterval (ofZ n) (initialView None None))
        /\ (n <= 60000)%Z
        /\ (0 < Q2Qc (inject_Z 1000) -> Q2Qc (inject_Z 1000) < Q2Qc (inject_Z 60000)
            -> Q2Qc (inject_Z 1000) < Q2Qc (inject_Z n))
        /\ (Q2Qc (inject_Z 60000) <= Q2Qc (inject_Z 1000) -> n = 60000%Z)).
Proof.
  assert (H : intervalMs (initialView None None) = Fin (Q2Qc (inject_Z 1000)))
    by reflexivity.
  split; [exact H |].
  apply (interval_keys_move_toward_bounds (initialView None None) (Q2Qc (inject_Z 1000)) H).
Defined.

(** ** Several ticks *)

Section MainTicksFacts.

Context {lib : JsLibrary}.
Variables CPU_TDP_W MEM_W_PER_GB : num.
Variable localeCompare : string -> string -> num.

Lemma mainTick_fields (i : tickInputs) (w : world) :
  exists w' : world,
    mainTick CPU_TDP_W MEM_W_PER_GB localeCompare i w = (Normal tt, w')
    /\ view w' = view w /\ machine w' = machine w /\ columns w' = columns w
    /\ clockText w' = clockText w /\ errorLog w' = errorLog w
    /\ scheduled w' = scheduled w ++ [intervalMs (view w)]
    /\ cpuHistory w'
       = snd (sampleProcesses CPU_TDP_W MEM_W_PER_GB (logicalCores (machine w))
                (in_now i) (in_processes i) (cpuHistory w)).
Proof.
  destruct (mainTick_result lib CPU_TDP_W MEM_W_PER_GB localeCompare i w) as [frame H].
  eexists. split; [exact H |]. repeat split; reflexivity.
Qed.

Lemma mainTicks_fields (inputs : list tickInputs) (w : world) :
  exists w' : world,
    mainTicks CPU_TDP_W MEM_W_PER_GB localeCompare inputs w = (Normal tt, w')
    /\ view w' = view w /\ machine w' = machine w /\ errorLog w' = errorLog w
    /\ scheduled w' = scheduled w ++ replicate (length inputs) (intervalMs (view w))
    /\ cpuHistory w'
       = match last inputs with
         | Some i => {| prevCpuMap := prevCpuMap (cpuHistory w');
                        prevSampleTime := in_now i |}
         | None => cpuHistory w
         end
    /\ forall i, last inputs = Some i ->
         forall k, is_Some (prevCpuMap (cpuHistory w') !! k) <-> In k (pidsOf (in_processes i)).
Proof.
  revert w. induction inputs as [|i inputs IH]; intros w.
  - exists w. cbn [mainTicks length replicate last]. rewrite app_nil_r.
    repeat split; try reflexivity; discriminate.
  - cbn [mainTicks]. unfold bind at 1.
    destruct (mainTick_fields i w) as [w1 [H1 [Hv [Hm [_ [_ [He [Hs Hh]]]]]]]].
    rewrite H1. destruct (IH w1) as [w' [H' [Hv' [Hm' [He' [Hs' [Hh' Hd']]]]]]].
    exists w'. split; [exact H' |].
    split; [congruence |]. split; [congruence |]. split; [congruence |].
    split.
    { rewrite Hs', Hs, Hv. cbn [length replicate]. rewrite <- app_assoc. reflexivity. }
    destruct inputs as [|j inputs'].
    + cbn [mainTicks ret] in H'. injection H' as <-. cbn [last].
      split.
      * rewrite Hh. unfold sampleProcesses. reflexivity.
      * intros i' [= <-] k. rewrite Hh. unfold sampleProcesses. cbn [snd prevCpuMap].
        rewrite rebuildCpuMap_is_Some. unfold pidsOf. rewrite !in_map_iff.
        split.
        -- intros [r [Hk Hr]]. apply in_map_iff in Hr as [p [<- Hp]].
           exists p. split; [exact Hk | exact Hp].
        -- intros [p [Hk Hp]]. eexists. split; [| apply in_map; exact Hp]. exact Hk.
    + change (last (i :: j :: inputs')) with (last (j :: inputs')).
      split; [| exact Hd'].
      destruct (last (j :: inputs')) as [l|] eqn:E; [exact Hh' |].
      apply last_None in E. discriminate E.
Qed.

End MainTicksFacts.

(** X19. Any number of ticks of the script, whatever the queries answer
    in each of them, run to the end without an error: nothing is added to
    the error log, the view and the machine description are left alone,
    and exactly one timer is set per tick, with the refresh interval.
    After the last tick the CPU history holds the clock reading of that
    tick and an entry for exactly the pids of its process sample. *)
Theorem script_ticks_run_clean (lib : JsLibrary) (CPU_TDP_W MEM_W_PER_GB : num)
    (localeCompare : string -> string -> num) (inputs : list tickInputs) (w : world) :
  exists w' : world,
    mainTicks CPU_TDP_W MEM_W_PER_GB localeCompare inputs w = (Normal tt, w')
    /\ view w' = view w /\ machine w' = machine w /\ errorLog w' = errorLog w
    /\ scheduled w' = scheduled w ++ replicate (length inputs) (intervalMs (view w))
    /\ forall i, last inputs = Some i ->
         prevSampleTime (cpuHistory w') = in_now i
         /\ forall k, is_Some (prevCpuMap (cpuHistory w') !! k)
                      <-> In k (pidsOf (in_processes i)).
Proof.
  destruct (mainTicks_fields CPU_TDP_W MEM_W_PER_GB localeCompare inputs w)
    as [w' [H [Hv [Hm [He [Hs [Hh Hd]]]]]]].
  exists w'. split; [exact H |]. split; [exact Hv |]. split; [exact Hm |].
  split; [exact He |]. split; [exact Hs |].
  intros i Hi. split; [| apply Hd, Hi]. rewrite Hh, Hi. reflexivity.
Qed.

(** ** The order of the sample *)

Lemma filter_Permutation' {A : Type} (f : A -> bool) (l1 l2 : list A) :
  Permutation l1 l2 -> Permutation (List.filter f l1) (List.filter f l2).
Proof.
  induction 1 as [| x l1 l2 _ IH | x y l | l1 l2 l3 _ IH1 _ IH2]; cbn [List.filter].
  - constructor.
  - destruct (f x); [constructor |]; exact IH.
  - destruct (f x), (f y); try reflexivity. constructor.
  - eapply Permutation_trans; eassumption.
Qed.

Section SortedUnique.

Context {A : Type}.
Variable c : A -> A -> num.
Variable ok : A -> Prop.
Hypothesis c_consistent : consistentOn ok c.

Lemma notAfter_both_tied (a b : A) :
  ok a -> ok b -> notAfter c a b -> notAfter c b a -> tiedBy c a b = true.
Proof.
  intros Ha Hb Hab Hba. unfold notAfter, tiedBy in *.
  destruct c_consistent as [Hanti _]. rewrite (Hanti a b Ha Hb) in Hba.
  destruct (sgn (c a b)); simpl in *; congruence.
Qed.

Lemma sorted_Permutation_unique (l1 l2 : list A) :
  Forall ok l1 -> Permutation l1 l2 ->
  (forall a b, In a l1 -> In b l1 -> tiedBy c a b = true -> a = b) ->
  StronglySorted (notAfter c) l1 -> StronglySorted (notAfter c) l2 -> l1 = l2.
Proof.
  revert l2. induction l1 as [|a l1 IH]; intros l2 Hok Hp Htie Hs1 Hs2.
  - apply Permutation_nil in Hp. subst l2. reflexivity.
  - destruct l2 as [|b l2]; [apply Permutation_sym, Permutation_nil in Hp; discriminate Hp |].
    apply StronglySorted_inv in Hs1 as [Hs1 Ha]. apply StronglySorted_inv in Hs2 as [Hs2 Hb].
    rewrite List.Forall_forall in Ha, Hb.
    pose proof (proj1 (List.Forall_forall _ _) Hok) as Hall.
    assert (Hab : a = b).
    { assert (Hin_a : In a (b :: l2)).
      { apply (Permutation_in _ Hp). left. reflexivity. }
      assert (Hin_b : In b (a :: l1)).
      { apply (Permutation_in _ (Permutation_sym Hp)). left. reflexivity. }
      destruct Hin_a as [<- | Hin_a]; [reflexivity |].
      destruct Hin_b as [-> | Hin_b]; [reflexivity |].
      apply Htie; [left; reflexivity | right; exact Hin_b |].
      apply notAfter_both_tied;
        [apply Hall; left; reflexivity | apply Hall; right; exact Hin_b
        | apply Ha, Hin_b | apply Hb, Hin_a]. }
    subst b. f_equal. apply Permutation_cons_inv in Hp.
    apply IH; try assumption.
    + apply Forall_cons in Hok as [_ Hok]. exact Hok.
    + intros x y Hx Hy. apply Htie; right; assumption.
Qed.

End SortedUnique.

(** X20. The ranking does not depend on the order in which the processes
    were sampled, as long as no two different rows that pass the filter
    tie on the sort key: two samples with the same rows in different
    orders are ranked the same.  (Rows that tie keep their sample order,
    which is where the order of the sample shows.) *)
Theorem ranking_ignores_sample_order
    (localeCompare : string -> string -> num) (v : viewState) (rows1 rows2 : list row) :
  Forall rankable rows1 ->
  (sortBy v = "name" -> consistentOn (fun _ : string => True) localeCompare) ->
  Permutation rows1 rows2 ->
  (forall a b, In a (filterRows v rows1) -> In b (filterRows v rows1) ->
               tied localeCompare v a b = true -> a = b) ->
  sortAndFilterProcesses localeCompare v rows1 = sortAndFilterProcesses localeCompare v rows2.
Proof.
  intros Hok Hn Hp Htie. unfold sortAndFilterProcesses. f_equal.
  pose proof (rankComparator_consistent localeCompare v Hn) as Hc.
  assert (Hok2 : Forall rankable rows2).
  { rewrite List.Forall_forall in Hok |- *. intros r Hr. apply Hok.
    apply (Permutation_in _ (Permutation_sym Hp)), Hr. }
  assert (Hf1 : Forall rankable (filterRows v rows1)) by (apply filterRows_Forall, Hok).
  assert (Hf2 : Forall rankable (filterRows v rows2)) by (apply filterRows_Forall, Hok2).
  assert (Hpf : Permutation (filterRows v rows1) (filterRows v rows2)).
  { unfold filterRows, filterRowsBy. destruct (nonEmpty (filterStr v)); [apply filter_Permutation' |]; exact Hp. }
  apply (sorted_Permutation_unique (rankComparator localeCompare v) rankable Hc).
  - apply Array_sort_Forall, Hf1.
  - eapply Permutation_trans; [apply Array_sort_Permutation |].
    eapply Permutation_trans; [exact Hpf |].
    apply Permutation_sym, Array_sort_Permutation.
  - intros a b Ha Hb Ht.
    apply (Permutation_in _ (Array_sort_Permutation _ _)) in Ha, Hb.
    pose proof (proj1 (List.Forall_forall _ _) Hf1) as Hall.
    apply Htie; [exact Ha | exact Hb |].
    rewrite <- (tiedBy_tied localeCompare v a b Hn (Hall a Ha) (Hall b Hb)). exact Ht.
  - apply (Array_sort_sorted _ rankable Hc), Hf1.
  - apply (Array_sort_sorted _ rankable Hc), Hf2.
Qed.

(** X20 on two processes with different memory, ranked by memory. *)
Lemma ranking_of_two_rows_either_order :
  let v := mkView "mem" true "" 20 in
  let rows1 := [mkRow 1 "a" "" 100; mkRow 2 "b" "" 300] in
  let rows2 := [mkRow 2 "b" "" 300; mkRow 1 "a" "" 100] in
  Permutation rows1 rows2
  /\ sortAndFilterProcesses codeUnitCompare v rows1
     = sortAndFilterProcesses codeUnitCompare v rows2.
Proof.
  cbv zeta.
  assert (Hok : Forall rankable [mkRow 1 "a" "" 100; mkRow 2 "b" "" 300]).
  { repeat constructor; discriminate. }
  assert (Hn : sortBy (mkView "mem" true "" 20) = "name" ->
               consistentOn (fun _ : string => True) codeUnitCompare).
  { discriminate. }
  assert (Hp : Permutation [mkRow 1 "a" "" 100; mkRow 2 "b" "" 300]
                           [mkRow 2 "b" "" 300; mkRow 1 "a" "" 100]).
  { apply perm_swap. }
  assert (Htie : forall a b,
             In a (filterRows (mkView "mem" true "" 20) [mkRow 1 "a" "" 100; mkRow 2 "b" "" 300]) ->
             In b (filterRows (mkView "mem" true "" 20) [mkRow 1 "a" "" 100; mkRow 2 "b" "" 300]) ->
             tied codeUnitCompare (mkView "mem" true "" 20) a b = true -> a = b).
  { intros a b Ha Hb. cbn in Ha, Hb.
    destruct Ha as [<- | [<- | []]], Hb as [<- | [<- | []]];
      try reflexivity; intros H; vm_compute in H; discriminate H. }
  split; [exact Hp |].
  apply (ranking_ignores_sample_order codeUnitCompare (mkView "mem" true "" 20)
           [mkRow 1 "a" "" 100; mkRow 2 "b" "" 300]
           [mkRow 2 "b" "" 300; mkRow 1 "a" "" 100] Hok Hn Hp Htie).
Defined.
